(** * CaMeL: capability-tracking values, the capability utilities, the
    security-policy engine and the namespace.

    A shallow embedding of
      - [camel/capabilities/utils.py]     (readers, sources, trust),
      - [camel/security_policy.py]        (the policy engine),
      - [camel/interpreter/namespace.py]  (namespaces),
      - [camel/interpreter/value.py]      (values and their operators),
      - [camel/pipeline_elements/agentdojo_function.py] (the tool callable).

    Python objects have an identity ([id(obj)]) and can be mutated and
    aliased; values therefore live in a store and are referred to by their
    identity.  Recursive Python functions that need not return (they walk a
    graph that may be cyclic) take a recursion budget and return [None] when
    it is exhausted. *)

From Stdlib Require Import ZArith.
From stdpp Require Import base tactics option list gmap strings sets relations pretty.

Open Scope Z_scope.
Open Scope string_scope.
Open Scope list_scope.
Open Scope nat_scope.


(** A loop [for x in l: acc = f(acc, x)] whose body may fail to return. *)
Fixpoint foldM {A B : Type} (f : B → A → option B) (b : B) (l : list A) : option B :=
  match l with
  | [] => Some b
  | x :: l' => match f b x with
               | Some b' => foldM f b' l'
               | None => None
               end
  end.

(** ** camel.capabilities: sources, readers, Capabilities *)

Module sources.

(** Modelled from the spec: [camel/capabilities/sources.py] is not among the
    source files.  A source is an enumerated constant or a [Tool] with the
    set of inner sources (tool names or enumerated constants) it read
    ([InnerSourcesSet = frozenset[str | SourceEnum]] in
    [agentdojo_function.py]). *)
Inductive SourceEnum := CaMeL | User | Assistant | TrustedToolSource.

#[global] Instance SourceEnum_eq_dec : EqDecision SourceEnum.
Proof. solve_decision. Defined.

#[global] Instance SourceEnum_countable : Countable SourceEnum.
Proof.
  refine (inj_countable'
    (λ e, match e with CaMeL => 0 | User => 1 | Assistant => 2 | TrustedToolSource => 3 end)
    (λ n, match n with 0 => CaMeL | 1 => User | 2 => Assistant | _ => TrustedToolSource end) _).
  by intros [].
Defined.

Inductive Source :=
  | Enum (e : SourceEnum)
  | Tool (tool_name : string) (inner_sources : gset (string + SourceEnum)).

#[global] Instance Source_eq_dec : EqDecision Source.
Proof. solve_decision. Defined.

#[global] Instance Source_countable : Countable Source.
Proof.
  refine (inj_countable'
    (λ s, match s with Enum e => inl e | Tool n i => inr (n, i) end)
    (λ x, match x with inl e => Enum e | inr (n, i) => Tool n i end) _).
  by intros [].
Defined.

End sources.

Module readers.

(** Modelled from the spec: [camel/capabilities/readers.py] is not among the
    source files.  A reader set is [Public] (everyone) or a concrete set of
    identifiers. *)
Inductive Readers :=
  | Public
  | SharedWith (rs : gset string).

#[global] Instance Readers_eq_dec : EqDecision Readers.
Proof. solve_decision. Defined.

(** Modelled from the spec: the reader meet [&]:
    [Public ∧ X = X] and [S1 ∧ S2 = S1 ∩ S2]. *)
Definition and_ (a b : Readers) : Readers :=
  match a, b with
  | Public, x => x
  | x, Public => x
  | SharedWith s1, SharedWith s2 => SharedWith (s1 ∩ s2)
  end.

(** [isinstance(r, readers.Public)] *)
Definition is_Public (r : Readers) : bool :=
  match r with Public => true | SharedWith _ => false end.

(** Who may read: everyone under [Public], the members of a concrete set. *)
Definition may_read (p : string) (r : Readers) : Prop :=
  match r with Public => True | SharedWith s => p ∈ s end.

End readers.

Export sources readers.

(** Modelled from the spec: [camel/capabilities/capabilities.py] is not
    among the source files.  A [Capabilities] record bundles
    [(sources_set, readers_set)]; [camel()] has sources [{CaMeL}] and readers
    [Public]; [default()] has no sources and readers [Public]. *)
Record Capabilities := mkCapabilities {
  sources_set : gset Source;
  readers_set : Readers;
}.

#[global] Instance Capabilities_eq_dec : EqDecision Capabilities.
Proof. solve_decision. Defined.

Module Capabilities_.
Definition camel : Capabilities := mkCapabilities {[ Enum CaMeL ]} Public.
Definition default : Capabilities := mkCapabilities ∅ Public.
End Capabilities_.

(** ** camel/capabilities/utils.py

    The functions are written against the protocol
    [HasDependenciesAndMetadata]: a value has an identity, a [metadata]
    property and a method [get_dependencies()] whose first component is its
    list of dependencies.  [get_dependencies v = None] stands for a call that
    does not return. *)

Section utils.

Context {V : Type} `{Countable V}.
Variable metadata : V → Capabilities.
Variable get_dependencies : V → option (list V).

Fixpoint get_all_readers (fuel : nat) (value : V) (visited_objects : gset V)
    : option (Readers * gset V) :=
  match fuel with
  | 0 => None
  | S fuel' =>
      (* Catch circular dependencies that might come up *)
      if decide (value ∈ visited_objects)
      then Some (readers_set (metadata value), visited_objects)
      else
        match get_dependencies value with
        | None => None
        | Some dependencies =>
            match
              foldM (λ '(value_readers, visited_objects) dependency,
                       match get_all_readers fuel' dependency (visited_objects ∪ {[ value ]}) with
                       | Some (new_value_readers, visited_objects) =>
                           Some (and_ value_readers new_value_readers, visited_objects)
                       | None => None
                       end)
                    (readers_set (metadata value), visited_objects) dependencies
            with
            | Some (value_readers, visited_objects) =>
                Some (value_readers, visited_objects ∪ {[ value ]})
            | None => None
            end
        end
  end.

Definition is_public (fuel : nat) (value : V) : option bool :=
  match get_all_readers fuel value ∅ with
  | Some (r, _) => Some (is_Public r)
  | None => None
  end.

Definition can_readers_read_value (fuel : nat) (potential_readers : gset string) (value : V)
    : option bool :=
  match get_all_readers fuel value ∅ with
  | Some (value_readers, _) =>
      match value_readers with
      | Public => Some true
      | SharedWith s => Some (bool_decide (potential_readers ⊆ s))
      end
  | None => None
  end.

Fixpoint get_all_sources (fuel : nat) (value : V) (visited_objects : gset V)
    : option (gset Source * gset V) :=
  match fuel with
  | 0 => None
  | S fuel' =>
      (* Catch circular dependencies that might come up *)
      if decide (value ∈ visited_objects)
      then Some (∅, visited_objects)
      else
        match get_dependencies value with
        | None => None
        | Some dependencies =>
            foldM (λ '(value_sources, visited_objects) dependency,
                     match get_all_sources fuel' dependency (visited_objects ∪ {[ value ]}) with
                     | Some (new_value_sources, visited_objects) =>
                         Some (value_sources ∪ new_value_sources, visited_objects)
                     | None => None
                     end)
                  (sources_set (metadata value), visited_objects) dependencies
        end
  end.

Definition _TRUSTED_SET : gset Source :=
  {[ Enum User; Enum CaMeL; Enum Assistant; Enum TrustedToolSource ]}.

(** [x in _TRUSTED_SET] for an element of [inner_sources]: a tool name (a
    string) is never a member. *)
Definition inner_in_TRUSTED_SET (i : string + SourceEnum) : bool :=
  match i with
  | inl _ => false
  | inr e => bool_decide (Enum e ∈ _TRUSTED_SET)
  end.

Definition _source_is_trusted (s : Source) : bool :=
  if bool_decide (s ∈ _TRUSTED_SET) then true
  else
    match s with
    | Tool _ inner_sources =>
        negb (bool_decide (size inner_sources = 0))
        && forallb inner_in_TRUSTED_SET (elements inner_sources)
    | Enum _ => false
    end.

Definition is_trusted (fuel : nat) (value : V) : option bool :=
  match get_all_sources fuel value ∅ with
  | Some (all_sources, _) => Some (forallb _source_is_trusted (elements all_sources))
  | None => None
  end.

(** *** The dependency graph the traversals walk *)

(** [dependency] is a direct dependency of [value]. *)
Definition depends_on (value dependency : V) : Prop :=
  ∃ dependencies, get_dependencies value = Some dependencies ∧ dependency ∈ dependencies.

(** [x] is [value] itself or one of its transitive dependencies. *)
Definition reaches (value x : V) : Prop := rtc depends_on value x.

End utils.


Section utils_facts.

Context {V : Type} `{Countable V}.
Variable metadata : V → Capabilities.
Variable get_dependencies : V → option (list V).

Local Abbreviation depends_on := (depends_on get_dependencies).
Local Abbreviation reaches := (reaches get_dependencies).
Local Abbreviation get_all_sources := (get_all_sources metadata get_dependencies).
Local Abbreviation get_all_readers := (get_all_readers metadata get_dependencies).

Lemma reaches_step value d x :
  depends_on value d → reaches d x → reaches value x.
Proof. intros Hd Hr. eapply rtc_l; eauto. Qed.

(** What one call of [get_all_sources] has done when it returns: [S] is the
    set of values whose own sources were added. *)
Definition sources_call_post (value : V) (visited : gset V)
    (srcs : gset Source) (visited' : gset V) (S : gset V) : Prop :=
  (∀ s, s ∈ srcs ↔ ∃ x, x ∈ S ∧ s ∈ sources_set (metadata x)) ∧
  (∀ x, x ∈ S → reaches value x) ∧
  visited ⊆ visited' ∧ visited' ⊆ visited ∪ S ∧ value ∈ S ∪ visited ∧
  (∀ x y, x ∈ S → depends_on x y → y ∈ S ∪ visited).

Lemma get_all_sources_loop fuel value :
  (∀ v vis srcs vis', get_all_sources fuel v vis = Some (srcs, vis') →
     ∃ S, sources_call_post v vis srcs vis' S) →
  ∀ ds acc vis srcs vis',
    foldM (λ '(value_sources, visited_objects) dependency,
             match get_all_sources fuel dependency (visited_objects ∪ {[ value ]}) with
             | Some (new_value_sources, visited_objects) =>
                 Some (value_sources ∪ new_value_sources, visited_objects)
             | None => None
             end) (acc, vis) ds = Some (srcs, vis') →
    ∃ S : gset V,
      (∀ s, s ∈ srcs ↔ s ∈ acc ∨ ∃ x, x ∈ S ∧ s ∈ sources_set (metadata x)) ∧
      (∀ x, x ∈ S → ∃ d, d ∈ ds ∧ reaches d x) ∧
      vis ⊆ vis' ∧ vis' ⊆ vis ∪ {[ value ]} ∪ S ∧
      (∀ d, d ∈ ds → d ∈ S ∪ vis ∪ {[ value ]}) ∧
      (∀ x y, x ∈ S → depends_on x y → y ∈ S ∪ vis ∪ {[ value ]}).
Proof.
  intros IH ds. induction ds as [|d ds IHds]; intros acc vis srcs vis' Hf; simpl in Hf.
  - inversion Hf; subst. exists ∅. repeat split.
    + intros Hs. by left.
    + intros [Hs|(x & Hx & _)]; [done|]. by apply not_elem_of_empty in Hx.
    + intros x Hx. by apply not_elem_of_empty in Hx.
    + done.
    + set_solver +.
    + intros d Hd. by apply not_elem_of_nil in Hd.
    + intros x y Hx. by apply not_elem_of_empty in Hx.
  - destruct (get_all_sources fuel d (vis ∪ {[ value ]})) as [[ns vis1]|] eqn:Hd; [|done].
    destruct (IH _ _ _ _ Hd) as (S1 & Hs1 & Hr1 & Hsub1 & Hsup1 & Hin1 & Hcl1).
    destruct (IHds _ _ _ _ Hf) as (S2 & Hs2 & Hr2 & Hsub2 & Hsup2 & Hin2 & Hcl2).
    exists (S1 ∪ S2). repeat split.
    + intros Hs. apply Hs2 in Hs as [Hs|(x & Hx & Hs)].
      * apply elem_of_union in Hs as [Hs|Hs]; [by left|].
        apply Hs1 in Hs as (x & Hx & Hs). right. exists x. split; [|done].
        apply elem_of_union. by left.
      * right. exists x. split; [|done]. apply elem_of_union. by right.
    + intros [Hs|(x & Hx & Hs)]; apply Hs2.
      * left. apply elem_of_union. by left.
      * apply elem_of_union in Hx as [Hx|Hx].
        -- left. apply elem_of_union_r. apply Hs1. eauto.
        -- right. eauto.
    + intros x Hx. apply elem_of_union in Hx as [Hx|Hx].
      * exists d. split; [left|]. by apply Hr1.
      * destruct (Hr2 x Hx) as (d' & Hd' & Hr'). exists d'. split; [by right|done].
    + set_solver + Hsub1 Hsub2.
    + set_solver + Hsup1 Hsup2.
    + intros d' Hd'. apply elem_of_cons in Hd' as [->|Hd'].
      * set_solver + Hin1.
      * specialize (Hin2 d' Hd'). set_solver + Hin2 Hsup1.
    + intros x y Hx Hxy. apply elem_of_union in Hx as [Hx|Hx].
      * specialize (Hcl1 x y Hx Hxy). set_solver + Hcl1.
      * specialize (Hcl2 x y Hx Hxy). set_solver + Hcl2 Hsup1.
Qed.

Lemma get_all_sources_post fuel :
  ∀ value vis srcs vis', get_all_sources fuel value vis = Some (srcs, vis') →
    ∃ S, sources_call_post value vis srcs vis' S.
Proof.
  induction fuel as [|fuel IH]; intros value vis srcs vis' Hc; [done|].
  simpl in Hc. destruct (decide (value ∈ vis)) as [Hin|Hnin].
  - inversion Hc; subst. exists ∅. repeat split.
    + intros Hs. by apply not_elem_of_empty in Hs.
    + intros (x & Hx & _). by apply not_elem_of_empty in Hx.
    + intros x Hx. by apply not_elem_of_empty in Hx.
    + done.
    + set_solver +.
    + set_solver + Hin.
    + intros x y Hx. by apply not_elem_of_empty in Hx.
  - destruct (get_dependencies value) as [ds|] eqn:Hds; [|done].
    destruct (get_all_sources_loop fuel value IH _ _ _ _ _ Hc)
      as (S & Hs & Hr & Hsub & Hsup & Hin & Hcl).
    exists ({[ value ]} ∪ S). repeat split.
    + intros Hx. apply Hs in Hx as [Hx|(x & Hx & Hsx)].
      * exists value. split; [|done]. apply elem_of_union. left. by apply elem_of_singleton.
      * exists x. split; [|done]. apply elem_of_union. by right.
    + intros (x & Hx & Hsx). apply Hs. apply elem_of_union in Hx as [Hx|Hx].
      * left. apply elem_of_singleton in Hx. by subst.
      * right. eauto.
    + intros x Hx. apply elem_of_union in Hx as [Hx|Hx].
      * apply elem_of_singleton in Hx. subst. apply rtc_refl.
      * destruct (Hr x Hx) as (d & Hd & Hrd). eapply reaches_step; [|done]. by exists ds.
    + done.
    + set_solver + Hsup.
    + set_solver +.
    + intros x y Hx Hxy. apply elem_of_union in Hx as [Hx|Hx].
      * apply elem_of_singleton in Hx. subst.
        destruct Hxy as (ds' & Hds' & Hy). rewrite Hds in Hds'. inversion Hds'; subst.
        specialize (Hin y Hy). set_solver + Hin.
      * specialize (Hcl x y Hx Hxy). set_solver + Hcl.
Qed.

(** At the top level ([visited_objects] empty) the sources returned are those
    of the value and of all its transitive dependencies. *)
Lemma get_all_sources_reaches fuel value srcs vis :
  get_all_sources fuel value ∅ = Some (srcs, vis) →
  ∀ s, s ∈ srcs ↔ ∃ x, reaches value x ∧ s ∈ sources_set (metadata x).
Proof.
  intros Hc. destruct (get_all_sources_post _ _ _ _ _ Hc)
    as (S & Hs & Hr & _ & _ & Hv & Hcl).
  assert (Hall : ∀ x, reaches value x → x ∈ S).
  { apply (rtc_ind_r (λ x, x ∈ S) value).
    - set_solver + Hv.
    - intros y z _ Hyz Hy. specialize (Hcl y z Hy Hyz). set_solver + Hcl. }
  intros s. rewrite Hs. split; intros (x & Hx & Hsx); exists x; split; auto.
Qed.

(** The reader meet is a homomorphism for [is_Public] and for [may_read]. *)
Lemma is_Public_and_ a b : is_Public (and_ a b) = is_Public a && is_Public b.
Proof. by destruct a, b. Qed.

Lemma may_read_and_ p a b : may_read p (and_ a b) ↔ may_read p a ∧ may_read p b.
Proof. destruct a, b; simpl; [tauto|tauto|tauto|]. by rewrite elem_of_intersection. Qed.

(** [r] is the meet of [acc] and of the reader sets of the values in [F]. *)
Definition readers_is_meet (r acc : Readers) (F : gset V) : Prop :=
  (is_Public r = true ↔
     is_Public acc = true ∧ ∀ x, x ∈ F → is_Public (readers_set (metadata x)) = true) ∧
  (∀ p, may_read p r ↔
     may_read p acc ∧ ∀ x, x ∈ F → may_read p (readers_set (metadata x))).

(** What one call of [get_all_readers] has done when it returns: [F] is the
    set of values whose own reader sets were met into the result. *)
Definition readers_call_post (value : V) (visited : gset V)
    (r : Readers) (visited' : gset V) (F : gset V) : Prop :=
  readers_is_meet r Public F ∧
  (∀ x, x ∈ F → reaches value x) ∧
  visited ⊆ visited' ∧ visited' ⊆ visited ∪ F ∧ value ∈ F ∧
  (∀ x y, x ∈ F → x ∉ visited → depends_on x y → y ∈ F ∪ visited).

Lemma get_all_readers_loop fuel value :
  (∀ v vis r vis', get_all_readers fuel v vis = Some (r, vis') →
     ∃ F, readers_call_post v vis r vis' F) →
  ∀ ds acc vis r vis',
    foldM (λ '(value_readers, visited_objects) dependency,
             match get_all_readers fuel dependency (visited_objects ∪ {[ value ]}) with
             | Some (new_value_readers, visited_objects) =>
                 Some (and_ value_readers new_value_readers, visited_objects)
             | None => None
             end) (acc, vis) ds = Some (r, vis') →
    ∃ F : gset V,
      readers_is_meet r acc F ∧
      (∀ x, x ∈ F → ∃ d, d ∈ ds ∧ reaches d x) ∧
      vis ⊆ vis' ∧ vis' ⊆ vis ∪ {[ value ]} ∪ F ∧
      (∀ d, d ∈ ds → d ∈ F) ∧
      (∀ x y, x ∈ F → x ∉ vis ∪ {[ value ]} → depends_on x y → y ∈ F ∪ vis ∪ {[ value ]}).
Proof.
  intros IH ds. induction ds as [|d ds IHds]; intros acc vis r vis' Hf; simpl in Hf.
  - inversion Hf; subst. exists ∅. split; [split|repeat split].
    + split; [intros Hp; split; [done|]|by intros [Hp _]].
      intros x Hx. by apply not_elem_of_empty in Hx.
    + intros p. split; [intros Hp; split; [done|]|by intros [Hp _]].
      intros x Hx. by apply not_elem_of_empty in Hx.
    + intros x Hx. by apply not_elem_of_empty in Hx.
    + done.
    + set_solver +.
    + intros d Hd. by apply not_elem_of_nil in Hd.
    + intros x y Hx. by apply not_elem_of_empty in Hx.
  - destruct (get_all_readers fuel d (vis ∪ {[ value ]})) as [[nr vis1]|] eqn:Hd; [|done].
    destruct (IH _ _ _ _ Hd) as (F1 & [Hp1 Hm1] & Hr1 & Hsub1 & Hsup1 & Hin1 & Hcl1).
    destruct (IHds _ _ _ _ Hf) as (F2 & [Hp2 Hm2] & Hr2 & Hsub2 & Hsup2 & Hin2 & Hcl2).
    exists (F1 ∪ F2). split; [split|repeat split].
    + rewrite Hp2, is_Public_and_, andb_true_iff, Hp1. split.
      * intros [[Ha [_ H1]] H2]. split; [done|]. intros x Hx.
        apply elem_of_union in Hx as [Hx|Hx]; auto.
      * intros [Ha Hx]. split; [split; [done|split; [done|]]|].
        -- intros x Hx1. apply Hx, elem_of_union. by left.
        -- intros x Hx2. apply Hx, elem_of_union. by right.
    + intros p. rewrite Hm2, may_read_and_, Hm1. split.
      * intros [[Ha [_ H1]] H2]. split; [done|]. intros x Hx.
        apply elem_of_union in Hx as [Hx|Hx]; auto.
      * intros [Ha Hx]. split; [split; [done|split; [done|]]|].
        -- intros x Hx1. apply Hx, elem_of_union. by left.
        -- intros x Hx2. apply Hx, elem_of_union. by right.
    + intros x Hx. apply elem_of_union in Hx as [Hx|Hx].
      * exists d. split; [left|]. by apply Hr1.
      * destruct (Hr2 x Hx) as (d' & Hd' & Hr'). exists d'. split; [by right|done].
    + set_solver + Hsub1 Hsub2.
    + set_solver + Hsup1 Hsup2.
    + intros d' Hd'. apply elem_of_cons in Hd' as [->|Hd'].
      * set_solver + Hin1.
      * specialize (Hin2 d' Hd'). set_solver + Hin2.
    + intros x y Hx Hnx Hxy. apply elem_of_union in Hx as [Hx|Hx].
      * specialize (Hcl1 x y Hx Hnx Hxy). set_solver + Hcl1.
      * destruct (decide (x ∈ vis1 ∪ {[ value ]})) as [Hv|Hv].
        -- assert (x ∈ F1) as Hx1 by set_solver + Hv Hnx Hsup1.
           specialize (Hcl1 x y Hx1 Hnx Hxy). set_solver + Hcl1.
        -- specialize (Hcl2 x y Hx Hv Hxy). set_solver + Hcl2 Hsup1.
Qed.

Lemma get_all_readers_post fuel :
  ∀ value vis r vis', get_all_readers fuel value vis = Some (r, vis') →
    ∃ F, readers_call_post value vis r vis' F.
Proof.
  induction fuel as [|fuel IH]; intros value vis r vis' Hc; [done|].
  simpl in Hc. destruct (decide (value ∈ vis)) as [Hin|Hnin].
  - inversion Hc; subst. exists {[ value ]}. split; [split|repeat split].
    + simpl. split.
      * intros Hp. split; [done|]. intros x Hx. apply elem_of_singleton in Hx. by subst.
      * intros [_ Hx]. apply Hx. by apply elem_of_singleton.
    + intros p. simpl. split.
      * intros Hp. split; [done|]. intros x Hx. apply elem_of_singleton in Hx. by subst.
      * intros [_ Hx]. apply Hx. by apply elem_of_singleton.
    + intros x Hx. apply elem_of_singleton in Hx. subst. apply rtc_refl.
    + done.
    + set_solver +.
    + set_solver +.
    + intros x y Hx Hnx. apply elem_of_singleton in Hx. by subst.
  - destruct (get_dependencies value) as [ds|] eqn:Hds; [|done].
    match type of Hc with match ?f with _ => _ end = _ => destruct f as [[r0 vis0]|] eqn:Hf end;
      [|done].
    inversion Hc; subst.
    destruct (get_all_readers_loop fuel value IH _ _ _ _ _ Hf)
      as (F & [Hp Hm] & Hr & Hsub & Hsup & Hin & Hcl).
    exists ({[ value ]} ∪ F). split; [split|repeat split].
    + rewrite Hp. simpl. split.
      * intros [Hv Hx]. split; [done|]. intros x Hxu.
        apply elem_of_union in Hxu as [Hxu|Hxu]; [|by auto].
        apply elem_of_singleton in Hxu. by subst.
      * intros [_ Hx]. split.
        -- apply Hx, elem_of_union. left. by apply elem_of_singleton.
        -- intros x HxF. apply Hx, elem_of_union. by right.
    + intros p. rewrite Hm. simpl. split.
      * intros [Hv Hx]. split; [done|]. intros x Hxu.
        apply elem_of_union in Hxu as [Hxu|Hxu]; [|by auto].
        apply elem_of_singleton in Hxu. by subst.
      * intros [_ Hx]. split.
        -- apply Hx, elem_of_union. left. by apply elem_of_singleton.
        -- intros x HxF. apply Hx, elem_of_union. by right.
    + intros x Hx. apply elem_of_union in Hx as [Hx|Hx].
      * apply elem_of_singleton in Hx. subst. apply rtc_refl.
      * destruct (Hr x Hx) as (d & Hd & Hrd). eapply reaches_step; [|done]. by exists ds.
    + set_solver + Hsub.
    + set_solver + Hsup.
    + set_solver +.
    + intros x y Hx Hnx Hxy. destruct (decide (x = value)) as [->|Hne].
      * destruct Hxy as (ds' & Hds' & Hy). rewrite Hds in Hds'. inversion Hds'; subst.
        specialize (Hin y Hy). set_solver + Hin.
      * assert (x ∈ F) as HxF by set_solver + Hx Hne.
        assert (x ∉ vis ∪ {[ value ]}) as Hx' by set_solver + Hnx Hne.
        specialize (Hcl x y HxF Hx' Hxy). set_solver + Hcl.
Qed.

(** At the top level ([visited_objects] empty) the readers returned are the
    meet of the reader sets of the value and of all its transitive
    dependencies. *)
Lemma get_all_readers_reaches fuel value r vis :
  get_all_readers fuel value ∅ = Some (r, vis) →
  (is_Public r = true ↔ ∀ x, reaches value x → readers_set (metadata x) = Public) ∧
  (∀ p, may_read p r ↔ ∀ x, reaches value x → may_read p (readers_set (metadata x))).
Proof.
  intros Hc. destruct (get_all_readers_post _ _ _ _ _ Hc)
    as (F & [Hp Hm] & Hr & _ & _ & Hv & Hcl).
  assert (Hall : ∀ x, reaches value x → x ∈ F).
  { apply (rtc_ind_r (λ x, x ∈ F) value); [done|].
    intros y z _ Hyz Hy. specialize (Hcl y z Hy (not_elem_of_empty _) Hyz). set_solver + Hcl. }
  split.
  - rewrite Hp. split.
    + intros [_ Hx] x Hrx. specialize (Hx x (Hall x Hrx)).
      by destruct (readers_set (metadata x)).
    + intros Hx. split; [done|]. intros x HxF. by rewrite (Hx x (Hr x HxF)).
  - intros p. rewrite Hm. split.
    + intros [_ Hx] x Hrx. auto.
    + intros Hx. split; [done|]. intros x HxF. auto.
Qed.

(** *** Termination of the two traversals

    [U] is a finite set of values closed under dependencies on which
    [get_dependencies] returns.  Every non-revisiting call adds its value to
    the visited set of the calls below it, so a recursion budget above the
    number of unvisited values of [U] is never exhausted. *)

Definition closed_under_dependencies (U : gset V) : Prop :=
  ∀ x, x ∈ U → ∃ ds, get_dependencies x = Some ds ∧ ∀ d, d ∈ ds → d ∈ U.

Lemma unvisited_shrinks (U vis : gset V) value :
  value ∈ U → value ∉ vis → size (U ∖ (vis ∪ {[ value ]})) < size (U ∖ vis).
Proof.
  intros HU Hv. apply subset_size. split; [set_solver +|].
  intros Hsub. assert (value ∈ U ∖ (vis ∪ {[ value ]})) as Hc by set_solver + HU Hv Hsub.
  set_solver + Hc.
Qed.

Lemma unvisited_mono (U vis vis' : gset V) :
  vis ⊆ vis' → size (U ∖ vis') ≤ size (U ∖ vis).
Proof. intros Hsub. apply subseteq_size. set_solver + Hsub. Qed.

Lemma get_all_readers_terminates U :
  closed_under_dependencies U →
  ∀ fuel value vis, value ∈ U → size (U ∖ vis) < fuel →
    is_Some (get_all_readers fuel value vis).
Proof.
  intros HU fuel. induction fuel as [|fuel IH]; intros value vis Hv Hsz; [lia|].
  simpl. destruct (decide (value ∈ vis)) as [Hin|Hnin]; [eauto|].
  destruct (HU value Hv) as (ds & -> & Hds).
  pose proof (unvisited_shrinks U vis value Hv Hnin) as Hlt.
  assert (Hloop : ∀ ds acc visi, (∀ d, d ∈ ds → d ∈ U) →
            size (U ∖ (visi ∪ {[ value ]})) < fuel →
            is_Some (foldM (λ '(value_readers, visited_objects) dependency,
               match get_all_readers fuel dependency (visited_objects ∪ {[ value ]}) with
               | Some (new_value_readers, visited_objects) =>
                   Some (and_ value_readers new_value_readers, visited_objects)
               | None => None
               end) (acc, visi) ds)).
  { clear Hds ds. intros ds. induction ds as [|d ds IHds]; intros acc visi Hds Hsz'; simpl; [eauto|].
    destruct (IH d (visi ∪ {[ value ]})) as [[nr vis1] Hd];
      [apply Hds; by left|done|].
    rewrite Hd. apply IHds; [intros d' Hd'; apply Hds; by right|].
    destruct (get_all_readers_post _ _ _ _ _ Hd) as (F & _ & _ & Hsub & _).
    eapply Nat.le_lt_trans; [|exact Hsz']. apply unvisited_mono. set_solver + Hsub. }
  destruct (Hloop ds (readers_set (metadata value)) vis Hds) as [[r vis'] Hr]; [lia|].
  rewrite Hr. eauto.
Qed.

Lemma get_all_sources_terminates U :
  closed_under_dependencies U →
  ∀ fuel value vis, value ∈ U → size (U ∖ vis) < fuel →
    is_Some (get_all_sources fuel value vis).
Proof.
  intros HU fuel. induction fuel as [|fuel IH]; intros value vis Hv Hsz; [lia|].
  simpl. destruct (decide (value ∈ vis)) as [Hin|Hnin]; [eauto|].
  destruct (HU value Hv) as (ds & -> & Hds).
  pose proof (unvisited_shrinks U vis value Hv Hnin) as Hlt.
  assert (Hloop : ∀ ds acc visi, (∀ d, d ∈ ds → d ∈ U) →
            size (U ∖ (visi ∪ {[ value ]})) < fuel →
            is_Some (foldM (λ '(value_sources, visited_objects) dependency,
               match get_all_sources fuel dependency (visited_objects ∪ {[ value ]}) with
               | Some (new_value_sources, visited_objects) =>
                   Some (value_sources ∪ new_value_sources, visited_objects)
               | None => None
               end) (acc, visi) ds)).
  { clear Hds ds. intros ds. induction ds as [|d ds IHds]; intros acc visi Hds Hsz'; simpl; [eauto|].
    destruct (IH d (visi ∪ {[ value ]})) as [[ns vis1] Hd];
      [apply Hds; by left|done|].
    rewrite Hd. apply IHds; [intros d' Hd'; apply Hds; by right|].
    destruct (get_all_sources_post _ _ _ _ _ Hd) as (S & _ & _ & Hsub & _).
    eapply Nat.le_lt_trans; [|exact Hsz']. apply unvisited_mono. set_solver + Hsub. }
  apply Hloop; [done|lia].
Qed.

(** *** Trusted sources, in the words of the specification

    A source is trusted iff it is one of the enumerated constants, or a
    [Tool] whose [inner_sources] is non-empty and entirely trusted; an inner
    source that is a tool name is not one of the trusted constants. *)

Definition trusted_constant (e : SourceEnum) : Prop :=
  e = User ∨ e = Assistant ∨ e = CaMeL ∨ e = TrustedToolSource.

Inductive trusted_inner_source : string + SourceEnum → Prop :=
  | trusted_inner_constant e : trusted_constant e → trusted_inner_source (inr e).

Inductive trusted_source : Source → Prop :=
  | trusted_enum e : trusted_constant e → trusted_source (Enum e)
  | trusted_tool name inner :
      inner ≠ ∅ → (∀ i, i ∈ inner → trusted_inner_source i) →
      trusted_source (Tool name inner).

Lemma Enum_in_TRUSTED_SET e : Enum e ∈ _TRUSTED_SET.
Proof. unfold _TRUSTED_SET. destruct e; set_solver +. Qed.

Lemma Tool_not_in_TRUSTED_SET name inner : Tool name inner ∉ _TRUSTED_SET.
Proof. unfold _TRUSTED_SET. set_solver +. Qed.

Lemma inner_in_TRUSTED_SET_spec i :
  inner_in_TRUSTED_SET i = true ↔ trusted_inner_source i.
Proof.
  destruct i as [n|e]; simpl.
  - split; [done|]. inversion 1.
  - rewrite bool_decide_eq_true. split.
    + intros _. constructor. unfold trusted_constant. destruct e; auto.
    + intros _. apply Enum_in_TRUSTED_SET.
Qed.

Lemma _source_is_trusted_spec s : _source_is_trusted s = true ↔ trusted_source s.
Proof.
  unfold _source_is_trusted. destruct s as [e|name inner].
  - rewrite (bool_decide_eq_true_2 _ (Enum_in_TRUSTED_SET e)). split; [|done].
    intros _. constructor. unfold trusted_constant. destruct e; auto.
  - rewrite (bool_decide_eq_false_2 _ (Tool_not_in_TRUSTED_SET name inner)).
    rewrite andb_true_iff, negb_true_iff, bool_decide_eq_false, forallb_forall.
    split.
    + intros [Hne Hall]. constructor.
      * intros ->. apply Hne. apply size_empty.
      * intros i Hi. apply inner_in_TRUSTED_SET_spec, Hall.
        apply list_elem_of_In, elem_of_elements, Hi.
    + inversion 1 as [|? ? Hne Hall]; subst. split.
      * intros Hsz. apply Hne. by apply size_empty_inv, leibniz_equiv in Hsz.
      * intros i Hi. apply inner_in_TRUSTED_SET_spec, Hall.
        by apply list_elem_of_In, elem_of_elements in Hi.
Qed.

(** [is_trusted], whenever the traversal returns. *)
Lemma is_trusted_returns fuel value srcs vis :
  get_all_sources fuel value ∅ = Some (srcs, vis) →
  ∃ b, is_trusted metadata get_dependencies fuel value = Some b ∧
    (b = true ↔
       ∀ x s, reaches value x → s ∈ sources_set (metadata x) → trusted_source s).
Proof.
  intros Hc. unfold is_trusted. rewrite Hc. eexists. split; [done|].
  rewrite forallb_forall. split.
  - intros Hall x s Hx Hs. apply _source_is_trusted_spec, Hall.
    apply list_elem_of_In, elem_of_elements.
    apply (get_all_sources_reaches _ _ _ _ Hc). eauto.
  - intros Hall s Hs. apply _source_is_trusted_spec.
    apply list_elem_of_In, elem_of_elements in Hs.
    apply (get_all_sources_reaches _ _ _ _ Hc) in Hs as (x & Hx & Hs). eauto.
Qed.

(** [can_readers_read_value], whenever the traversal returns. *)
Lemma can_readers_read_value_returns fuel potential_readers value r vis :
  get_all_readers fuel value ∅ = Some (r, vis) →
  ∃ b, can_readers_read_value metadata get_dependencies fuel potential_readers value = Some b ∧
    (b = true ↔ r = Public ∨ ∃ s, r = SharedWith s ∧ potential_readers ⊆ s).
Proof.
  intros Hc. unfold can_readers_read_value. rewrite Hc. destruct r as [|s].
  - exists true. split; [done|]. split; auto.
  - eexists. split; [done|]. rewrite bool_decide_eq_true. split.
    + intros Hs. right. eauto.
    + intros [|(s' & Hs' & Hsub)]; [done|]. by inversion Hs'; subst.
Qed.

(** C3.  On a finite dependency graph on which [get_dependencies] returns,
    and with a recursion budget above its size, [can_readers_read_value(R, v)]
    returns, and it returns [True] if and only if [all_readers(v)] is
    [Public] or [R] is a subset of [all_readers(v)]; [all_readers(v)] is the
    meet of the reader sets of [v] and of all its transitive dependencies. *)
Theorem can_readers_read_value_iff U fuel (potential_readers : gset string) value :
  closed_under_dependencies U → value ∈ U → size U < fuel →
  ∃ all_readers visited b,
    get_all_readers fuel value ∅ = Some (all_readers, visited) ∧
    can_readers_read_value metadata get_dependencies fuel potential_readers value = Some b ∧
    (b = true ↔
       all_readers = Public ∨ ∃ s, all_readers = SharedWith s ∧ potential_readers ⊆ s) ∧
    (all_readers = Public ↔ ∀ x, reaches value x → readers_set (metadata x) = Public) ∧
    (∀ p, may_read p all_readers ↔
            ∀ x, reaches value x → may_read p (readers_set (metadata x))).
Proof.
  intros HU Hv Hsz.
  destruct (get_all_readers_terminates U HU fuel value ∅ Hv) as [[r vis] Hr].
  { by replace (U ∖ ∅) with U by set_solver +. }
  destruct (can_readers_read_value_returns fuel potential_readers value r vis Hr)
    as (b & Hb & Hiff).
  destruct (get_all_readers_reaches fuel value r vis Hr) as [Hp Hm].
  exists r, vis, b. repeat split; try done; try apply Hiff; try apply Hm.
  - intros ->. by apply Hp.
  - intros Hx. apply Hp in Hx. by destruct r.
Qed.

(** C4.  On a finite dependency graph on which [get_dependencies] returns,
    and with a recursion budget above its size, [is_trusted(v)] returns, and
    it returns [True] if and only if every source in the union of the source
    sets of [v] and of its transitive dependencies is trusted. *)
Theorem is_trusted_iff U fuel value :
  closed_under_dependencies U → value ∈ U → size U < fuel →
  ∃ b, is_trusted metadata get_dependencies fuel value = Some b ∧
    (b = true ↔
       ∀ x s, reaches value x → s ∈ sources_set (metadata x) → trusted_source s).
Proof.
  intros HU Hv Hsz.
  destruct (get_all_sources_terminates U HU fuel value ∅ Hv) as [[srcs vis] Hs].
  { by replace (U ∖ ∅) with U by set_solver +. }
  exact (is_trusted_returns fuel value srcs vis Hs).
Qed.

End utils_facts.


(** ** camel/security_policy.py *)

Inductive SecurityPolicyResult :=
  | Allowed
  | Denied (reason : string).

Section security_policy.

Context {V : Type} `{Countable V}.
Variable metadata : V → Capabilities.
Variable get_dependencies : V → option (list V).
(** [repr(d.raw)], used in the denial message. *)
Variable repr_raw : V → string.
(** [fnmatch.fnmatch(name, pat)] of Python's standard library. *)
Variable fnmatch : string → string → bool.

(** [class SecurityPolicy(Protocol)]: [__call__(tool_name, kwargs)]. *)
Definition SecurityPolicy : Type := string → gmap string V → SecurityPolicyResult.

(** [class SecurityPolicyEngine(Protocol)] *)
Record SecurityPolicyEngine := mkEngine {
  policies : list (string * SecurityPolicy);
  no_side_effect_tools : gset string;
}.

(** [[d.raw for d in dependencies if not is_public(d)]], as the values
    themselves *)
Fixpoint non_public_variables (fuel : nat) (dependencies : list V) : option (list V) :=
  match dependencies with
  | [] => Some []
  | d :: dependencies' =>
      match is_public metadata get_dependencies fuel d with
      | None => None
      | Some p =>
          match non_public_variables fuel dependencies' with
          | None => None
          | Some rest => Some (if p then rest else d :: rest)
          end
      end
  end.

(** [repr] of a list of raw values *)
Definition repr_raw_list (l : list V) : string :=
  String.append "[" (String.append (String.concat ", " (map repr_raw l)) "]").

(** The loop over [self.policies] and the default denial after it. *)
Fixpoint check_policy_rules (tool_name : string) (kwargs : gmap string V)
    (policies : list (string * SecurityPolicy)) : SecurityPolicyResult :=
  match policies with
  | [] => Denied "No security policy matched for tool. Defaulting to denial."
  | (policy_name, policy) :: policies' =>
      if fnmatch tool_name policy_name then policy tool_name kwargs
      else check_policy_rules tool_name kwargs policies'
  end.

Definition check_policy (fuel : nat) (self : SecurityPolicyEngine) (tool_name : string)
    (kwargs : gmap string V) (dependencies : list V) : option SecurityPolicyResult :=
  if bool_decide (tool_name ∈ no_side_effect_tools self) then Some Allowed
  else
    match non_public_variables fuel dependencies with
    | None => None
    | Some non_public =>
        if 0 <? length non_public
        then Some (Denied (String.concat ""
                             [tool_name; " is state-changing and depends on private values ";
                              repr_raw_list non_public; "."]))
        else Some (check_policy_rules tool_name kwargs (policies self))
    end.

(** [NoSecurityPolicyEngine.check_policy] *)
Definition NoSecurityPolicyEngine_check_policy (tool_name : string)
    (kwargs : gmap string V) (dependencies : list V) : SecurityPolicyResult :=
  Allowed.

Lemma non_public_variables_spec fuel dependencies publics :
  Forall2 (λ d p, is_public metadata get_dependencies fuel d = Some p) dependencies publics →
  ∃ l, non_public_variables fuel dependencies = Some l ∧
       (l = [] ↔ Forall (λ p, p = true) publics).
Proof.
  induction 1 as [|d p ds ps Hd _ (l & Hl & Hiff)]; simpl.
  - exists []. split; [done|]. split; auto.
  - rewrite Hd, Hl. destruct p.
    + exists l. split; [done|]. rewrite Hiff. split.
      * by constructor.
      * by inversion 1.
    + exists (d :: l). split; [done|]. split; [done|]. by inversion 1.
Qed.

Lemma check_policy_rules_first tool_name kwargs before pattern policy after :
  Forall (λ rule, fnmatch tool_name rule.1 = false) before →
  fnmatch tool_name pattern = true →
  check_policy_rules tool_name kwargs (before ++ (pattern, policy) :: after)
  = policy tool_name kwargs.
Proof.
  intros Hb Hm. induction Hb as [|[n q] before Hn _ IH]; simpl in *.
  - by rewrite Hm.
  - by rewrite Hn.
Qed.

Lemma check_policy_rules_none tool_name kwargs rules :
  Forall (λ rule, fnmatch tool_name rule.1 = false) rules →
  ∃ reason, check_policy_rules tool_name kwargs rules = Denied reason.
Proof.
  induction 1 as [|[n q] rules Hn _ IH]; simpl in *; [eauto|]. by rewrite Hn.
Qed.

(** C1.  [check_policy] returns [Allowed] for a tool in the no-side-effect
    set; otherwise, when [is_public] returns for every dependency, it returns
    [Denied] if one of them is not public, and else the result of the first
    policy whose pattern matches the tool name, or [Denied] when no pattern
    matches. *)
Theorem check_policy_spec fuel self tool_name kwargs dependencies :
  (tool_name ∈ no_side_effect_tools self →
     check_policy fuel self tool_name kwargs dependencies = Some Allowed) ∧
  (tool_name ∉ no_side_effect_tools self →
   ∀ publics,
     Forall2 (λ d p, is_public metadata get_dependencies fuel d = Some p) dependencies publics →
     (false ∈ publics →
        ∃ reason, check_policy fuel self tool_name kwargs dependencies = Some (Denied reason)) ∧
     (false ∉ publics →
        (∀ before pattern policy after,
           policies self = before ++ (pattern, policy) :: after →
           Forall (λ rule, fnmatch tool_name rule.1 = false) before →
           fnmatch tool_name pattern = true →
           check_policy fuel self tool_name kwargs dependencies
           = Some (policy tool_name kwargs)) ∧
        (Forall (λ rule, fnmatch tool_name rule.1 = false) (policies self) →
           ∃ reason,
             check_policy fuel self tool_name kwargs dependencies = Some (Denied reason)))).
Proof.
  unfold check_policy. split.
  - intros Hin. by rewrite bool_decide_eq_true_2.
  - intros Hnin publics Hpub. rewrite bool_decide_eq_false_2 by done.
    destruct (non_public_variables_spec _ _ _ Hpub) as (l & -> & Hl).
    split.
    + intros Hf. destruct l as [|d l].
      * exfalso. destruct Hl as [Hl _]. specialize (Hl eq_refl).
        rewrite Forall_forall in Hl. by specialize (Hl _ Hf).
      * simpl. eauto.
    + intros Hnf. assert (l = []) as ->.
      { apply Hl. apply Forall_forall. intros [] Hp; [done|]. by destruct Hnf. }
      simpl. split.
      * intros before pattern policy after -> Hb Hm.
        by rewrite check_policy_rules_first.
      * intros Hall. destruct (check_policy_rules_none tool_name kwargs _ Hall) as [r ->].
        eauto.
Qed.

End security_policy.

(** ** camel/interpreter/namespace.py

    A [Namespace] is a frozen dataclass holding a reference to a Python
    [dict]; [set_variable] mutates that dict in place, so dicts live in a
    store and are referred to by their identity. *)

Section namespace.

Context {Val : Type}.

Record Namespace := mkNamespace { variables : nat }.

(** [a | b] on dicts: a new dict, the bindings of [b] win. *)
Definition dict_or (σ : gmap nat (gmap string Val)) (a b : nat)
    : option (gmap nat (gmap string Val) * nat) :=
  match σ !! a, σ !! b with
  | Some da, Some db => let l := fresh (dom σ) in Some (<[l := db ∪ da]> σ, l)
  | _, _ => None
  end.

(** [dataclasses.replace(self, variables=self.variables | variables)] *)
Definition add_variables (σ : gmap nat (gmap string Val)) (self : Namespace)
    (variables_ : nat) : option (gmap nat (gmap string Val) * Namespace) :=
  match dict_or σ (variables self) variables_ with
  | Some (σ', l) => Some (σ', mkNamespace l)
  | None => None
  end.

(** [self.variables[name] = value] *)
Definition set_variable (σ : gmap nat (gmap string Val)) (self : Namespace)
    (name : string) (value : Val) : option (gmap nat (gmap string Val)) :=
  match σ !! variables self with
  | Some d => Some (<[variables self := <[name := value]> d]> σ)
  | None => None
  end.

(** [self.variables.get(name)] *)
Definition get (σ : gmap nat (gmap string Val)) (self : Namespace) (name : string)
    : option (option Val) :=
  match σ !! variables self with
  | Some d => Some (d !! name)
  | None => None
  end.

(** C10.  [n.add_variables(m)] returns a new namespace whose bindings are
    those of [n] updated with [m] ([m] wins on a clash), and leaves the
    bindings of [n] (and every dict of the store) unchanged; the new
    namespace holds a dict of its own, so a later [set_variable] on it does
    not reach [n]. *)
Theorem add_variables_spec σ n m dn dm :
  σ !! variables n = Some dn → σ !! m = Some dm →
  ∃ σ' n',
    add_variables σ n m = Some (σ', n') ∧
    (∀ k, get σ' n' k = Some (match dm !! k with Some v => Some v | None => dn !! k end)) ∧
    (∀ k v, dm !! k = Some v → get σ' n' k = Some (Some v)) ∧
    (∀ k, get σ' n k = get σ n k) ∧
    (∀ l, l ∈ dom σ → σ' !! l = σ !! l) ∧
    (∀ name v σ'', set_variable σ' n' name v = Some σ'' →
       ∀ k, get σ'' n k = get σ n k).
Proof.
  intros Hn Hm. unfold add_variables, dict_or. rewrite Hn, Hm.
  set (l := fresh (dom σ)).
  assert (Hl : σ !! l = None) by (apply not_elem_of_dom, is_fresh).
  assert (Hne : l ≠ variables n) by (intros ->; congruence).
  eexists _, _. split; [done|]. repeat split.
  - intros k. unfold get. simpl. rewrite lookup_insert_eq. f_equal.
    rewrite lookup_union. destruct (dm !! k), (dn !! k); done.
  - intros k v Hk. unfold get. simpl. rewrite lookup_insert_eq. f_equal.
    by apply lookup_union_Some_l.
  - intros k. unfold get. by rewrite lookup_insert_ne.
  - intros l' Hl'. rewrite lookup_insert_ne; [done|]. intros <-.
    apply elem_of_dom in Hl' as [? ?]. congruence.
  - intros name v σ'' Hset k. unfold set_variable in Hset. simpl in Hset.
    rewrite lookup_insert_eq in Hset. inversion Hset; subst. unfold get.
    by rewrite !lookup_insert_ne.
Qed.

End namespace.


(** ** camel/interpreter/value.py

    *** The store

    A [CaMeLValue] object has an identity, a label ([_metadata]), a tuple of
    dependencies and a Python payload ([_python_value]).  Value objects are
    never changed after their creation ([copy.copy] makes a new one); what
    is mutated in place is the Python [list], [set], [dict] or instance a
    value holds, which two values may share after a copy.  The store
    therefore has two parts: the value objects and the mutable Python
    objects, each referred to by its identity (its index).

    Classes and class instances ([CaMeLClass], [CaMeLClassInstance]) are not
    part of this model: their traversal goes through [attr], which creates
    values while it runs.  [CaMeLValueAsWrapper], whose traversal does not,
    is. *)

Inductive exn :=
  | FunctionCallWithSideEffectError
  | TypeError
  | ValueError
  | KeyError
  | IndexError
  | AttributeError
  | NotImplementedError
  | ZeroDivisionError
  | OverflowError
  | UndefinedClassError
  | NameError
  | OtherError (name : string).

(** A Python call returns a value, returns [NotImplemented] (the operator
    methods do, for an operand of another class), raises, or does not return
    within the recursion budget. *)
Inductive outcome (A : Type) :=
  | Returns (a : A)
  | ReturnsNotImplemented
  | Raises (e : exn)
  | NoReturn.
Arguments Returns {A} a.
Arguments ReturnsNotImplemented {A}.
Arguments Raises {A} e.
Arguments NoReturn {A}.

(** The methods of [op_protocols.py] that [value.py] implements. *)
Inductive binop_method :=
  | m_add | m_r_add | m_sub | m_r_sub | m_mult | m_r_mult
  | m_truediv | m_r_truediv | m_floor_div | m_r_floor_div
  | m_mod | m_r_mod | m_pow | m_r_pow
  | m_l_shift | m_r_shift | m_bit_or | m_bit_xor | m_bit_and.

(** [ast.operator] (binary operators) and [ast.unaryop] *)
Inductive operator :=
  | Add | Sub | Mult | Div | FloorDiv | Mod | Pow
  | LShift | RShift | BitOr | BitXor | BitAnd.

Inductive unaryop := UAdd | USub | Not | Invert.

Section value.

(** Python's [float]. *)
Context {float : Type}.

(** Raw Python values, as [raw] returns them. *)
Inductive PyVal :=
  | PyNone
  | PyBool (b : bool)
  | PyInt (z : Z)
  | PyFloat (f : float)
  | PyStr (s : string)
  | PyTuple (l : list PyVal)
  | PyList (l : list PyVal)
  | PySet (l : list PyVal)
  | PyDict (l : list (PyVal * PyVal))
  | PyFunction (name : string)
  | PyObject (class_name : string) (fields : list (string * PyVal)).

(** The payload [_python_value] of each class of value.  A [str] is a tuple
    of [_CaMeLChar] values; a tuple is immutable and is held in the value; a
    [list], [set], [dict] or wrapped instance is a mutable Python object,
    held by reference. *)
Inductive payload :=
  | VNone                                   (* CaMeLNone *)
  | VBool (b : bool)                        (* CaMeLTrue, CaMeLFalse *)
  | VInt (n : PyVal)                        (* CaMeLInt *)
  | VFloat (n : PyVal)                      (* CaMeLFloat *)
  | VChar (c : string)                      (* _CaMeLChar *)
  | VStr (chars : list nat)                 (* CaMeLStr *)
  | VTuple (els : list nat)                 (* CaMeLTuple *)
  | VList (ref : nat)                       (* CaMeLList *)
  | VSet (ref : nat)                        (* CaMeLSet *)
  | VDict (ref : nat)                       (* CaMeLDict *)
  | VFunction (name : string) (is_tool : bool)   (* CaMeLBuiltin, CaMeLFunction; AgentDojoFunction *)
  | VWrapper (ref : nat).                   (* CaMeLValueAsWrapper *)

(** What the embedding takes from the Python runtime: arithmetic and
    comparison of numbers, ordering and identity of payloads, and the
    algebra of [set] and [dict] over values (which goes through [__hash__]
    and [__eq__]). *)
Record PythonRuntime := mkRuntime {
  float_eqb : float → float → bool;             (* x == y on floats *)
  int_float_eqb : Z → float → bool;             (* x == y, an int and a float *)
  float_truth : float → bool;                   (* bool(x) *)
  py_binop : operator → PyVal → PyVal → exn + PyVal;    (* x + y, x - y, ... on numbers *)
  py_neg : PyVal → exn + PyVal;                 (* -x *)
  py_pos : PyVal → exn + PyVal;                 (* +x *)
  py_invert : PyVal → exn + PyVal;              (* ~x *)
  py_gt : PyVal → PyVal → exn + bool;           (* x > y *)
  py_lt : PyVal → PyVal → exn + bool;           (* x < y *)
  py_is : payload → payload → bool;             (* x is y, on payloads *)
  py_set_binop : operator → list nat → list nat → list nat;   (* s - t, s | t, s ^ t, s & t *)
  py_dict_or : list (nat * nat) → list (nat * nat) → list (nat * nat);   (* d | e *)
}.

Variable rt : PythonRuntime.

(** Python's [==] on raw values.  Numbers compare across [bool], [int] and
    [float]; tuples and lists element by element; sets and dicts by their
    members. *)
Definition py_num_eqb (a b : PyVal) : option bool :=
  match a, b with
  | PyBool x, PyBool y => Some (Bool.eqb x y)
  | PyBool x, PyInt y | PyInt y, PyBool x => Some (Z.eqb (Z.b2z x) y)
  | PyInt x, PyInt y => Some (Z.eqb x y)
  | PyBool x, PyFloat y | PyFloat y, PyBool x => Some (int_float_eqb rt (Z.b2z x) y)
  | PyInt x, PyFloat y | PyFloat y, PyInt x => Some (int_float_eqb rt x y)
  | PyFloat x, PyFloat y => Some (float_eqb rt x y)
  | _, _ => None
  end.

Fixpoint py_eqb (a b : PyVal) {struct a} : bool :=
  match py_num_eqb a b with
  | Some r => r
  | None =>
      match a, b with
      | PyNone, PyNone => true
      | PyStr s, PyStr t => bool_decide (s = t)
      | PyFunction f, PyFunction g => bool_decide (f = g)
      | PyTuple xs, PyTuple ys | PyList xs, PyList ys =>
          (fix all2 (xs ys : list PyVal) {struct xs} : bool :=
             match xs, ys with
             | [], [] => true
             | x :: xs', y :: ys' => py_eqb x y && all2 xs' ys'
             | _, _ => false
             end) xs ys
      | PySet xs, PySet ys =>
          (fix sub (xs : list PyVal) {struct xs} : bool :=
             match xs with
             | [] => true
             | x :: xs' => existsb (py_eqb x) ys && sub xs'
             end) xs
          && forallb (λ y,
               (fix mem (xs : list PyVal) {struct xs} : bool :=
                  match xs with
                  | [] => false
                  | x :: xs' => py_eqb x y || mem xs'
                  end) xs) ys
      | PyDict xs, PyDict ys =>
          (fix sub (xs : list (PyVal * PyVal)) {struct xs} : bool :=
             match xs with
             | [] => true
             | (k, v) :: xs' =>
                 existsb (λ '(k', v'), py_eqb k k' && py_eqb v v') ys && sub xs'
             end) xs
          && bool_decide (length xs = length ys)
      | PyObject c xs, PyObject d ys =>
          bool_decide (c = d) &&
          (fix all2 (xs ys : list (string * PyVal)) {struct xs} : bool :=
             match xs, ys with
             | [], [] => true
             | (n, x) :: xs', (m, y) :: ys' => bool_decide (n = m) && py_eqb x y && all2 xs' ys'
             | _, _ => false
             end) xs ys
      | _, _ => false
      end
  end.

(** [bool(x)] on a raw value *)
Definition py_truth (a : PyVal) : bool :=
  match a with
  | PyNone => false
  | PyBool b => b
  | PyInt z => negb (Z.eqb z 0)
  | PyFloat f => float_truth rt f
  | PyStr s => negb (bool_decide (s = ""))
  | PyTuple l | PyList l | PySet l => negb (bool_decide (length l = 0))
  | PyDict l => negb (bool_decide (length l = 0))
  | PyFunction _ | PyObject _ _ => true
  end.

Record CaMeLValue := mkValue {
  _python_value : payload;
  _metadata : Capabilities;
  _dependencies : list nat;
}.

(** The mutable Python objects values hold. *)
Inductive PyObj :=
  | OList (els : list nat)
  | OSet (els : list nat)
  | ODict (items : list (nat * nat))
  | OInstance (class_name : string) (fields : list (string * PyVal)) (writable : bool).

Record store := mkStore {
  values : list CaMeLValue;
  objects : list PyObj;
}.

(** A new value object; its identity is the next free index. *)
Definition new_value (st : store) (v : CaMeLValue) : store * nat :=
  (mkStore (values st ++ [v]) (objects st), length (values st)).

(** A new Python object. *)
Definition new_object (st : store) (o : PyObj) : store * nat :=
  (mkStore (values st) (objects st ++ [o]), length (objects st)).

Definition metadata_of (st : store) (v : nat) : Capabilities :=
  match values st !! v with
  | Some o => _metadata o
  | None => Capabilities_.default
  end.

(** The elements [self._python_value] iterates over, for a [CaMeLIterable]. *)
Definition iterable_elements (st : store) (p : payload) : option (list nat) :=
  match p with
  | VStr els | VTuple els => Some els
  | VList r => match objects st !! r with Some (OList els) => Some els | _ => None end
  | VSet r => match objects st !! r with Some (OSet els) => Some els | _ => None end
  | _ => None
  end.

(** [self._python_value.items()], for a [CaMeLMapping]. *)
Definition mapping_items (st : store) (p : payload) : option (list (nat * nat)) :=
  match p with
  | VDict r => match objects st !! r with Some (ODict items) => Some items | _ => None end
  | _ => None
  end.

(** [get_dependencies(self, visited_objects)], by the class of [self]:
    [CaMeLIterable], [CaMeLMapping], [CaMeLValueAsWrapper], and the default
    of [CaMeLValue] for every other class. *)
Fixpoint get_dependencies (fuel : nat) (st : store) (self : nat) (visited_objects : gset nat)
    : option (list nat * gset nat) :=
  match fuel with
  | 0 => None
  | S fuel' =>
      match values st !! self with
      | None => None
      | Some o =>
          match _python_value o with
          | VStr _ | VTuple _ | VList _ | VSet _ =>
              match iterable_elements st (_python_value o) with
              | None => None
              | Some els =>
                  let dependencies := _dependencies o in
                  if decide (self ∈ visited_objects) then Some (dependencies, visited_objects)
                  else
                    match
                      foldM (λ '(dependencies, visited_objects) el,
                               match get_dependencies fuel' st el (visited_objects ∪ {[ self ]}) with
                               | Some (new_dependencies, visited_objects) =>
                                   Some (dependencies ++ new_dependencies, visited_objects)
                               | None => None
                               end)
                            (dependencies, visited_objects) els
                    with
                    | Some (dependencies, visited_objects) =>
                        Some (dependencies, visited_objects ∪ {[ self ]})
                    | None => None
                    end
              end
          | VDict _ =>
              match mapping_items st (_python_value o) with
              | None => None
              | Some items =>
                  let dependencies := _dependencies o in
                  if decide (self ∈ visited_objects) then Some (dependencies, visited_objects)
                  else
                    foldM (λ '(dependencies, visited_objects) '(k, v),
                             match get_dependencies fuel' st k visited_objects with
                             | Some (k_dependencies, k_visited_objects) =>
                                 match get_dependencies fuel' st v k_visited_objects with
                                 | Some (v_dependencies, v_visited_objects) =>
                                     Some (dependencies ++ (k_dependencies ++ v_dependencies),
                                           v_visited_objects)
                                 | None => None
                                 end
                             | None => None
                             end)
                          (dependencies, visited_objects ∪ {[ self ]}) items
              end
          | VWrapper _ => Some (_dependencies o, visited_objects ∪ {[ self ]})
          | _ => Some (_dependencies o, {[ self ]})
          end
      end
  end.

(** [value.get_dependencies()[0]]: the method with its default argument, as
    [camel/capabilities/utils.py] calls it. *)
Definition dependencies_of (fuel : nat) (st : store) (v : nat) : option (list nat) :=
  match get_dependencies fuel st v ∅ with
  | Some (dependencies, _) => Some dependencies
  | None => None
  end.

(** *** Constructors and copies *)

Definition python_value_of (st : store) (v : nat) : option payload :=
  match values st !! v with
  | Some o => Some (_python_value o)
  | None => None
  end.

(** [new_with_dependencies]: a copy whose dependencies are extended. *)
Definition new_with_dependencies (st : store) (self : nat) (dependencies : list nat)
    : outcome (store * nat) :=
  match values st !! self with
  | Some o =>
      Returns (new_value st
        (mkValue (_python_value o) (_metadata o) (_dependencies o ++ dependencies)))
  | None => NoReturn
  end.

(** [new_with_metadata]: a copy with another label. *)
Definition new_with_metadata (st : store) (self : nat) (metadata : Capabilities)
    : outcome (store * nat) :=
  match values st !! self with
  | Some o => Returns (new_value st (mkValue (_python_value o) metadata (_dependencies o)))
  | None => NoReturn
  end.

(** [CaMeLStr.from_raw]: one [_CaMeLChar] per character, each with the
    metadata and the dependencies of the string. *)
Fixpoint from_raw_chars (st : store) (s : string) (metadata : Capabilities)
    (dependencies : list nat) : store * list nat :=
  match s with
  | EmptyString => (st, [])
  | String c s' =>
      let '(st1, v) := new_value st (mkValue (VChar (String c EmptyString)) metadata dependencies) in
      let '(st2, vs) := from_raw_chars st1 s' metadata dependencies in
      (st2, v :: vs)
  end.

Definition from_raw (st : store) (s : string) (metadata : Capabilities)
    (dependencies : list nat) : store * nat :=
  let '(st1, chars) := from_raw_chars st s metadata dependencies in
  new_value st1 (mkValue (VStr chars) metadata dependencies).

(** *** [raw] *)

(** The payload of a scalar value, as a raw value. *)
Definition scalar_raw (p : payload) : option PyVal :=
  match p with
  | VNone => Some PyNone
  | VBool b => Some (PyBool b)
  | VInt n | VFloat n => Some n
  | VChar c => Some (PyStr c)
  | _ => None
  end.

Fixpoint mapM_opt {A B : Type} (f : A → option B) (l : list A) : option (list B) :=
  match l with
  | [] => Some []
  | x :: l' =>
      match f x with
      | Some y => match mapM_opt f l' with Some ys => Some (y :: ys) | None => None end
      | None => None
      end
  end.

(** [set(...)] of raw values: equal members are kept once. *)
Fixpoint py_set_of (l : list PyVal) : list PyVal :=
  match l with
  | [] => []
  | x :: l' => let s := py_set_of l' in if existsb (py_eqb x) s then s else x :: s
  end.

(** [d[k] = v] on a raw dict. *)
Fixpoint py_dict_set (d : list (PyVal * PyVal)) (k v : PyVal) : list (PyVal * PyVal) :=
  match d with
  | [] => [(k, v)]
  | (k', v') :: d' => if py_eqb k' k then (k', v) :: d' else (k', v') :: py_dict_set d' k v
  end.

Fixpoint raw (fuel : nat) (st : store) (self : nat) : option PyVal :=
  match fuel with
  | 0 => None
  | S fuel' =>
      match python_value_of st self with
      | None => None
      | Some p =>
          match p with
          | VStr chars =>
              (* s = ""; for c in self._python_value: s += c._python_value *)
              match mapM_opt (λ c, match python_value_of st c with
                                   | Some (VChar s) => Some s
                                   | _ => None
                                   end) chars with
              | Some l => Some (PyStr (String.concat "" l))
              | None => None
              end
          | VTuple els =>
              match mapM_opt (raw fuel' st) els with
              | Some l => Some (PyTuple l)
              | None => None
              end
          | VList _ =>
              match iterable_elements st p with
              | Some els =>
                  match mapM_opt (raw fuel' st) els with
                  | Some l => Some (PyList l)
                  | None => None
                  end
              | None => None
              end
          | VSet _ =>
              match iterable_elements st p with
              | Some els =>
                  match mapM_opt (raw fuel' st) els with
                  | Some l => Some (PySet (py_set_of l))
                  | None => None
                  end
              | None => None
              end
          | VDict _ =>
              match mapping_items st p with
              | Some items =>
                  match mapM_opt (λ '(k, v),
                                    match raw fuel' st k, raw fuel' st v with
                                    | Some rk, Some rv => Some (rk, rv)
                                    | _, _ => None
                                    end) items with
                  | Some l => Some (PyDict (fold_left (λ d '(k, v), py_dict_set d k v) l []))
                  | None => None
                  end
              | None => None
              end
          | VFunction name _ => Some (PyFunction name)
          | VWrapper r =>
              match objects st !! r with
              | Some (OInstance c fields _) => Some (PyObject c fields)
              | _ => None
              end
          | _ => scalar_raw p
          end
      end
  end.

(** *** Truth, equality, identity, order *)

(** [bool(self._python_value)] *)
Definition payload_truth (st : store) (p : payload) : option bool :=
  match p with
  | VStr els | VTuple els => Some (negb (bool_decide (length els = 0)))
  | VList _ | VSet _ =>
      match iterable_elements st p with
      | Some els => Some (negb (bool_decide (length els = 0)))
      | None => None
      end
  | VDict _ =>
      match mapping_items st p with
      | Some items => Some (negb (bool_decide (length items = 0)))
      | None => None
      end
  | VFunction _ _ | VWrapper _ => Some true
  | _ => match scalar_raw p with Some x => Some (py_truth x) | None => None end
  end.

Definition CaMeLBool (b : bool) (metadata : Capabilities) (dependencies : list nat) : CaMeLValue :=
  mkValue (VBool b) metadata dependencies.

Definition truth (st : store) (self : nat) : outcome (store * nat) :=
  match python_value_of st self with
  | Some p =>
      match payload_truth st p with
      | Some b => Returns (new_value st (CaMeLBool b Capabilities_.camel [self]))
      | None => NoReturn
      end
  | None => NoReturn
  end.

Definition not_ (st : store) (self : nat) : outcome (store * nat) :=
  match python_value_of st self with
  | Some p =>
      match payload_truth st p with
      | Some b => Returns (new_value st (CaMeLBool (negb b) Capabilities_.camel [self]))
      | None => NoReturn
      end
  | None => NoReturn
  end.

(** [isinstance(value, type(self))] for the container classes. *)
Definition same_class (p q : payload) : bool :=
  match p, q with
  | VStr _, VStr _ | VTuple _, VTuple _ | VList _, VList _
  | VSet _, VSet _ | VDict _, VDict _ => true
  | _, _ => false
  end.

(** The loop of [CaMeLIterable.eq] over [zip(self, value)]: [False] at the
    first pair that differs, [True] when the shorter side is exhausted. *)
Fixpoint zip_eq (eqf : nat → nat → option bool) (xs ys : list nat) : option bool :=
  match xs, ys with
  | x :: xs', y :: ys' =>
      match eqf x y with
      | Some true => zip_eq eqf xs' ys'
      | Some false => Some false
      | None => None
      end
  | _, _ => Some true
  end.

(** The loop of [CaMeLMapping.eq] over [zip(self.items(), value.items())]. *)
Fixpoint zip_items_eq (eqf : nat → nat → option bool) (xs ys : list (nat * nat))
    : option bool :=
  match xs, ys with
  | (k, v) :: xs', (k', v') :: ys' =>
      match eqf k k' with
      | Some true =>
          match eqf v v' with
          | Some true => zip_items_eq eqf xs' ys'
          | Some false => Some false
          | None => None
          end
      | Some false => Some false
      | None => None
      end
  | _, _ => Some true
  end.

(** [self.eq(value).raw]: [CaMeLIterable.eq], [CaMeLMapping.eq], and
    [self._python_value == value._python_value] of [CaMeLValue.eq] for the
    other classes.  The Bool objects of the inner calls are dropped by the
    code as soon as they are read; the store does not keep them. *)
Fixpoint eq_raw (fuel : nat) (st : store) (self value : nat) : option bool :=
  match fuel with
  | 0 => None
  | S fuel' =>
      match python_value_of st self, python_value_of st value with
      | Some p, Some q =>
          match p with
          | VStr _ | VTuple _ | VList _ | VSet _ =>
              if negb (same_class p q) then Some false
              else
                match iterable_elements st p, iterable_elements st q with
                | Some xs, Some ys => zip_eq (eq_raw fuel' st) xs ys
                | _, _ => None
                end
          | VDict _ =>
              if negb (same_class p q) then Some false
              else
                match mapping_items st p, mapping_items st q with
                | Some xs, Some ys => zip_items_eq (eq_raw fuel' st) xs ys
                | _, _ => None
                end
          | VFunction f _ =>
              Some (match q with VFunction g _ => bool_decide (f = g) | _ => false end)
          | VWrapper _ =>
              match q with
              | VWrapper _ =>
                  match raw fuel st self, raw fuel st value with
                  | Some x, Some y => Some (py_eqb x y)
                  | _, _ => None
                  end
              | _ => Some false
              end
          | _ =>
              match scalar_raw p, scalar_raw q with
              | Some x, Some y => Some (py_eqb x y)
              | _, _ => Some false
              end
          end
      | _, _ => None
      end
  end.

Definition eq (fuel : nat) (st : store) (self value : nat) : outcome (store * nat) :=
  match eq_raw fuel st self value with
  | Some b => Returns (new_value st (CaMeLBool b Capabilities_.camel [self; value]))
  | None => NoReturn
  end.

(** [is_] and [is_not]: identity of the two payloads. *)
Definition is_ (st : store) (self other : nat) : outcome (store * nat) :=
  match python_value_of st self, python_value_of st other with
  | Some p, Some q =>
      Returns (new_value st (CaMeLBool (py_is rt p q) Capabilities_.camel [self; other]))
  | _, _ => NoReturn
  end.

Definition is_not (st : store) (self other : nat) : outcome (store * nat) :=
  match python_value_of st self, python_value_of st other with
  | Some p, Some q =>
      Returns (new_value st (CaMeLBool (negb (py_is rt p q)) Capabilities_.camel [self; other]))
  | _, _ => NoReturn
  end.

Definition CaMeLInt (n : PyVal) (metadata : Capabilities) (dependencies : list nat)
    : CaMeLValue :=
  mkValue (VInt n) metadata dependencies.

Definition CaMeLFloat (n : PyVal) (metadata : Capabilities) (dependencies : list nat)
    : CaMeLValue :=
  mkValue (VFloat n) metadata dependencies.

Definition CaMeLNone (metadata : Capabilities) (dependencies : list nat) : CaMeLValue :=
  mkValue VNone metadata dependencies.

(** [TotallyOrdered.cmp] *)
Definition cmp (fuel : nat) (st : store) (self y : nat) : outcome (store * nat) :=
  match raw fuel st self, raw fuel st y with
  | Some a, Some b =>
      match py_gt rt a b with
      | inl e => Raises e
      | inr true => Returns (new_value st (CaMeLInt (PyInt 1) Capabilities_.camel [self; y]))
      | inr false =>
          match py_lt rt a b with
          | inl e => Raises e
          | inr true =>
              Returns (new_value st (CaMeLInt (PyInt (-1)) Capabilities_.camel [self; y]))
          | inr false =>
              Returns (new_value st (CaMeLInt (PyInt 0) Capabilities_.camel [self; y]))
          end
      end
  | _, _ => NoReturn
  end.

(** *** Unary and binary operators *)

(** The Python operator a method applies, and whether it applies it with
    the operands swapped ([r_sub] computes [other - self]). *)
Definition method_operator (m : binop_method) : operator * bool :=
  match m with
  | m_add => (Add, false) | m_r_add => (Add, false)
  | m_sub => (Sub, false) | m_r_sub => (Sub, true)
  | m_mult => (Mult, false) | m_r_mult => (Mult, true)
  | m_truediv => (Div, false) | m_r_truediv => (Div, true)
  | m_floor_div => (FloorDiv, false) | m_r_floor_div => (FloorDiv, true)
  | m_mod => (Mod, false) | m_r_mod => (Mod, true)
  | m_pow => (Pow, false) | m_r_pow => (Pow, true)
  | m_l_shift => (LShift, false) | m_r_shift => (RShift, false)
  | m_bit_or => (BitOr, false) | m_bit_xor => (BitXor, false) | m_bit_and => (BitAnd, false)
  end.

Definition apply_operator (m : binop_method) (a b : PyVal) : exn + PyVal :=
  let '(op, swapped) := method_operator m in
  if swapped then py_binop rt op b a else py_binop rt op a b.

(** [t * n] for a tuple or list [t]: [n] copies, none for [n <= 0]. *)
Definition sequence_repeat (els : list nat) (n : Z) : list nat :=
  mjoin (replicate (Z.to_nat n) els).

(** [CaMeLFloat]'s methods: the other operand is a [CaMeLFloat] or a [CaMeLInt]. *)
Definition float_binop (st : store) (m : binop_method) (self other : nat) (a : PyVal)
    (q : payload) : outcome (store * nat) :=
  match m with
  | m_l_shift | m_r_shift | m_bit_or | m_bit_xor | m_bit_and => Raises AttributeError
  | _ =>
      match q with
      | VFloat b | VInt b =>
          match apply_operator m a b with
          | inr r => Returns (new_value st (CaMeLFloat r Capabilities_.camel [self; other]))
          | inl e => Raises e
          end
      | _ => ReturnsNotImplemented
      end
  end.

(** [CaMeLInt]'s methods: the other operand is a [CaMeLInt]; [truediv]
    makes a [CaMeLFloat]. *)
Definition int_binop (st : store) (m : binop_method) (self other : nat) (a : PyVal)
    (q : payload) : outcome (store * nat) :=
  match m with
  | m_add | m_sub | m_mult | m_floor_div | m_mod | m_pow
  | m_bit_or | m_bit_and | m_bit_xor | m_r_shift | m_l_shift =>
      match q with
      | VInt b =>
          match apply_operator m a b with
          | inr r => Returns (new_value st (CaMeLInt r Capabilities_.camel [self; other]))
          | inl e => Raises e
          end
      | _ => ReturnsNotImplemented
      end
  | m_truediv =>
      match q with
      | VInt b =>
          match apply_operator m a b with
          | inr r => Returns (new_value st (CaMeLFloat r Capabilities_.camel [self; other]))
          | inl e => Raises e
          end
      | _ => ReturnsNotImplemented
      end
  | _ => Raises AttributeError
  end.

(** [CaMeLStr] and [CaMeLTuple]: [add] with a value of the same class,
    [mult] and [r_mult] with a [CaMeLInt]. *)
Definition tuple_binop (st : store) (m : binop_method) (self other : nat)
    (wrap : list nat → payload) (unwrap : payload → option (list nat))
    (xs : list nat) (q : payload) : outcome (store * nat) :=
  match m with
  | m_add =>
      match unwrap q with
      | Some ys =>
          Returns (new_value st (mkValue (wrap (xs ++ ys)) Capabilities_.camel [self; other]))
      | None => ReturnsNotImplemented
      end
  | m_mult | m_r_mult =>
      match q with
      | VInt (PyInt n) =>
          Returns (new_value st
            (mkValue (wrap (sequence_repeat xs n)) Capabilities_.camel [self; other]))
      | VInt _ => Raises TypeError
      | _ => ReturnsNotImplemented
      end
  | _ => Raises AttributeError
  end.

(** [CaMeLList]: as for tuples, the result holding a new Python list. *)
Definition list_binop (st : store) (m : binop_method) (self other : nat)
    (xs : list nat) (q : payload) : outcome (store * nat) :=
  match m with
  | m_add =>
      match q with
      | VList _ =>
          match iterable_elements st q with
          | Some ys =>
              let '(st1, r) := new_object st (OList (xs ++ ys)) in
              Returns (new_value st1 (mkValue (VList r) Capabilities_.camel [self; other]))
          | None => NoReturn
          end
      | _ => ReturnsNotImplemented
      end
  | m_mult | m_r_mult =>
      match q with
      | VInt (PyInt n) =>
          let '(st1, r) := new_object st (OList (sequence_repeat xs n)) in
          Returns (new_value st1 (mkValue (VList r) Capabilities_.camel [self; other]))
      | VInt _ => Raises TypeError
      | _ => ReturnsNotImplemented
      end
  | _ => Raises AttributeError
  end.

(** [CaMeLSet]: [sub], [bit_or], [bit_xor], [bit_and] with a [CaMeLSet];
    [bit_and] raises for another class where the others return
    [NotImplemented]. *)
Definition set_binop (st : store) (m : binop_method) (self other : nat)
    (xs : list nat) (q : payload) : outcome (store * nat) :=
  match m with
  | m_sub | m_bit_or | m_bit_xor | m_bit_and =>
      match q with
      | VSet _ =>
          match iterable_elements st q with
          | Some ys =>
              let '(st1, r) := new_object st (OSet (py_set_binop rt (fst (method_operator m)) xs ys)) in
              Returns (new_value st1 (mkValue (VSet r) Capabilities_.camel [self; other]))
          | None => NoReturn
          end
      | _ => match m with m_bit_and => Raises TypeError | _ => ReturnsNotImplemented end
      end
  | _ => Raises AttributeError
  end.

(** [CaMeLDict.bit_or] *)
Definition dict_binop (st : store) (m : binop_method) (self other : nat)
    (xs : list (nat * nat)) (q : payload) : outcome (store * nat) :=
  match m with
  | m_bit_or =>
      match q with
      | VDict _ =>
          match mapping_items st q with
          | Some ys =>
              let '(st1, r) := new_object st (ODict (py_dict_or rt xs ys)) in
              Returns (new_value st1 (mkValue (VDict r) Capabilities_.camel [self; other]))
          | None => NoReturn
          end
      | _ => ReturnsNotImplemented
      end
  | _ => Raises AttributeError
  end.

(** [self.<method>(other)], by the class of [self]; a class without the
    method raises [AttributeError]. *)
Definition binop (st : store) (m : binop_method) (self other : nat) : outcome (store * nat) :=
  match python_value_of st self, python_value_of st other with
  | Some p, Some q =>
      match p with
      | VFloat a => float_binop st m self other a q
      | VInt a => int_binop st m self other a q
      | VStr xs =>
          tuple_binop st m self other VStr
            (λ q, match q with VStr ys => Some ys | _ => None end) xs q
      | VTuple xs =>
          tuple_binop st m self other VTuple
            (λ q, match q with VTuple ys => Some ys | _ => None end) xs q
      | VList _ =>
          match iterable_elements st p with
          | Some xs => list_binop st m self other xs q
          | None => NoReturn
          end
      | VSet _ =>
          match iterable_elements st p with
          | Some xs => set_binop st m self other xs q
          | None => NoReturn
          end
      | VDict _ =>
          match mapping_items st p with
          | Some xs => dict_binop st m self other xs q
          | None => NoReturn
          end
      | _ => Raises AttributeError
      end
  | _, _ => NoReturn
  end.

(** [unary]: [CaMeLInt.unary] keeps the metadata of its operand and
    prepends the operand to the operand's dependencies; [CaMeLFloat.unary]
    labels the result [camel()] with the operand as only dependency. *)
Definition unary (st : store) (op : unaryop) (self : nat) : outcome (store * nat) :=
  match values st !! self with
  | Some o =>
      match _python_value o with
      | VInt n =>
          match op with
          | Not => Raises NotImplementedError
          | _ =>
              match (match op with
                     | USub => py_neg rt n
                     | UAdd => py_pos rt n
                     | _ => py_invert rt n
                     end) with
              | inr r =>
                  Returns (new_value st (CaMeLInt r (_metadata o) (self :: _dependencies o)))
              | inl e => Raises e
              end
          end
      | VFloat n =>
          match op with
          | Invert => Raises TypeError
          | Not => Raises NotImplementedError
          | _ =>
              match (match op with USub => py_neg rt n | _ => py_pos rt n end) with
              | inr r => Returns (new_value st (CaMeLFloat r Capabilities_.camel [self]))
              | inl e => Raises e
              end
          end
      | _ => Raises AttributeError
      end
  | None => NoReturn
  end.

(** *** Containment, subscript, length *)

(** [needle in hay] on Python strings *)
Fixpoint is_substring (needle hay : string) : bool :=
  String.prefix needle hay ||
  match hay with
  | EmptyString => false
  | String _ hay' => is_substring needle hay'
  end.

(** [next((el for el in els if el.eq(other)), None)] *)
Fixpoint first_equal (fuel : nat) (st : store) (els : list nat) (other : nat)
    : option (option nat) :=
  match els with
  | [] => Some None
  | el :: els' =>
      match eq_raw fuel st el other with
      | Some true => Some (Some el)
      | Some false => first_equal fuel st els' other
      | None => None
      end
  end.

(** [tuple(dep for k in keys for dep in k.get_dependencies()[0])] *)
Fixpoint keys_dependencies (fuel : nat) (st : store) (keys : list nat) : option (list nat) :=
  match keys with
  | [] => Some []
  | k :: keys' =>
      match dependencies_of fuel st k, keys_dependencies fuel st keys' with
      | Some d, Some ds => Some (d ++ ds)
      | _, _ => None
      end
  end.

(** [contains]: [CaMeLStr.contains] for a string, [CaMeLIterable.contains]
    for a tuple, list or set, [CaMeLMapping.contains] for a dict. *)
Definition contains (fuel : nat) (st : store) (self other : nat) : outcome (store * nat) :=
  match python_value_of st self, python_value_of st other with
  | Some p, Some q =>
      match p with
      | VStr _ =>
          match q with
          | VStr _ | VChar _ =>
              match raw fuel st other, raw fuel st self with
              | Some (PyStr t), Some (PyStr s) =>
                  if is_substring t s then
                    match dependencies_of fuel st other with
                    | Some ds =>
                        Returns (new_value st (CaMeLBool true Capabilities_.camel (self :: ds)))
                    | None => NoReturn
                    end
                  else
                    match dependencies_of fuel st self with
                    | Some ds =>
                        Returns (new_value st (CaMeLBool false Capabilities_.camel (ds ++ [other])))
                    | None => NoReturn
                    end
              | _, _ => NoReturn
              end
          | _ => Raises TypeError
          end
      | VTuple _ | VList _ | VSet _ =>
          match iterable_elements st p with
          | Some els =>
              match first_equal fuel st els other with
              | Some (Some inner_element) =>
                  Returns (new_value st
                    (CaMeLBool true Capabilities_.camel [self; other; inner_element]))
              | Some None =>
                  (* Add metadata from elements as well as False reveal something
                     about all of them (i.e., that none of them is `other`). *)
                  match dependencies_of fuel st self with
                  | Some ds =>
                      Returns (new_value st (CaMeLBool false Capabilities_.camel (ds ++ [other])))
                  | None => NoReturn
                  end
              | None => NoReturn
              end
          | None => NoReturn
          end
      | VDict _ =>
          match mapping_items st p with
          | Some items =>
              match first_equal fuel st (map fst items) other with
              | Some (Some inner_element) =>
                  Returns (new_value st
                    (CaMeLBool true Capabilities_.camel [self; other; inner_element]))
              | Some None =>
                  match keys_dependencies fuel st (map fst items) with
                  | Some ds =>
                      Returns (new_value st
                        (CaMeLBool false Capabilities_.camel ([self; other] ++ ds)))
                  | None => NoReturn
                  end
              | None => NoReturn
              end
          | None => NoReturn
          end
      | _ => Raises AttributeError
      end
  | _, _ => NoReturn
  end.

(** The position [seq[i]] reads or writes in a sequence of [len] elements:
    Python counts a negative index from the end. *)
Definition py_index (len : nat) (i : Z) : option nat :=
  if (0 <=? i)%Z && (i <? Z.of_nat len)%Z then Some (Z.to_nat i)
  else if (i <? 0)%Z && (- Z.of_nat len <=? i)%Z then Some (Z.to_nat (Z.of_nat len + i))
  else None.

(** The index a value stands for in [self._python_value[index.raw]]. *)
Definition index_raw (q : payload) : option Z :=
  match q with
  | VInt (PyInt z) => Some z
  | VBool b => Some (Z.b2z b)
  | _ => None
  end.

(** The elements of a [CaMeLSequence]: a string, a tuple or a list. *)
Definition sequence_elements (st : store) (p : payload) : option (list nat) :=
  match p with
  | VStr _ | VTuple _ | VList _ => iterable_elements st p
  | _ => None
  end.

(** [CaMeLSequence.index] *)
Definition index (st : store) (self index_ : nat) : outcome (store * nat) :=
  match python_value_of st self, python_value_of st index_ with
  | Some p, Some q =>
      match p with
      | VStr _ | VTuple _ | VList _ =>
          match sequence_elements st p with
          | Some els =>
              match index_raw q with
              | Some z =>
                  match py_index (length els) z with
                  | Some i =>
                      match els !! i with
                      | Some el => new_with_dependencies st el [self; index_]
                      | None => Raises IndexError
                      end
                  | None => Raises IndexError
                  end
              | None => Raises TypeError
              end
          | None => NoReturn
          end
      | _ => Raises AttributeError
      end
  | _, _ => NoReturn
  end.

(** [CaMeLSequence.len] *)
Definition len (st : store) (self : nat) : outcome (store * nat) :=
  match python_value_of st self with
  | Some p =>
      match p with
      | VStr _ | VTuple _ | VList _ =>
          match sequence_elements st p with
          | Some els =>
              Returns (new_value st
                (CaMeLInt (PyInt (Z.of_nat (length els))) Capabilities_.camel (self :: els)))
          | None => NoReturn
          end
      | _ => Raises AttributeError
      end
  | None => NoReturn
  end.

(** *** Mutation: [set_index], [set_field] *)

(** [CaMeLMutableSequence.set_index]: the Python list is changed in place;
    every value holding it sees the change. *)
Definition set_index (st : store) (self index_ value : nat) : outcome (store * nat) :=
  match python_value_of st self, python_value_of st index_ with
  | Some p, Some q =>
      match p with
      | VList r =>
          match iterable_elements st p with
          | Some els =>
              match index_raw q with
              | Some z =>
                  match py_index (length els) z with
                  | Some i =>
                      Returns (new_value
                        (mkStore (values st) (<[r := OList (<[i := value]> els)]> (objects st)))
                        (CaMeLNone Capabilities_.camel [self; index_]))
                  | None => Raises IndexError
                  end
              | None => Raises TypeError
              end
          | None => NoReturn
          end
      | _ => Raises AttributeError
      end
  | _, _ => NoReturn
  end.

(** [setattr(obj, name, value)] on the fields of an instance *)
Fixpoint py_setattr (fields : list (string * PyVal)) (name : string) (value : PyVal)
    : list (string * PyVal) :=
  match fields with
  | [] => [(name, value)]
  | (n, v) :: fields' =>
      if bool_decide (n = name) then (n, value) :: fields'
      else (n, v) :: py_setattr fields' name value
  end.

(** [CaMeLValueAsWrapper.set_field].  A wrapper is never frozen (its
    [freeze] does not set [_frozen]); [setattr] raises [AttributeError] on an
    instance whose class does not allow writing attributes. *)
Definition set_field (fuel : nat) (st : store) (self : nat) (name : string) (value : nat)
    : outcome (store * nat) :=
  match python_value_of st self with
  | Some (VWrapper r) =>
      match objects st !! r, raw fuel st value with
      | Some (OInstance c fields writable), Some v =>
          if writable then
            Returns (new_value
              (mkStore (values st)
                 (<[r := OInstance c (py_setattr fields name v) writable]> (objects st)))
              (CaMeLNone Capabilities_.default []))
          else Raises AttributeError
      | _, _ => NoReturn
      end
  | Some _ => Raises AttributeError
  | None => NoReturn
  end.

(** *** Calls *)

(** What running a Python callable on raw arguments does: it raises, or it
    returns an output and leaves the raw arguments it was handed (which it
    may have mutated) and the store (which it can reach through a wrapped
    instance) as given here. *)
Inductive call_effect :=
  | CallReturns (output raw_args raw_kwargs : PyVal) (st : store)
  | CallRaises (e : exn).

(** [runtime.run_function(env, name, args_by_keyword, raise_on_error=True)] *)
Inductive tool_effect :=
  | ToolReturns (res : PyVal) (args_by_keyword : gmap string PyVal) (st : store)
  | ToolRaises (e : exn).

(** The Python callable a [CaMeLBuiltin] or [CaMeLFunction] of a given name
    wraps ([self._python_value]). *)
Variable python_call : string → PyVal → PyVal → store → call_effect.
(** The method [wrap_output] of the callable ([value_from_raw] with the
    label of the tool for [CaMeLCallable]; [AgentDojoFunction] overrides it). *)
Variable wrap_output : store → nat → PyVal → nat → nat → outcome (store * nat).
(** The parameter names of a tool, from its schema. *)
Variable tool_parameters : string → list string.
(** The tool runtime. *)
Variable run_function : string → gmap string PyVal → store → tool_effect.

(** A Python dict built by assignments in order: a later key wins. *)
Definition dict_of (l : list (string * PyVal)) : gmap string PyVal :=
  fold_left (λ m '(k, v), <[k := v]> m) l ∅.

(** [{k.raw: v for k, v in kwargs._python_value.items()}], with [v.raw]
    for [v] *)
Definition raw_keywords (fuel : nat) (st : store) (kwargs : nat) : option (list (string * PyVal)) :=
  match python_value_of st kwargs with
  | Some q =>
      match mapping_items st q with
      | Some items =>
          mapM_opt (λ '(k, v),
            match raw fuel st k, raw fuel st v with
            | Some (PyStr s), Some rv => Some (s, rv)
            | _, _ => None
            end) items
      | None => None
      end
  | None => None
  end.

Definition raw_positional (fuel : nat) (st : store) (args : nat) : option (list PyVal) :=
  match python_value_of st args with
  | Some (VTuple els) => mapM_opt (raw fuel st) els
  | _ => None
  end.

(** [_make_args_by_keyword] of [CaMeLBuiltin] and [CaMeLFunction]:
    positional arguments are keyed by their position. *)
Definition _make_args_by_keyword (fuel : nat) (st : store) (args kwargs : nat)
    : option (gmap string PyVal) :=
  match raw_positional fuel st args, raw_keywords fuel st kwargs with
  | Some pos, Some kw => Some (dict_of (imap (λ i v, (pretty i, v)) pos ++ kw))
  | _, _ => None
  end.

(** [_make_args_by_keyword] of [AgentDojoFunction]: positional arguments
    are zipped with the parameter names of the tool. *)
Definition AgentDojoFunction_make_args_by_keyword (fuel : nat) (st : store) (name : string)
    (args kwargs : nat) : option (gmap string PyVal) :=
  match raw_positional fuel st args, raw_keywords fuel st kwargs with
  | Some pos, Some kw => Some (dict_of (zip (tool_parameters name) pos ++ kw))
  | _, _ => None
  end.

(** The end of [CaMeLCallable.call]: wrap the output, name the arguments. *)
Definition wrap_and_name (fuel : nat) (st : store) (self : nat) (output : PyVal)
    (args kwargs : nat) : outcome (store * nat * gmap string PyVal) :=
  match wrap_output st self output args kwargs with
  | Returns (st', wrapped_output) =>
      match _make_args_by_keyword fuel st' args kwargs with
      | Some args_by_keyword => Returns (st', wrapped_output, args_by_keyword)
      | None => NoReturn
      end
  | ReturnsNotImplemented => ReturnsNotImplemented
  | Raises e => Raises e
  | NoReturn => NoReturn
  end.

(** [CaMeLCallable.call], which [CaMeLBuiltin] and [CaMeLFunction] inherit. *)
Definition CaMeLCallable_call (fuel : nat) (st : store) (self : nat) (name : string)
    (args kwargs : nat) : outcome (store * nat * gmap string PyVal) :=
  match raw fuel st args, raw fuel st kwargs with
  | Some raw_args, Some raw_kwargs =>
      match python_call name raw_args raw_kwargs st with
      | CallRaises e => Raises e
      | CallReturns output raw_args raw_kwargs st =>
          match raw fuel st args, raw fuel st kwargs with
          | Some args_raw, Some kwargs_raw =>
              if negb (py_eqb args_raw raw_args) || negb (py_eqb kwargs_raw raw_kwargs)
              then Raises FunctionCallWithSideEffectError
              else wrap_and_name fuel st self output args kwargs
          | _, _ => NoReturn
          end
      end
  | _, _ => NoReturn
  end.

(** [AgentDojoFunction.call], which overrides [CaMeLCallable.call]. *)
Definition AgentDojoFunction_call (fuel : nat) (st : store) (self : nat) (name : string)
    (args kwargs : nat) : outcome (store * nat * gmap string PyVal) :=
  match AgentDojoFunction_make_args_by_keyword fuel st name args kwargs with
  | Some args_by_keyword =>
      match run_function name args_by_keyword st with
      | ToolRaises e => Raises e
      | ToolReturns res args_by_keyword st =>
          match wrap_output st self res args kwargs with
          | Returns (st', wrapped_output) => Returns (st', wrapped_output, args_by_keyword)
          | ReturnsNotImplemented => ReturnsNotImplemented
          | Raises e => Raises e
          | NoReturn => NoReturn
          end
      end
  | None => NoReturn
  end.

(** [self.call(args, kwargs, namespace)] on a callable value, by its class. *)
Definition call (fuel : nat) (st : store) (self args kwargs : nat)
    : outcome (store * nat * gmap string PyVal) :=
  match python_value_of st self with
  | Some (VFunction name false) => CaMeLCallable_call fuel st self name args kwargs
  | Some (VFunction name true) => AgentDojoFunction_call fuel st self name args kwargs
  | Some _ => Raises AttributeError
  | None => NoReturn
  end.

(** *** The dependency relation, and what an operation leaves behind *)

(** [d] is one of the dependencies of the value [v]. *)
Definition dependency (st : store) (v d : nat) : Prop :=
  ∃ o, values st !! v = Some o ∧ d ∈ _dependencies o.

(** The dependency set of [v]: everything it depends on, directly or
    through another value. *)
Definition depends_on_transitively (st : store) : nat → nat → Prop := tc (dependency st).

(** [st'] is [st] with one more value object, [o], whose identity is [v']. *)
Definition allocates (st st' : store) (v' : nat) (o : CaMeLValue) : Prop :=
  values st' = values st ++ [o] ∧ v' = length (values st).

Lemma new_value_allocates st o : allocates st (new_value st o).1 (new_value st o).2 o.
Proof. by split. Qed.

Lemma allocates_lookup_new st st' v' o : allocates st st' v' o → values st' !! v' = Some o.
Proof. intros [-> ->]. by rewrite lookup_app_r, Nat.sub_diag. Qed.

Lemma allocates_lookup_old st st' v' o i x :
  allocates st st' v' o → values st !! i = Some x → values st' !! i = Some x.
Proof. intros [-> _] Hi. by apply lookup_app_l_Some. Qed.

Lemma allocates_dependency st st' v' o v d :
  allocates st st' v' o → dependency st v d → dependency st' v d.
Proof. intros Ha (x & Hx & Hd). exists x. split; [|done]. eapply allocates_lookup_old; eauto. Qed.

Lemma allocates_depends st st' v' o v x :
  allocates st st' v' o → depends_on_transitively st v x → depends_on_transitively st' v x.
Proof.
  intros Ha Hd. induction Hd as [v x Hvx|v y x Hvy _ IH].
  - apply tc_once. eapply allocates_dependency; eauto.
  - eapply tc_l; [|exact IH]. eapply allocates_dependency; eauto.
Qed.

(** The new value depends on [v] itself: it depends on all [v] depends on. *)
Lemma allocates_member st st' v' o v x :
  allocates st st' v' o → v ∈ _dependencies o →
  depends_on_transitively st v x → depends_on_transitively st' v' x.
Proof.
  intros Ha Hv Hd. eapply tc_l.
  - exists o. split; [by eapply allocates_lookup_new|done].
  - eapply allocates_depends; eauto.
Qed.

(** The new value has every dependency of [v]: it depends on all [v]
    depends on. *)
Lemma allocates_superset st st' v' o v ov x :
  allocates st st' v' o → values st !! v = Some ov →
  (∀ d, d ∈ _dependencies ov → d ∈ _dependencies o) →
  depends_on_transitively st v x → depends_on_transitively st' v' x.
Proof.
  intros Ha Hov Hsub Hd.
  assert (Hfirst : ∀ y, dependency st v y → dependency st' v' y).
  { intros y (o' & Ho' & Hy). rewrite Hov in Ho'. inversion Ho'; subst o'.
    exists o. split; [by eapply allocates_lookup_new|auto]. }
  inversion Hd as [? ? Hvy|? z ? Hvz Hzx]; subst.
  - by apply tc_once, Hfirst.
  - eapply tc_l; [by apply Hfirst|]. eapply allocates_depends; eauto.
Qed.

Lemma metadata_of_allocated st st' v' o :
  allocates st st' v' o → metadata_of st' v' = _metadata o.
Proof. intros Ha. unfold metadata_of. by rewrite (allocates_lookup_new _ _ _ _ Ha). Qed.

(** A new Python object does not touch the values. *)
Lemma new_object_values st ob : values (new_object st ob).1 = values st.
Proof. done. Qed.

(** *** What each operator allocates *)

Lemma float_binop_allocates st m self other a q st' v' :
  float_binop st m self other a q = Returns (st', v') →
  ∃ r, allocates st st' v' (CaMeLFloat r Capabilities_.camel [self; other]).
Proof.
  unfold float_binop. intros Hr.
  destruct m; try done; destruct q; try done;
    destruct (apply_operator _ a _) as [e|r]; try done;
    inversion Hr; subst; eexists; apply new_value_allocates.
Qed.

Lemma int_binop_allocates st m self other a q st' v' :
  int_binop st m self other a q = Returns (st', v') →
  ∃ p, allocates st st' v' (mkValue p Capabilities_.camel [self; other]).
Proof.
  unfold int_binop. intros Hr.
  destruct m; try done; destruct q; try done;
    destruct (apply_operator _ a _) as [e|r]; try done;
    inversion Hr; subst; eexists; apply new_value_allocates.
Qed.

Lemma tuple_binop_allocates st m self other wrap unwrap xs q st' v' :
  tuple_binop st m self other wrap unwrap xs q = Returns (st', v') →
  ∃ p, allocates st st' v' (mkValue p Capabilities_.camel [self; other]).
Proof.
  unfold tuple_binop. intros Hr. destruct m; try done.
  - destruct (unwrap q); [|done]. inversion Hr; subst. eexists. apply new_value_allocates.
  - destruct q as [| | [] | | | | | | | | |]; try done.
    inversion Hr; subst. eexists. apply new_value_allocates.
  - destruct q as [| | [] | | | | | | | | |]; try done.
    inversion Hr; subst. eexists. apply new_value_allocates.
Qed.

Lemma list_binop_allocates st m self other xs q st' v' :
  list_binop st m self other xs q = Returns (st', v') →
  ∃ p, allocates st st' v' (mkValue p Capabilities_.camel [self; other]).
Proof.
  unfold list_binop. intros Hr. destruct m; try done.
  - destruct q; try done. destruct (iterable_elements st _); [|done].
    inversion Hr; subst. eexists. split; reflexivity.
  - destruct q as [| | [] | | | | | | | | |]; try done.
    inversion Hr; subst. eexists. split; reflexivity.
  - destruct q as [| | [] | | | | | | | | |]; try done.
    inversion Hr; subst. eexists. split; reflexivity.
Qed.

Lemma set_binop_allocates st m self other xs q st' v' :
  set_binop st m self other xs q = Returns (st', v') →
  ∃ p, allocates st st' v' (mkValue p Capabilities_.camel [self; other]).
Proof.
  unfold set_binop. intros Hr.
  destruct m; try done; destruct q; try done;
    destruct (iterable_elements st _); try done;
    inversion Hr; subst; eexists; split; reflexivity.
Qed.

Lemma dict_binop_allocates st m self other xs q st' v' :
  dict_binop st m self other xs q = Returns (st', v') →
  ∃ p, allocates st st' v' (mkValue p Capabilities_.camel [self; other]).
Proof.
  unfold dict_binop. intros Hr.
  destruct m; try done; destruct q; try done;
    destruct (mapping_items st _); try done;
    inversion Hr; subst; eexists; split; reflexivity.
Qed.

(** Every binary operator method that returns a value returns a new value
    labelled [camel()] whose dependencies are the two operands. *)
Lemma binop_allocates st m self other st' v' :
  binop st m self other = Returns (st', v') →
  ∃ p, allocates st st' v' (mkValue p Capabilities_.camel [self; other]).
Proof.
  unfold binop. intros Hr.
  destruct (python_value_of st self) as [p|]; [|done].
  destruct (python_value_of st other) as [q|]; [|done].
  destruct p; try done.
  - by apply int_binop_allocates in Hr.
  - apply float_binop_allocates in Hr as [r Hr]. by eexists.
  - by apply tuple_binop_allocates in Hr.
  - by apply tuple_binop_allocates in Hr.
  - destruct (iterable_elements st _); [|done]. by apply list_binop_allocates in Hr.
  - destruct (iterable_elements st _); [|done]. by apply set_binop_allocates in Hr.
  - destruct (mapping_items st _); [|done]. by apply dict_binop_allocates in Hr.
Qed.

(** [unary] on a [CaMeLInt] keeps the operand's metadata; on a [CaMeLFloat]
    it labels the result [camel()]. *)
Lemma unary_allocates st op self st' v' :
  unary st op self = Returns (st', v') →
  ∃ o p, values st !! self = Some o ∧
    ((∃ n, _python_value o = VInt n ∧
        allocates st st' v' (mkValue p (_metadata o) (self :: _dependencies o))) ∨
     (∃ n, _python_value o = VFloat n ∧
        allocates st st' v' (mkValue p Capabilities_.camel [self]))).
Proof.
  unfold unary. intros Hr. destruct (values st !! self) as [o|] eqn:Ho; [|done].
  destruct (_python_value o) as [| |n|n| | | | | | | |] eqn:Hp; try done.
  - destruct op; try done.
    + destruct (py_pos rt n); [done|]. inversion Hr; subst.
      eexists _, _. split; [done|]. left. eexists. split; [done|apply new_value_allocates].
    + destruct (py_neg rt n); [done|]. inversion Hr; subst.
      eexists _, _. split; [done|]. left. eexists. split; [done|apply new_value_allocates].
    + destruct (py_invert rt n); [done|]. inversion Hr; subst.
      eexists _, _. split; [done|]. left. eexists. split; [done|apply new_value_allocates].
  - destruct op; try done.
    + destruct (py_pos rt n); [done|]. inversion Hr; subst.
      eexists _, _. split; [done|]. right. eexists. split; [done|apply new_value_allocates].
    + destruct (py_neg rt n); [done|]. inversion Hr; subst.
      eexists _, _. split; [done|]. right. eexists. split; [done|apply new_value_allocates].
Qed.

(** *** [get_dependencies] starts with the value's own dependencies *)

Lemma foldM_invariant {A B : Type} (f : B → A → option B) (R : B → B → Prop) :
  (∀ b, R b b) →
  (∀ b0 b x b', R b0 b → f b x = Some b' → R b0 b') →
  ∀ l b b', foldM f b l = Some b' → R b b'.
Proof.
  intros Hrefl Hstep l. induction l as [|x l IH]; intros b b' Hf; simpl in Hf.
  - inversion Hf; subst. apply Hrefl.
  - destruct (f b x) as [b1|] eqn:Hb; [|done].
    assert (Hgen : ∀ l b0 b1 b', R b0 b1 → foldM f b1 l = Some b' → R b0 b').
    { clear -Hstep. intros l. induction l as [|y l IHl]; intros b0 b1 b' HR Hf; simpl in Hf.
      - by inversion Hf; subst.
      - destruct (f b1 y) as [b2|] eqn:Hb2; [|done]. eapply IHl; [|exact Hf]. eauto. }
    eapply Hgen; [|exact Hf]. eapply Hstep; [apply Hrefl|exact Hb].
Qed.

Lemma get_dependencies_own fuel st self vis ds vis' :
  get_dependencies fuel st self vis = Some (ds, vis') →
  ∃ o, values st !! self = Some o ∧ ∀ d, d ∈ _dependencies o → d ∈ ds.
Proof.
  destruct fuel as [|fuel]; [done|]. simpl. intros Hg.
  destruct (values st !! self) as [o|]; [|done]. exists o. split; [done|].
  assert (Hiter : ∀ els,
    (if decide (self ∈ vis) then Some (_dependencies o, vis)
     else match foldM (λ '(dependencies, visited_objects) el,
                   match get_dependencies fuel st el (visited_objects ∪ {[ self ]}) with
                   | Some (new_dependencies, visited_objects) =>
                       Some (dependencies ++ new_dependencies, visited_objects)
                   | None => None
                   end) (_dependencies o, vis) els with
          | Some (dependencies, visited_objects) =>
              Some (dependencies, visited_objects ∪ {[ self ]})
          | None => None
          end) = Some (ds, vis') → ∀ d, d ∈ _dependencies o → d ∈ ds).
  { intros els Hi. destruct (decide (self ∈ vis)); [by inversion Hi; subst|].
    match type of Hi with match ?f with _ => _ end = _ => destruct f as [[ds0 vis0]|] eqn:Hf end;
      [|done].
    inversion Hi; subst.
    refine (foldM_invariant _ (λ b b', ∀ d, d ∈ b.1 → d ∈ b'.1) _ _ _ _ _ Hf); [done|].
    intros b0 [dd vv] x b' HR Hs d Hd.
    destruct (get_dependencies fuel st x (vv ∪ {[ self ]})) as [[nd nv]|]; [|done].
    inversion Hs; subst. simpl. apply elem_of_app. left. by apply HR. }
  destruct (_python_value o) eqn:Hp; try (by inversion Hg; subst);
    try (destruct (iterable_elements st _) as [els0|]; [|done]; by eapply Hiter).
  destruct (mapping_items st _) as [items|]; [|done].
  destruct (decide (self ∈ vis)); [by inversion Hg; subst|].
  refine (foldM_invariant _ (λ b b', ∀ d, d ∈ b.1 → d ∈ b'.1) _ _ _ _ _ Hg); [done|].
  intros b0 [dd vv] [k v] b' HR Hs d Hd.
  destruct (get_dependencies fuel st k vv) as [[kd kv]|]; [|done].
  destruct (get_dependencies fuel st v kv) as [[vd vv']|]; [|done].
  inversion Hs; subst. simpl. apply elem_of_app. left. by apply HR.
Qed.

Lemma dependencies_of_own fuel st self ds :
  dependencies_of fuel st self = Some ds →
  ∃ o, values st !! self = Some o ∧ ∀ d, d ∈ _dependencies o → d ∈ ds.
Proof.
  unfold dependencies_of. destruct (get_dependencies fuel st self ∅) as [[ds' vis]|] eqn:Hg; [|done].
  intros Hd. inversion Hd; subst. by eapply get_dependencies_own.
Qed.

(** *** The first element equal to [other] *)

Lemma first_equal_found fuel st els other el :
  first_equal fuel st els other = Some (Some el) ↔
  ∃ pre post, els = pre ++ el :: post ∧
    Forall (λ x, eq_raw fuel st x other = Some false) pre ∧
    eq_raw fuel st el other = Some true.
Proof.
  induction els as [|x els IH]; simpl.
  - split; [done|]. intros (pre & post & Hl & _). by destruct pre.
  - destruct (eq_raw fuel st x other) as [[]|] eqn:Hx.
    + split.
      * intros Hs. inversion Hs; subst. exists [], els. by repeat split.
      * intros (pre & post & Hl & Hpre & Hel). destruct pre as [|y pre]; simpl in Hl.
        -- by inversion Hl; subst.
        -- inversion Hl; subst. inversion Hpre; subst. congruence.
    + rewrite IH. split.
      * intros (pre & post & -> & Hpre & Hel). exists (x :: pre), post.
        repeat split; [by constructor|done].
      * intros (pre & post & Hl & Hpre & Hel). destruct pre as [|y pre]; simpl in Hl.
        -- inversion Hl; subst. congruence.
        -- inversion Hl; subst. inversion Hpre; subst. eauto.
    + split; [done|]. intros (pre & post & Hl & Hpre & Hel).
      destruct pre as [|y pre]; simpl in Hl; inversion Hl; subst; [congruence|].
      inversion Hpre; subst. congruence.
Qed.

Lemma first_equal_none fuel st els other :
  first_equal fuel st els other = Some None ↔
  Forall (λ x, eq_raw fuel st x other = Some false) els.
Proof.
  induction els as [|x els IH]; simpl.
  - split; [by constructor|done].
  - destruct (eq_raw fuel st x other) as [[]|] eqn:Hx.
    + split; [done|]. inversion 1; subst. congruence.
    + rewrite IH. split; [by constructor|by inversion 1].
    + split; [done|]. inversion 1; subst. congruence.
Qed.

(** *** One step of [get_dependencies] *)

(** The classes that inherit [CaMeLValue.get_dependencies]. *)
Definition has_default_get_dependencies (p : payload) : bool :=
  match p with
  | VNone | VBool _ | VInt _ | VFloat _ | VChar _ | VFunction _ _ => true
  | _ => false
  end.

Definition is_iterable (p : payload) : bool :=
  match p with VStr _ | VTuple _ | VList _ | VSet _ => true | _ => false end.

(** [CaMeLValue.get_dependencies] returns the visited set [{id(self)}],
    whatever visited set it was given. *)
Lemma get_dependencies_default fuel st self vis o :
  values st !! self = Some o → has_default_get_dependencies (_python_value o) = true →
  get_dependencies (S fuel) st self vis = Some (_dependencies o, {[ self ]}).
Proof. intros Ho Hp. simpl. rewrite Ho. by destruct (_python_value o). Qed.

Lemma get_dependencies_iterable fuel st self vis o els :
  values st !! self = Some o → is_iterable (_python_value o) = true →
  iterable_elements st (_python_value o) = Some els → self ∉ vis →
  get_dependencies (S fuel) st self vis =
    match
      foldM (λ '(dependencies, visited_objects) el,
               match get_dependencies fuel st el (visited_objects ∪ {[ self ]}) with
               | Some (new_dependencies, visited_objects) =>
                   Some (dependencies ++ new_dependencies, visited_objects)
               | None => None
               end)
            (_dependencies o, vis) els
    with
    | Some (dependencies, visited_objects) => Some (dependencies, visited_objects ∪ {[ self ]})
    | None => None
    end.
Proof.
  intros Ho Hp Hels Hv. simpl. rewrite Ho.
  destruct (_python_value o); try done; rewrite Hels; by destruct (decide (self ∈ vis)).
Qed.

(** A revisited container returns at once. *)
Lemma get_dependencies_revisit fuel st self vis o els :
  values st !! self = Some o → is_iterable (_python_value o) = true →
  iterable_elements st (_python_value o) = Some els → self ∈ vis →
  get_dependencies (S fuel) st self vis = Some (_dependencies o, vis).
Proof.
  intros Ho Hp Hels Hv. simpl. rewrite Ho.
  destruct (_python_value o); try done; rewrite Hels; by destruct (decide (self ∈ vis)).
Qed.

(** *** Operations on values *)

(** The methods of a value that return a value. *)
Inductive operation :=
  | op_unary (op : unaryop)
  | op_binop (m : binop_method) (other : nat)
  | op_eq (value : nat)
  | op_is (other : nat)
  | op_is_not (other : nat)
  | op_truth
  | op_not
  | op_cmp (y : nat)
  | op_contains (other : nat)
  | op_index (index_ : nat)
  | op_len
  | op_new_with_dependencies (dependencies : list nat)
  | op_new_with_metadata (metadata : Capabilities)
  | op_set_index (index_ value : nat)
  | op_set_field (name : string) (value : nat).

Definition apply_operation (fuel : nat) (st : store) (op : operation) (self : nat)
    : outcome (store * nat) :=
  match op with
  | op_unary o => unary st o self
  | op_binop m other => binop st m self other
  | op_eq value => eq fuel st self value
  | op_is other => is_ st self other
  | op_is_not other => is_not st self other
  | op_truth => truth st self
  | op_not => not_ st self
  | op_cmp y => cmp fuel st self y
  | op_contains other => contains fuel st self other
  | op_index i => index st self i
  | op_len => len st self
  | op_new_with_dependencies ds => new_with_dependencies st self ds
  | op_new_with_metadata m => new_with_metadata st self m
  | op_set_index i v => set_index st self i v
  | op_set_field name v => set_field fuel st self name v
  end.

(** The values an operation is applied to. *)
Definition operands (op : operation) (self : nat) : list nat :=
  match op with
  | op_binop _ other | op_eq other | op_is other | op_is_not other
  | op_cmp other | op_contains other | op_index other => [self; other]
  | op_new_with_dependencies ds => self :: ds
  | op_set_index i v => [self; i; v]
  | op_set_field _ v => [self; v]
  | _ => [self]
  end.

(** The two mutators return a [None] that says the assignment was done;
    every other operation derives its result from its operands. *)
Definition is_mutator (op : operation) : bool :=
  match op with
  | op_set_index _ _ | op_set_field _ _ => true
  | _ => false
  end.

(** The new value [o] carries [v]: [v] is one of its dependencies, or all
    dependencies of [v] are. *)
Definition carries (st : store) (o : CaMeLValue) (v : nat) : Prop :=
  v ∈ _dependencies o ∨
  ∃ ov, values st !! v = Some ov ∧ ∀ d, d ∈ _dependencies ov → d ∈ _dependencies o.

Lemma carries_depends st st' v' o v x :
  allocates st st' v' o → carries st o v →
  depends_on_transitively st v x → depends_on_transitively st' v' x.
Proof.
  intros Ha [Hm|(ov & Hov & Hsub)] Hd.
  - eapply allocates_member; eauto.
  - eapply allocates_superset; eauto.
Qed.

Lemma contains_allocates fuel st self other st' v' :
  contains fuel st self other = Returns (st', v') →
  ∃ b deps, allocates st st' v' (CaMeLBool b Capabilities_.camel deps) ∧
    carries st (CaMeLBool b Capabilities_.camel deps) self ∧
    carries st (CaMeLBool b Capabilities_.camel deps) other.
Proof.
  unfold contains, carries. intros Hr.
  destruct (python_value_of st self) as [p|]; [|done].
  destruct (python_value_of st other) as [q|]; [|done].
  assert (Hiter : ∀ els,
    match first_equal fuel st els other with
    | Some (Some inner_element) =>
        Returns (new_value st (CaMeLBool true Capabilities_.camel [self; other; inner_element]))
    | Some None =>
        match dependencies_of fuel st self with
        | Some ds => Returns (new_value st (CaMeLBool false Capabilities_.camel (ds ++ [other])))
        | None => NoReturn
        end
    | None => NoReturn
    end = Returns (st', v') →
    ∃ b deps, allocates st st' v' (CaMeLBool b Capabilities_.camel deps) ∧
      (self ∈ deps ∨ ∃ ov, values st !! self = Some ov ∧ ∀ d, d ∈ _dependencies ov → d ∈ deps) ∧
      (other ∈ deps ∨ ∃ ov, values st !! other = Some ov ∧ ∀ d, d ∈ _dependencies ov → d ∈ deps)).
  { intros els Hi. destruct (first_equal fuel st els other) as [[el|]|]; [| |done].
    - inversion Hi; subst. eexists _, _. split; [apply new_value_allocates|].
      split; left; set_solver +.
    - destruct (dependencies_of fuel st self) as [ds|] eqn:Hds; [|done].
      inversion Hi; subst. eexists _, _. split; [apply new_value_allocates|]. split.
      + right. destruct (dependencies_of_own _ _ _ _ Hds) as (o & Ho & Hsub).
        exists o. split; [done|]. intros d Hd. apply elem_of_app. left. auto.
      + left. set_solver +. }
  destruct p; try done.
  - (* CaMeLStr.contains *)
    assert (Hstr :
      match raw fuel st other, raw fuel st self with
      | Some (PyStr t), Some (PyStr s) =>
          if is_substring t s then
            match dependencies_of fuel st other with
            | Some ds => Returns (new_value st (CaMeLBool true Capabilities_.camel (self :: ds)))
            | None => NoReturn
            end
          else
            match dependencies_of fuel st self with
            | Some ds => Returns (new_value st (CaMeLBool false Capabilities_.camel (ds ++ [other])))
            | None => NoReturn
            end
      | _, _ => NoReturn
      end = Returns (st', v')) by (destruct q; done).
    clear Hr. destruct (raw fuel st other) as [[]|]; try done.
    destruct (raw fuel st self) as [[]|]; try done.
    destruct (is_substring _ _).
    + destruct (dependencies_of fuel st other) as [ds|] eqn:Hds; [|done].
      inversion Hstr; subst. eexists _, _. split; [apply new_value_allocates|]. split.
      * left. set_solver +.
      * right. destruct (dependencies_of_own _ _ _ _ Hds) as (o & Ho & Hsub).
        exists o. split; [done|]. intros d Hd. apply elem_of_cons. right. auto.
    + destruct (dependencies_of fuel st self) as [ds|] eqn:Hds; [|done].
      inversion Hstr; subst. eexists _, _. split; [apply new_value_allocates|]. split.
      * right. destruct (dependencies_of_own _ _ _ _ Hds) as (o & Ho & Hsub).
        exists o. split; [done|]. intros d Hd. apply elem_of_app. left. auto.
      * left. set_solver +.
  - destruct (iterable_elements st _) as [els0|]; [|done]. by eapply Hiter.
  - destruct (iterable_elements st _) as [els0|]; [|done]. by eapply Hiter.
  - destruct (iterable_elements st _) as [els0|]; [|done]. by eapply Hiter.
  - destruct (mapping_items st _) as [items|]; [|done].
    destruct (first_equal fuel st (map fst items) other) as [[el|]|]; [| |done].
    + inversion Hr; subst. eexists _, _. split; [apply new_value_allocates|].
      split; left; set_solver +.
    + destruct (keys_dependencies fuel st (map fst items)) as [ds|]; [|done].
      inversion Hr; subst. eexists _, _. split; [apply new_value_allocates|].
      split; left; set_solver +.
Qed.

(** Every operation that is not a mutator returns a new value that carries
    each of its operands. *)
Lemma operation_allocates fuel st op self st' v' :
  is_mutator op = false →
  apply_operation fuel st op self = Returns (st', v') →
  ∃ o, allocates st st' v' o ∧ ∀ v, v ∈ operands op self → carries st o v.
Proof.
  intros Hm Hr. destruct op; simpl in *; try done.
  - (* unary *)
    apply unary_allocates in Hr as (o & p & Ho & [(n & Hn & Ha)|(n & Hn & Ha)]);
      eexists; (split; [exact Ha|]); intros v Hv; left; set_solver + Hv.
  - (* binop *)
    apply binop_allocates in Hr as (p & Ha). eexists. split; [exact Ha|].
    intros v Hv. by left.
  - (* eq *)
    unfold eq in Hr. destruct (eq_raw fuel st self value); [|done]. inversion Hr; subst.
    eexists. split; [apply new_value_allocates|]. intros v Hv. by left.
  - (* is_ *)
    unfold is_ in Hr. destruct (python_value_of st self), (python_value_of st other); try done.
    inversion Hr; subst. eexists. split; [apply new_value_allocates|]. intros v Hv. by left.
  - (* is_not *)
    unfold is_not in Hr. destruct (python_value_of st self), (python_value_of st other); try done.
    inversion Hr; subst. eexists. split; [apply new_value_allocates|]. intros v Hv. by left.
  - (* truth *)
    unfold truth in Hr. destruct (python_value_of st self) as [p|]; [|done].
    destruct (payload_truth st p); [|done]. inversion Hr; subst.
    eexists. split; [apply new_value_allocates|]. intros v Hv. by left.
  - (* not_ *)
    unfold not_ in Hr. destruct (python_value_of st self) as [p|]; [|done].
    destruct (payload_truth st p); [|done]. inversion Hr; subst.
    eexists. split; [apply new_value_allocates|]. intros v Hv. by left.
  - (* cmp *)
    unfold cmp in Hr. destruct (raw fuel st self), (raw fuel st y); try done.
    destruct (py_gt rt _ _) as [|[]]; try done.
    + inversion Hr; subst. eexists. split; [apply new_value_allocates|]. intros v Hv. by left.
    + destruct (py_lt rt _ _) as [|[]]; try done;
        inversion Hr; subst; eexists; (split; [apply new_value_allocates|]);
        intros v Hv; by left.
  - (* contains *)
    apply contains_allocates in Hr as (b & deps & Ha & Hs & Ho).
    eexists. split; [exact Ha|]. intros v Hv.
    apply elem_of_cons in Hv as [->|Hv]; [done|].
    apply list_elem_of_singleton in Hv as ->. done.
  - (* index *)
    unfold index in Hr.
    destruct (python_value_of st self) as [p|]; [|done].
    destruct (python_value_of st index_) as [q|]; [|done].
    assert (Hix :
      match sequence_elements st p with
      | Some els =>
          match index_raw q with
          | Some z =>
              match py_index (length els) z with
              | Some i =>
                  match els !! i with
                  | Some el => new_with_dependencies st el [self; index_]
                  | None => Raises IndexError
                  end
              | None => Raises IndexError
              end
          | None => Raises TypeError
          end
      | None => NoReturn
      end = Returns (st', v')) by (destruct p; done).
    clear Hr. destruct (sequence_elements st p) as [els|]; [|done].
    destruct (index_raw q) as [z|]; [|done].
    destruct (py_index _ z) as [i|]; [|done].
    destruct (els !! i) as [el|]; [|done].
    unfold new_with_dependencies in Hix. destruct (values st !! el) as [oe|]; [|done].
    inversion Hix; subst. eexists. split; [apply new_value_allocates|].
    intros v Hv. left. simpl. apply elem_of_app. by right.
  - (* len *)
    unfold len in Hr. destruct (python_value_of st self) as [p|]; [|done].
    assert (Hl :
      match sequence_elements st p with
      | Some els =>
          Returns (new_value st
            (CaMeLInt (PyInt (Z.of_nat (length els))) Capabilities_.camel (self :: els)))
      | None => NoReturn
      end = Returns (st', v')) by (destruct p; done).
    clear Hr. destruct (sequence_elements st p) as [els|]; [|done].
    inversion Hl; subst. eexists. split; [apply new_value_allocates|].
    intros v Hv. left. apply list_elem_of_singleton in Hv as ->. by left.
  - (* new_with_dependencies *)
    unfold new_with_dependencies in Hr. destruct (values st !! self) as [o|] eqn:Ho; [|done].
    inversion Hr; subst. eexists. split; [apply new_value_allocates|].
    intros v Hv. apply elem_of_cons in Hv as [->|Hv].
    + right. exists o. split; [done|]. intros d Hd. simpl. apply elem_of_app. by left.
    + left. simpl. apply elem_of_app. by right.
  - (* new_with_metadata *)
    unfold new_with_metadata in Hr. destruct (values st !! self) as [o|] eqn:Ho; [|done].
    inversion Hr; subst. eexists. split; [apply new_value_allocates|].
    intros v Hv. apply list_elem_of_singleton in Hv as ->.
    right. exists o. split; [done|]. by intros d Hd.
Qed.

(** C5, as amended.  For every operation of [value.py] modelled here other
    than the two mutators (unary and binary operators, [eq], [is_],
    [is_not], [truth], [not_], [cmp], [contains], [index], [len],
    [new_with_dependencies], [new_with_metadata]) that returns a value [v'],
    and every operand [v] of it: [v'] is a new value that has [v] among its
    dependencies or has every dependency of [v], so the dependency set of
    [v'] (all it depends on, directly or through another value) includes the
    dependency set of [v]. *)
Theorem operation_dependencies_monotone fuel st op self st' v' v :
  is_mutator op = false →
  apply_operation fuel st op self = Returns (st', v') →
  v ∈ operands op self →
  (∃ o, allocates st st' v' o ∧ carries st o v) ∧
  (∀ x, depends_on_transitively st v x → depends_on_transitively st' v' x).
Proof.
  intros Hm Hr Hv. destruct (operation_allocates _ _ _ _ _ _ Hm Hr) as (o & Ha & Hc).
  split; [eauto|]. intros x Hx. eapply carries_depends; eauto.
Qed.

(** C6, as amended.  Every binary operator method, on every class of value,
    and [unary] on a [CaMeLFloat] return a value whose metadata is
    [Capabilities.camel()], whatever the metadata of the operands; [unary]
    on a [CaMeLInt] returns a value with the metadata of its operand. *)
Theorem operator_result_metadata st self :
  (∀ m other st' v', binop st m self other = Returns (st', v') →
     metadata_of st' v' = Capabilities_.camel) ∧
  (∀ op st' v', unary st op self = Returns (st', v') →
     ∃ o, values st !! self = Some o ∧
       ((∃ n, _python_value o = VFloat n) ∧ metadata_of st' v' = Capabilities_.camel ∨
        (∃ n, _python_value o = VInt n) ∧ metadata_of st' v' = metadata_of st self)).
Proof.
  split.
  - intros m other st' v' Hr. apply binop_allocates in Hr as (p & Ha).
    by rewrite (metadata_of_allocated _ _ _ _ Ha).
  - intros op st' v' Hr.
    apply unary_allocates in Hr as (o & p & Ho & [(n & Hn & Ha)|(n & Hn & Ha)]);
      exists o; (split; [done|]); rewrite (metadata_of_allocated _ _ _ _ Ha); simpl.
    + right. split; [eauto|]. unfold metadata_of. by rewrite Ho.
    + left. split; [eauto|done].
Qed.

(** *** Containment *)

Definition is_iterable_container (p : payload) : bool :=
  match p with VTuple _ | VList _ | VSet _ => true | _ => false end.

Definition is_str_or_char (p : payload) : bool :=
  match p with VStr _ | VChar _ => true | _ => false end.

(** C7, as amended.  For [x in c]:
    - [c] a tuple, list or set: if some element of [c] equals [x], the
      result is [True], labelled [camel()], with dependencies
      [(c, x, matched_element)], the first such element; if no element equals
      [x] (and [get_dependencies] returns on [c]), the result is [False],
      labelled [camel()], with [x] among its dependencies;
    - [c] a dict: the same over its keys;
    - [c] a string and [x] a string or a character: the result is [True] if
      and only if the text of [x] is a substring of the text of [c]; a [True]
      result has [c] among its dependencies, a [False] result has [x]. *)
Theorem contains_spec fuel st self other :
  (∀ p els,
     python_value_of st self = Some p → is_iterable_container p = true →
     iterable_elements st p = Some els → is_Some (python_value_of st other) →
     (∀ pre el post,
        els = pre ++ el :: post →
        Forall (λ x, eq_raw fuel st x other = Some false) pre →
        eq_raw fuel st el other = Some true →
        contains fuel st self other
        = Returns (new_value st (CaMeLBool true Capabilities_.camel [self; other; el]))) ∧
     (Forall (λ x, eq_raw fuel st x other = Some false) els →
      is_Some (dependencies_of fuel st self) →
      ∃ deps,
        contains fuel st self other
        = Returns (new_value st (CaMeLBool false Capabilities_.camel deps)) ∧
        other ∈ deps)) ∧
  (∀ r items,
     python_value_of st self = Some (VDict r) →
     mapping_items st (VDict r) = Some items → is_Some (python_value_of st other) →
     (∀ pre k post,
        map fst items = pre ++ k :: post →
        Forall (λ x, eq_raw fuel st x other = Some false) pre →
        eq_raw fuel st k other = Some true →
        contains fuel st self other
        = Returns (new_value st (CaMeLBool true Capabilities_.camel [self; other; k]))) ∧
     (Forall (λ x, eq_raw fuel st x other = Some false) (map fst items) →
      is_Some (keys_dependencies fuel st (map fst items)) →
      ∃ deps,
        contains fuel st self other
        = Returns (new_value st (CaMeLBool false Capabilities_.camel deps)) ∧
        other ∈ deps)) ∧
  (∀ chars q s t,
     python_value_of st self = Some (VStr chars) →
     python_value_of st other = Some q → is_str_or_char q = true →
     raw fuel st self = Some (PyStr s) → raw fuel st other = Some (PyStr t) →
     (is_substring t s = true → is_Some (dependencies_of fuel st other) →
      ∃ deps,
        contains fuel st self other
        = Returns (new_value st (CaMeLBool true Capabilities_.camel deps)) ∧
        self ∈ deps) ∧
     (is_substring t s = false → is_Some (dependencies_of fuel st self) →
      ∃ deps,
        contains fuel st self other
        = Returns (new_value st (CaMeLBool false Capabilities_.camel deps)) ∧
        other ∈ deps)).
Proof.
  split; [|split].
  - intros p els Hp Hc Hels [q Hq]. unfold contains. rewrite Hp, Hq. split.
    + intros pre el post Hl Hpre Hel.
      assert (first_equal fuel st els other = Some (Some el)) as Hf
        by (apply first_equal_found; eauto).
      destruct p; try done; rewrite Hels, Hf; done.
    + intros Hall [ds Hds]. apply first_equal_none in Hall.
      exists (ds ++ [other]). split; [|set_solver +].
      destruct p; try done; rewrite Hels, Hall, Hds; done.
  - intros r items Hp Hitems [q Hq]. unfold contains. rewrite Hp, Hq, Hitems. split.
    + intros pre k post Hl Hpre Hk.
      assert (first_equal fuel st (map fst items) other = Some (Some k)) as Hf
        by (apply first_equal_found; eauto).
      by rewrite Hf.
    + intros Hall [ds Hds]. apply first_equal_none in Hall. rewrite Hall, Hds.
      eexists. split; [done|]. set_solver +.
  - intros chars q s t Hp Hq Hsc Hs Ht. unfold contains. rewrite Hp, Hq.
    split.
    + intros Hsub [ds Hds]. exists (self :: ds). split; [|set_solver +].
      destruct q; try done; rewrite Ht, Hs, Hsub, Hds; done.
    + intros Hsub [ds Hds]. exists (ds ++ [other]). split; [|set_solver +].
      destruct q; try done; rewrite Ht, Hs, Hsub, Hds; done.
Qed.

(** *** The side-effect guard of [CaMeLCallable.call] *)

Lemma py_eqb_tuple l b :
  py_eqb (PyTuple l) b = true →
  ∃ l', b = PyTuple l' ∧ Forall2 (λ x y, py_eqb x y = true) l l'.
Proof.
  destruct b as [| | | | |l'| | | | |]; try done. simpl. intros He. exists l'. split; [done|].
  revert l' He. induction l as [|x l IH]; intros [|y l'] He; try discriminate He.
  - constructor.
  - apply andb_true_iff in He as [Hxy He]. constructor; [done|]. by apply IH.
Qed.

Lemma py_eqb_dict l b :
  py_eqb (PyDict l) b = true →
  ∃ l', b = PyDict l' ∧ length l = length l' ∧
    Forall (λ '(k, v), ∃ k' v', (k', v') ∈ l' ∧ py_eqb k k' = true ∧ py_eqb v v' = true) l.
Proof.
  destruct b as [| | | | | | | |l'| |]; try done. simpl. intros He. exists l'. split; [done|].
  apply andb_true_iff in He as [He Hlen]. apply bool_decide_eq_true in Hlen. split; [done|].
  clear Hlen. induction l as [|[k v] l IH]; [constructor|].
  apply andb_true_iff in He as [Hkv He]. constructor; [|by apply IH].
  apply existsb_exists in Hkv as ([k' v'] & Hin & Hkv).
  apply andb_true_iff in Hkv as [Hk Hv]. exists k', v'.
  split; [by apply list_elem_of_In|done].
Qed.

(** C2, as amended.  For a call through [CaMeLCallable.call] (a
    [CaMeLBuiltin] or a [CaMeLFunction]): the raw positional and keyword
    arguments are taken before the Python callable runs; if the callable
    raises, the call raises the same; if it returns, the call raises
    [FunctionCallWithSideEffectError] when the raw arguments read again
    after the call differ from the ones handed to the callable, and
    otherwise ends as wrapping the output and naming the arguments end.  In
    that case every raw positional argument equals the one handed to the
    callable, and every raw keyword argument is among those handed to it. *)
Theorem call_guards_side_effects fuel st self name args kwargs raw_args raw_kwargs :
  python_value_of st self = Some (VFunction name false) →
  raw fuel st args = Some raw_args →
  raw fuel st kwargs = Some raw_kwargs →
  match python_call name raw_args raw_kwargs st with
  | CallRaises e => call fuel st self args kwargs = Raises e
  | CallReturns output raw_args' raw_kwargs' st1 =>
      ∀ args_raw kwargs_raw,
        raw fuel st1 args = Some args_raw → raw fuel st1 kwargs = Some kwargs_raw →
        (py_eqb args_raw raw_args' && py_eqb kwargs_raw raw_kwargs' = false →
           call fuel st self args kwargs = Raises FunctionCallWithSideEffectError) ∧
        (py_eqb args_raw raw_args' && py_eqb kwargs_raw raw_kwargs' = true →
           call fuel st self args kwargs = wrap_and_name fuel st1 self output args kwargs ∧
           (∀ l, args_raw = PyTuple l →
              ∃ l', raw_args' = PyTuple l' ∧ Forall2 (λ x y, py_eqb x y = true) l l') ∧
           (∀ l, kwargs_raw = PyDict l →
              ∃ l', raw_kwargs' = PyDict l' ∧
                Forall (λ '(k, v), ∃ k' v', (k', v') ∈ l' ∧
                          py_eqb k k' = true ∧ py_eqb v v' = true) l))
  end.
Proof.
  intros Hself Ha Hk. unfold call, CaMeLCallable_call. rewrite Hself, Ha, Hk.
  destruct (python_call name raw_args raw_kwargs st) as [output ra rk st1|e]; [|done].
  intros args_raw kwargs_raw Ha1 Hk1. rewrite Ha1, Hk1. split.
  - intros Hne. apply andb_false_iff in Hne as [->| ->]; simpl; [done|].
    by rewrite orb_true_r.
  - intros He. apply andb_true_iff in He as [He1 He2]. rewrite He1, He2. simpl.
    split; [done|]. split.
    + intros l ->. by apply py_eqb_tuple.
    + intros l ->. apply py_eqb_dict in He2 as (l' & -> & _ & Hall). eauto.
Qed.
End value.


(** ** Examples

    *** A runtime for the examples

    Python's integers, with their arithmetic, order and bit operations;
    there are no float values in it, and an operation whose result would be
    one has no result here. *)

Definition integer_binop (op : operator) (a b : @PyVal Empty_set) : exn + @PyVal Empty_set :=
  match a, b with
  | PyInt x, PyInt y =>
      match op with
      | Add => inr (PyInt (x + y))
      | Sub => inr (PyInt (x - y))
      | Mult => inr (PyInt (x * y))
      | Div => inl (if (y =? 0)%Z then ZeroDivisionError else OtherError "float")
      | FloorDiv => if (y =? 0)%Z then inl ZeroDivisionError else inr (PyInt (x / y))
      | Mod => if (y =? 0)%Z then inl ZeroDivisionError else inr (PyInt (x mod y))
      | Pow => if (0 <=? y)%Z then inr (PyInt (x ^ y)) else inl (OtherError "float")
      | LShift => if (y <? 0)%Z then inl ValueError else inr (PyInt (Z.shiftl x y))
      | RShift => if (y <? 0)%Z then inl ValueError else inr (PyInt (Z.shiftr x y))
      | BitOr => inr (PyInt (Z.lor x y))
      | BitXor => inr (PyInt (Z.lxor x y))
      | BitAnd => inr (PyInt (Z.land x y))
      end
  | _, _ => inl TypeError
  end.

Definition integer_unary (f : Z → Z) (a : @PyVal Empty_set) : exn + @PyVal Empty_set :=
  match a with
  | PyInt x => inr (PyInt (f x))
  | _ => inl TypeError
  end.

Definition integer_order (f : Z → Z → bool) (a b : @PyVal Empty_set) : exn + bool :=
  match a, b with
  | PyInt x, PyInt y => inr (f x y)
  | _, _ => inl TypeError
  end.

Definition integer_runtime : @PythonRuntime Empty_set :=
  mkRuntime
    (λ x _ : Empty_set, match x with end)
    (λ (_ : Z) (y : Empty_set), match y with end)
    (λ x : Empty_set, match x with end)
    integer_binop
    (integer_unary Z.opp)
    (integer_unary (λ x, x))
    (integer_unary Z.lnot)
    (integer_order Z.gtb)
    (integer_order Z.ltb)
    (λ p q, match p, q with
            | VNone, VNone => true
            | VBool a, VBool b => Bool.eqb a b
            | VList r, VList s | VSet r, VSet s | VDict r, VDict s => Nat.eqb r s
            | _, _ => false
            end)
    (λ op xs ys,
       match op with
       | Sub => filter (λ x, x ∉ ys) xs
       | BitOr => xs ++ filter (λ y, y ∉ xs) ys
       | BitXor => filter (λ x, x ∉ ys) xs ++ filter (λ y, y ∉ xs) ys
       | _ => filter (λ x, x ∈ ys) xs
       end)
    (λ xs ys, filter (λ kv, kv.1 ∉ map fst ys) xs ++ ys).

(** *** Two lists that contain each other

    [l = [1, 1]], [m = [3, l]], then [l[1] = m]: the values are
    0 ↦ [1], 1 ↦ [3], 2 ↦ [l], 3 ↦ [m]. *)

Definition int_value (z : Z) : @CaMeLValue Empty_set :=
  CaMeLInt (PyInt z) Capabilities_.default [].

Definition list_value (r : nat) : @CaMeLValue Empty_set :=
  mkValue (VList r) Capabilities_.default [].

Definition two_lists : @store Empty_set :=
  mkStore [int_value 1; int_value 3; list_value 0; list_value 1]
          [OList [0; 0]; OList [1; 2]].

Definition two_lists_cyclic : @store Empty_set :=
  mkStore [int_value 1; int_value 3; list_value 0; list_value 1;
           CaMeLNone Capabilities_.camel [2; 0]]
          [OList [0; 3]; OList [1; 2]].

Lemma two_lists_set_index : set_index two_lists 2 0 3 = Returns (two_lists_cyclic, 4).
Proof. reflexivity. Qed.

(** Before the assignment the traversal returns. *)
Lemma two_lists_get_dependencies :
  get_dependencies 3 two_lists 3 ∅ = Some ([], {[ 0; 2; 3 ]}).
Proof. vm_compute. reflexivity. Qed.

Lemma two_lists_cyclic_scalar fuel v vis ds vis' :
  v < 2 → get_dependencies fuel two_lists_cyclic v vis = Some (ds, vis') → vis' = {[ v ]}.
Proof.
  intros Hv Hg. destruct fuel as [|fuel]; [done|].
  destruct v as [|[|v]]; [| |lia]; simpl in Hg; by inversion Hg.
Qed.

(** After the assignment, a traversal entered at either list with that list
    unvisited comes back to itself with the other list's visited set, which
    the integer before it has replaced: no recursion budget suffices. *)
Lemma two_lists_cyclic_no_return fuel :
  (∀ vis, 2 ∉ vis → get_dependencies fuel two_lists_cyclic 2 vis = None) ∧
  (∀ vis, 3 ∉ vis → get_dependencies fuel two_lists_cyclic 3 vis = None).
Proof.
  induction fuel as [|fuel [IH2 IH3]]; [done|]. split; intros vis Hv.
  - rewrite (get_dependencies_iterable fuel two_lists_cyclic 2 vis (list_value 0) [0; 3]);
      [|done..].
    cbn [foldM _dependencies list_value].
    destruct (get_dependencies fuel two_lists_cyclic 0 (vis ∪ {[ 2 ]})) as [[d v]|] eqn:H0;
      [|done].
    apply two_lists_cyclic_scalar in H0 as ->; [|lia].
    rewrite IH3; [done|]. set_solver +.
  - rewrite (get_dependencies_iterable fuel two_lists_cyclic 3 vis (list_value 1) [1; 2]);
      [|done..].
    cbn [foldM _dependencies list_value].
    destruct (get_dependencies fuel two_lists_cyclic 1 (vis ∪ {[ 3 ]})) as [[d v]|] eqn:H1;
      [|done].
    apply two_lists_cyclic_scalar in H1 as ->; [|lia].
    rewrite IH2; [done|]. set_solver +.
Qed.

(** C9, at the failing input.  The lists [l] and [m] with [l = [1, m]] and
    [m = [3, l]], built by [set_index] on [l = [1, 1]], [m = [3, l]]:
    [get_dependencies] on [l] does not return, whatever the recursion
    budget, and neither do [get_all_readers] and [get_all_sources], which
    call it. *)
Theorem cyclic_lists_traversals_do_not_return :
  set_index two_lists 2 0 3 = Returns (two_lists_cyclic, 4) ∧
  (∀ fuel, get_dependencies fuel two_lists_cyclic 2 ∅ = None) ∧
  (∀ fuel fuel',
     get_all_readers (metadata_of two_lists_cyclic) (dependencies_of fuel two_lists_cyclic)
       fuel' 2 ∅ = None) ∧
  (∀ fuel fuel',
     get_all_sources (metadata_of two_lists_cyclic) (dependencies_of fuel two_lists_cyclic)
       fuel' 2 ∅ = None).
Proof.
  assert (Hg : ∀ fuel, get_dependencies fuel two_lists_cyclic 2 ∅ = None).
  { intros fuel. apply two_lists_cyclic_no_return. set_solver +. }
  split; [reflexivity|]. split; [exact Hg|].
  split; intros fuel [|fuel']; try done; simpl;
    destruct (decide (2 ∈ (∅ : gset nat))) as [Hin|_]; try (by apply not_elem_of_empty in Hin);
    unfold dependencies_of; by rewrite Hg.
Qed.

(** *** Two lists of different lengths *)

Definition prefix_lists : @store Empty_set :=
  mkStore [int_value 1; int_value 2; int_value 3; list_value 0; list_value 1]
          [OList [0; 1]; OList [0; 1; 2]].

(** C8, at the failing input.  [[1, 2] == [1, 2, 3]] is [True]: the loop
    over [zip] stops with the shorter list; the raw payloads differ. *)
Theorem eq_lists_of_different_length :
  eq integer_runtime 3 prefix_lists 3 4
  = Returns (new_value prefix_lists (CaMeLBool true Capabilities_.camel [3; 4])) ∧
  raw integer_runtime 3 prefix_lists 3 = Some (PyList [PyInt 1; PyInt 2]) ∧
  raw integer_runtime 3 prefix_lists 4 = Some (PyList [PyInt 1; PyInt 2; PyInt 3]) ∧
  py_eqb integer_runtime (PyList [PyInt 1; PyInt 2]) (PyList [PyInt 1; PyInt 2; PyInt 3]) = false.
Proof. repeat split; reflexivity. Qed.

(** *** A negated integer *)

Definition one_int : @store Empty_set := mkStore [int_value 1] [].

Lemma default_is_not_camel : Capabilities_.default ≠ Capabilities_.camel.
Proof.
  intros Heq. assert (Hin : Enum CaMeL ∈ sources_set Capabilities_.camel) by set_solver +.
  rewrite <- Heq in Hin. simpl in Hin. set_solver + Hin.
Qed.

(** C6 as stated fails: [-1] on an integer labelled [default()] is labelled
    [default()], not [camel()]. *)
Lemma unary_int_not_camel :
  ∃ st' v',
    unary integer_runtime one_int USub 0 = Returns (st', v') ∧
    raw integer_runtime 1 st' v' = Some (PyInt (-1)) ∧
    metadata_of st' v' = Capabilities_.default ∧
    metadata_of st' v' ≠ Capabilities_.camel.
Proof.
  eexists _, _. split; [reflexivity|]. split; [reflexivity|]. split; [reflexivity|].
  apply default_is_not_camel.
Qed.

(** *** Setting a field of a wrapped instance *)

Definition wrapped_event : @store Empty_set :=
  mkStore [int_value 7; mkValue (VWrapper 0) Capabilities_.default [0]; int_value 5]
          [OInstance "Event" [("title", PyStr "x")] true].

(** C5 as stated fails: [set_field] on a wrapped instance that depends on
    the value [0] returns a [None] without dependencies. *)
Lemma set_field_drops_dependencies :
  ∃ st' v',
    apply_operation integer_runtime 2 wrapped_event (op_set_field "count" 2) 1
    = Returns (st', v') ∧
    objects st' !! 0 = Some (OInstance "Event" [("title", PyStr "x"); ("count", PyInt 5)] true) ∧
    depends_on_transitively wrapped_event 1 0 ∧
    ¬ depends_on_transitively st' v' 0.
Proof.
  eexists _, _. split; [reflexivity|]. split; [reflexivity|]. split.
  - apply tc_once. eexists. split; [reflexivity|]. set_solver +.
  - intros Hd. inversion Hd as [? ? (o & Ho & Hin)|? ? ? (o & Ho & Hin)]; subst;
      simpl in Ho; inversion Ho; subst; simpl in Hin; by apply not_elem_of_nil in Hin.
Qed.

(** *** A substring *)

Definition char_value (c : string) : @CaMeLValue Empty_set :=
  mkValue (VChar c) Capabilities_.default [].

Definition abc_and_ab : @store Empty_set :=
  mkStore [char_value "a"; char_value "b"; char_value "c";
           mkValue (VStr [0; 1; 2]) Capabilities_.default [];
           char_value "a"; char_value "b";
           mkValue (VStr [4; 5]) Capabilities_.default []]
          [].

(** C7 as stated fails: no character of ['abc'] equals ['ab'], and
    ['ab' in 'abc'] is [True]; its dependencies are the string alone. *)
Lemma contains_substring :
  Forall (λ el, eq_raw integer_runtime 3 abc_and_ab el 6 = Some false) [0; 1; 2] ∧
  contains integer_runtime 3 abc_and_ab 3 6
  = Returns (new_value abc_and_ab (CaMeLBool true Capabilities_.camel [3])).
Proof. split; [repeat constructor|reflexivity]. Qed.

(** *** Calls *)

(** A function value, the list [[1]], the arguments [([1],)] and no keyword
    arguments. *)
Definition call_store (name : string) (is_tool : bool) : @store Empty_set :=
  mkStore [mkValue (VFunction name is_tool) Capabilities_.camel [];
           int_value 1; list_value 0;
           mkValue (VTuple [2]) Capabilities_.camel [];
           mkValue (VDict 1) Capabilities_.camel []]
          [OList [1]; ODict []].

(** [len], and a callable that appends to its first argument. *)
Definition example_python_call (name : string) (raw_args raw_kwargs : @PyVal Empty_set)
    (st : @store Empty_set) : call_effect :=
  match raw_args with
  | PyTuple [PyList l] =>
      if bool_decide (name = "len")
      then CallReturns (PyInt (Z.of_nat (length l))) raw_args raw_kwargs st
      else CallReturns PyNone (PyTuple [PyList (l ++ [PyInt 2])]) raw_kwargs st
  | _ => CallRaises TypeError
  end.

(** [value_from_raw] on an int or [None], with the label of the tool. *)
Definition example_wrap_output (st : @store Empty_set) (self : nat) (output : @PyVal Empty_set)
    (args kwargs : nat) : outcome (@store Empty_set * nat) :=
  match python_value_of st self with
  | Some (VFunction name _) =>
      let metadata := mkCapabilities {[ Tool name ∅ ]} Public in
      match output with
      | PyInt z => Returns (new_value st (CaMeLInt (PyInt z) metadata [self; args; kwargs]))
      | PyNone => Returns (new_value st (CaMeLNone metadata [self; args; kwargs]))
      | _ => Raises UndefinedClassError
      end
  | _ => NoReturn
  end.

Definition example_tool_parameters (name : string) : list string := ["items"].

(** A tool that appends to the list it is handed. *)
Definition appending_tool (name : string) (args_by_keyword : gmap string (@PyVal Empty_set))
    (st : @store Empty_set) : tool_effect :=
  match args_by_keyword !! "items" with
  | Some (PyList l) =>
      ToolReturns PyNone (<["items" := PyList (l ++ [PyInt 2])]> args_by_keyword) st
  | _ => ToolRaises TypeError
  end.

(** C2 as stated fails: a tool ([AgentDojoFunction]) mutates the raw list it
    is handed, and its call returns; nothing is compared. *)
Lemma tool_call_mutation_unnoticed :
  AgentDojoFunction_make_args_by_keyword integer_runtime example_tool_parameters
    3 (call_store "append_item" true) "append_item" 3 4
  = Some {[ "items" := PyList [PyInt 1] ]} ∧
  call integer_runtime example_python_call example_wrap_output example_tool_parameters
    appending_tool 3 (call_store "append_item" true) 0 3 4
  = Returns (new_value (call_store "append_item" true)
               (CaMeLNone (mkCapabilities {[ Tool "append_item" ∅ ]} Public) [0; 3; 4]),
             {[ "items" := PyList [PyInt 1; PyInt 2] ]}).
Proof. split; [vm_compute; reflexivity | reflexivity]. Qed.

(** The same mutation by a callable that goes through [CaMeLCallable.call]
    is caught. *)
Lemma function_call_mutation_caught :
  call integer_runtime example_python_call example_wrap_output example_tool_parameters
    appending_tool 3 (call_store "append" false) 0 3 4
  = Raises FunctionCallWithSideEffectError.
Proof. reflexivity. Qed.

Lemma call_guards_side_effects_witness :
  python_value_of (call_store "len" false) 0 = Some (VFunction "len" false) ∧
  raw integer_runtime 3 (call_store "len" false) 3 = Some (PyTuple [PyList [PyInt 1]]) ∧
  raw integer_runtime 3 (call_store "len" false) 4 = Some (PyDict []) ∧
  match example_python_call "len" (PyTuple [PyList [PyInt 1]]) (PyDict []) (call_store "len" false) with
  | CallRaises e =>
      call integer_runtime example_python_call example_wrap_output example_tool_parameters
        appending_tool 3 (call_store "len" false) 0 3 4 = Raises e
  | CallReturns output raw_args' raw_kwargs' st1 =>
      ∀ args_raw kwargs_raw,
        raw integer_runtime 3 st1 3 = Some args_raw →
        raw integer_runtime 3 st1 4 = Some kwargs_raw →
        (py_eqb integer_runtime args_raw raw_args'
         && py_eqb integer_runtime kwargs_raw raw_kwargs' = false →
           call integer_runtime example_python_call example_wrap_output example_tool_parameters
             appending_tool 3 (call_store "len" false) 0 3 4
           = Raises FunctionCallWithSideEffectError) ∧
        (py_eqb integer_runtime args_raw raw_args'
         && py_eqb integer_runtime kwargs_raw raw_kwargs' = true →
           call integer_runtime example_python_call example_wrap_output example_tool_parameters
             appending_tool 3 (call_store "len" false) 0 3 4
           = wrap_and_name integer_runtime example_wrap_output 3 st1 0 output 3 4 ∧
           (∀ l, args_raw = PyTuple l →
              ∃ l', raw_args' = PyTuple l' ∧
                Forall2 (λ x y, py_eqb integer_runtime x y = true) l l') ∧
           (∀ l, kwargs_raw = PyDict l →
              ∃ l', raw_kwargs' = PyDict l' ∧
                Forall (λ '(k, v), ∃ k' v', (k', v') ∈ l' ∧
                          py_eqb integer_runtime k k' = true ∧
                          py_eqb integer_runtime v v' = true) l))
  end.
Proof.
  split; [reflexivity|]. split; [reflexivity|]. split; [reflexivity|].
  apply (call_guards_side_effects integer_runtime example_python_call example_wrap_output
           example_tool_parameters appending_tool 3 (call_store "len" false) 0 "len" 3 4);
    reflexivity.
Defined.

(** The call of [len] on [[1]] returns [1], labelled with the tool. *)
Lemma call_len_example :
  call integer_runtime example_python_call example_wrap_output example_tool_parameters
    appending_tool 3 (call_store "len" false) 0 3 4
  = Returns (new_value (call_store "len" false)
               (CaMeLInt (PyInt 1) (mkCapabilities {[ Tool "len" ∅ ]} Public) [0; 3; 4]),
             {[ "0" := PyList [PyInt 1] ]}).
Proof. reflexivity. Qed.

(** *** Witness of C5: [1 + 2], where [1] depends on another value *)

Definition sum_store : @store Empty_set :=
  mkStore [CaMeLInt (PyInt 1) Capabilities_.default [2]; int_value 2; int_value 7] [].

Lemma operation_dependencies_monotone_witness :
  is_mutator (op_binop m_add 1) = false ∧
  apply_operation integer_runtime 1 sum_store (op_binop m_add 1) 0
  = Returns (new_value sum_store (CaMeLInt (PyInt 3) Capabilities_.camel [0; 1])) ∧
  0 ∈ operands (op_binop m_add 1) 0 ∧
  (∃ o, allocates sum_store
          (new_value sum_store (CaMeLInt (PyInt 3) Capabilities_.camel [0; 1])).1 3 o ∧
        carries sum_store o 0) ∧
  (∀ x, depends_on_transitively sum_store 0 x →
        depends_on_transitively
          (new_value sum_store (CaMeLInt (PyInt 3) Capabilities_.camel [0; 1])).1 3 x).
Proof.
  split; [reflexivity|]. split; [reflexivity|]. split; [set_solver +|].
  apply (operation_dependencies_monotone integer_runtime 1 sum_store (op_binop m_add 1) 0);
    [reflexivity|reflexivity|set_solver +].
Defined.

(** ** Closed instances of the traversal and namespace theorems *)

(** Three values: [0] depends on [1] and [2], [1] depends back on [0]. *)
Definition example_dependencies (v : nat) : option (list nat) :=
  match v with
  | 0 => Some [1; 2]
  | 1 => Some [0]
  | _ => Some []
  end.

Definition example_metadata (v : nat) : Capabilities :=
  match v with
  | 0 => Capabilities_.camel
  | 1 => mkCapabilities {[ Enum User ]} (SharedWith {[ "alice"; "bob" ]})
  | _ => mkCapabilities {[ Tool "read_file" {[ inr TrustedToolSource ]} ]}
           (SharedWith {[ "alice" ]})
  end.

Definition example_graph : gset nat := {[ 0; 1; 2 ]}.

Lemma example_graph_closed :
  closed_under_dependencies example_dependencies example_graph.
Proof.
  intros x Hx. unfold example_graph in *.
  apply elem_of_union in Hx as [Hx|Hx]; [apply elem_of_union in Hx as [Hx|Hx]|];
    apply elem_of_singleton in Hx; subst x; eexists; (split; [reflexivity|]);
    intros d Hd; set_solver + Hd.
Qed.

Lemma can_readers_read_value_iff_witness :
  closed_under_dependencies example_dependencies example_graph ∧
  0 ∈ example_graph ∧ size example_graph < 4 ∧
  ∃ all_readers visited b,
    get_all_readers example_metadata example_dependencies 4 0 ∅
    = Some (all_readers, visited) ∧
    can_readers_read_value example_metadata example_dependencies 4 {[ "alice" ]} 0
    = Some b ∧
    (b = true ↔
       all_readers = Public ∨ ∃ s, all_readers = SharedWith s ∧ {[ "alice" ]} ⊆ s) ∧
    (all_readers = Public ↔
       ∀ x, reaches example_dependencies 0 x →
            readers_set (example_metadata x) = Public) ∧
    (∀ p, may_read p all_readers ↔
            ∀ x, reaches example_dependencies 0 x →
                 may_read p (readers_set (example_metadata x))).
Proof.
  split; [exact example_graph_closed|].
  split; [set_solver +|]. split; [vm_compute; lia|].
  apply (can_readers_read_value_iff example_metadata example_dependencies example_graph 4
           {[ "alice" ]} 0);
    [exact example_graph_closed | set_solver + | vm_compute; lia].
Defined.

Lemma is_trusted_iff_witness :
  closed_under_dependencies example_dependencies example_graph ∧
  1 ∈ example_graph ∧ size example_graph < 5 ∧
  ∃ b, is_trusted example_metadata example_dependencies 5 1 = Some b ∧
    (b = true ↔
       ∀ x s, reaches example_dependencies 1 x → s ∈ sources_set (example_metadata x) →
              trusted_source s).
Proof.
  split; [exact example_graph_closed|].
  split; [set_solver +|]. split; [vm_compute; lia|].
  apply (is_trusted_iff example_metadata example_dependencies example_graph 5 1);
    [exact example_graph_closed | set_solver + | vm_compute; lia].
Defined.

(** A store with the dict of a namespace at [0] and a dict of new bindings
    at [1]. *)
Definition example_dicts : gmap nat (gmap string Z) :=
  {[ 0 := {[ "x" := 1%Z; "y" := 2%Z ]}; 1 := {[ "y" := 5%Z; "z" := 7%Z ]} ]}.

Lemma add_variables_spec_witness :
  example_dicts !! variables (mkNamespace 0) = Some {[ "x" := 1%Z; "y" := 2%Z ]} ∧
  example_dicts !! 1 = Some {[ "y" := 5%Z; "z" := 7%Z ]} ∧
  ∃ σ' n',
    add_variables example_dicts (mkNamespace 0) 1 = Some (σ', n') ∧
    (∀ k, get σ' n' k
          = Some (match ({[ "y" := 5%Z; "z" := 7%Z ]} : gmap string Z) !! k with
                  | Some v => Some v
                  | None => ({[ "x" := 1%Z; "y" := 2%Z ]} : gmap string Z) !! k
                  end)) ∧
    (∀ k v, ({[ "y" := 5%Z; "z" := 7%Z ]} : gmap string Z) !! k = Some v →
            get σ' n' k = Some (Some v)) ∧
    (∀ k, get σ' (mkNamespace 0) k = get example_dicts (mkNamespace 0) k) ∧
    (∀ l, l ∈ dom example_dicts → σ' !! l = example_dicts !! l) ∧
    (∀ name v σ'', set_variable σ' n' name v = Some σ'' →
       ∀ k, get σ'' (mkNamespace 0) k = get example_dicts (mkNamespace 0) k).
Proof.
  split; [reflexivity|]. split; [reflexivity|].
  apply (add_variables_spec example_dicts (mkNamespace 0) 1); reflexivity.
Defined.

(** ** More on camel/capabilities/utils.py *)

Section capability_facts.

Context {V : Type} `{Countable V}.
Variable metadata : V → Capabilities.
Variable get_dependencies : V → option (list V).

Lemma is_public_returns fuel value r vis :
  get_all_readers metadata get_dependencies fuel value ∅ = Some (r, vis) →
  is_public metadata get_dependencies fuel value = Some (is_Public r).
Proof. intros Hr. unfold is_public. by rewrite Hr. Qed.

Local Abbreviation depends_on := (depends_on get_dependencies).
Local Abbreviation reaches := (reaches get_dependencies).
Local Abbreviation closed := (closed_under_dependencies get_dependencies).
Local Abbreviation get_all_sources := (get_all_sources metadata get_dependencies).
Local Abbreviation get_all_readers := (get_all_readers metadata get_dependencies).
Local Abbreviation is_public := (is_public metadata get_dependencies).
Local Abbreviation is_trusted := (is_trusted metadata get_dependencies).
Local Abbreviation can_readers_read_value :=
  (can_readers_read_value metadata get_dependencies).

(** Every reader of [R] may read every value that [value] reaches. *)
Definition readable_by (R : gset string) (value : V) : Prop :=
  ∀ p x, p ∈ R → reaches value x → may_read p (readers_set (metadata x)).

(** Every source of every value that [value] reaches is trusted. *)
Definition trusted_throughout (value : V) : Prop :=
  ∀ x s, reaches value x → s ∈ sources_set (metadata x) → trusted_source s.

(** Every value that [value] reaches has readers [Public]. *)
Definition public_throughout (value : V) : Prop :=
  ∀ x, reaches value x → readers_set (metadata x) = Public.

Lemma closed_reaches U value x :
  closed U → value ∈ U → reaches value x → x ∈ U.
Proof.
  intros HU Hv. apply (rtc_ind_r (λ x, x ∈ U) value); [done|].
  intros y z _ (ds & Hds & Hz) Hy. destruct (HU y Hy) as (ds' & Hds' & Hin).
  rewrite Hds in Hds'. inversion Hds'; subst. auto.
Qed.

Lemma readers_return U fuel value :
  closed U → value ∈ U → size U < fuel →
  ∃ r vis, get_all_readers fuel value ∅ = Some (r, vis).
Proof.
  intros HU Hv Hsz.
  destruct (get_all_readers_terminates metadata get_dependencies U HU fuel value ∅ Hv)
    as [[r vis] Hr]; [|eauto].
  replace (U ∖ ∅) with U by set_solver +. done.
Qed.

Lemma sources_return U fuel value :
  closed U → value ∈ U → size U < fuel →
  ∃ srcs vis, get_all_sources fuel value ∅ = Some (srcs, vis).
Proof.
  intros HU Hv Hsz.
  destruct (get_all_sources_terminates metadata get_dependencies U HU fuel value ∅ Hv)
    as [[r vis] Hr]; [|eauto].
  replace (U ∖ ∅) with U by set_solver +. done.
Qed.

Lemma is_public_semantics U fuel value :
  closed U → value ∈ U → size U < fuel →
  ∃ b, is_public fuel value = Some b ∧ (b = true ↔ public_throughout value).
Proof.
  intros HU Hv Hsz. destruct (readers_return U fuel value HU Hv Hsz) as (r & vis & Hr).
  exists (is_Public r). split; [by apply is_public_returns with vis|].
  apply (get_all_readers_reaches metadata get_dependencies _ _ _ _ Hr).
Qed.

Lemma is_trusted_semantics U fuel value :
  closed U → value ∈ U → size U < fuel →
  ∃ b, is_trusted fuel value = Some b ∧ (b = true ↔ trusted_throughout value).
Proof.
  intros HU Hv Hsz. destruct (sources_return U fuel value HU Hv Hsz) as (r & vis & Hr).
  exact (is_trusted_returns metadata get_dependencies fuel value r vis Hr).
Qed.

Lemma can_read_semantics U fuel R value :
  closed U → value ∈ U → size U < fuel →
  ∃ b, can_readers_read_value fuel R value = Some b ∧ (b = true ↔ readable_by R value).
Proof.
  intros HU Hv Hsz. destruct (readers_return U fuel value HU Hv Hsz) as (r & vis & Hr).
  destruct (can_readers_read_value_returns metadata get_dependencies fuel R value r vis Hr)
    as (b & Hb & Hiff).
  destruct (get_all_readers_reaches metadata get_dependencies _ _ _ _ Hr) as [_ Hm].
  exists b. split; [done|]. rewrite Hiff. unfold readable_by. split.
  - intros [->|(s & -> & Hsub)] p x Hp Hx.
    + by apply (Hm p).
    + apply (Hm p); [|done]. simpl. auto.
  - intros Hall. destruct r as [|s]; [by left|]. right. exists s. split; [done|].
    intros p Hp. apply (Hm p). intros x Hx. by apply Hall.
Qed.

(** [is_public(v)] returns [True] exactly when [v] and every value it
    depends on, directly or through other values, has readers [Public]. *)
Theorem is_public_iff U fuel value :
  closed U → value ∈ U → size U < fuel →
  ∃ b, is_public fuel value = Some b ∧
    (b = true ↔ ∀ x, reaches value x → readers_set (metadata x) = Public).
Proof. apply is_public_semantics. Qed.

(** [get_all_sources(v)] returns the union of the source sets of [v] and of
    everything it depends on: a source is in the result exactly when some
    value reached from [v] carries it. *)
Theorem get_all_sources_is_union U fuel value :
  closed U → value ∈ U → size U < fuel →
  ∃ srcs vis, get_all_sources fuel value ∅ = Some (srcs, vis) ∧
    ∀ s, s ∈ srcs ↔ ∃ x, reaches value x ∧ s ∈ sources_set (metadata x).
Proof.
  intros HU Hv Hsz. destruct (sources_return U fuel value HU Hv Hsz) as (srcs & vis & Hr).
  exists srcs, vis. split; [done|].
  apply (get_all_sources_reaches metadata get_dependencies _ _ _ _ Hr).
Qed.

(** Trust and publicity pass down: everything a trusted value depends on is
    trusted, and everything a public value depends on is public. *)
Theorem trusted_and_public_pass_to_dependencies U fuel value d :
  closed U → value ∈ U → size U < fuel → reaches value d →
  (is_trusted fuel value = Some true → is_trusted fuel d = Some true) ∧
  (is_public fuel value = Some true → is_public fuel d = Some true).
Proof.
  intros HU Hv Hsz Hd. assert (HdU : d ∈ U) by (eapply closed_reaches; eauto).
  split; intros Hb.
  - destruct (is_trusted_semantics U fuel value HU Hv Hsz) as (b & Hb' & Hiff).
    destruct (is_trusted_semantics U fuel d HU HdU Hsz) as (b' & -> & Hiff').
    f_equal. apply Hiff'. intros x s Hx Hs.
    rewrite Hb in Hb'. inversion Hb'; subst b. destruct Hiff as [Hiff _].
    apply (Hiff eq_refl x s); [|done]. by apply rtc_trans with d.
  - destruct (is_public_semantics U fuel value HU Hv Hsz) as (b & Hb' & Hiff).
    destruct (is_public_semantics U fuel d HU HdU Hsz) as (b' & -> & Hiff').
    f_equal. apply Hiff'. intros x Hx.
    rewrite Hb in Hb'. inversion Hb'; subst b. destruct Hiff as [Hiff _].
    apply (Hiff eq_refl x). by apply rtc_trans with d.
Qed.

(** Fewer readers can read at least as much: if the readers [R] can read a
    value, so can every subset of [R]; the empty set of readers can read
    every value. *)
Theorem can_readers_read_value_subset U fuel (R R' : gset string) value :
  closed U → value ∈ U → size U < fuel → R' ⊆ R →
  (can_readers_read_value fuel R value = Some true →
   can_readers_read_value fuel R' value = Some true) ∧
  can_readers_read_value fuel ∅ value = Some true.
Proof.
  intros HU Hv Hsz Hsub.
  destruct (can_read_semantics U fuel R value HU Hv Hsz) as (b & Hb & Hiff).
  destruct (can_read_semantics U fuel R' value HU Hv Hsz) as (b' & Hb' & Hiff').
  destruct (can_read_semantics U fuel ∅ value HU Hv Hsz) as (b0 & Hb0 & Hiff0).
  split.
  - intros Ht. rewrite Hb in Ht. inversion Ht; subst b. rewrite Hb'. f_equal.
    apply Hiff'. intros p x Hp Hx. destruct Hiff as [Hiff _].
    apply (Hiff eq_refl p x); [|done]. by apply Hsub.
  - rewrite Hb0. f_equal. apply Hiff0. intros p x Hp. by apply not_elem_of_empty in Hp.
Qed.

End capability_facts.

Lemma tool_source_not_trusted_empty (name : string) :
  _source_is_trusted (Tool name ∅) = false.
Proof.
  apply not_true_is_false. rewrite _source_is_trusted_spec. inversion 1; subst. done.
Qed.

Lemma tool_source_not_trusted_inner (name : string) (inner : gset (string + SourceEnum))
    (other : string) :
  inl other ∈ inner → _source_is_trusted (Tool name inner) = false.
Proof.
  intros Hin. apply not_true_is_false. rewrite _source_is_trusted_spec.
  inversion 1 as [|? ? _ Hall]; subst. specialize (Hall _ Hin). inversion Hall.
Qed.

(** A [Tool] source that read nothing, or that read the output of another
    tool (an inner source that is a tool name), is not trusted, whatever else
    it read. *)
Theorem tool_source_not_trusted (name : string) (inner : gset (string + SourceEnum)) :
  (inner = ∅ → _source_is_trusted (Tool name inner) = false) ∧
  (∀ other, inl other ∈ inner → _source_is_trusted (Tool name inner) = false).
Proof.
  split.
  - intros ->. apply tool_source_not_trusted_empty.
  - intros other. apply tool_source_not_trusted_inner.
Qed.

Lemma is_public_iff_witness :
  closed_under_dependencies example_dependencies example_graph ∧
  2 ∈ example_graph ∧ size example_graph < 4 ∧
  ∃ b, is_public example_metadata example_dependencies 4 2 = Some b ∧
    (b = true ↔
       ∀ x, reaches example_dependencies 2 x → readers_set (example_metadata x) = Public).
Proof.
  split; [exact example_graph_closed|]. split; [set_solver +|]. split; [vm_compute; lia|].
  apply (is_public_iff example_metadata example_dependencies example_graph 4 2);
    [exact example_graph_closed | set_solver + | vm_compute; lia].
Defined.

Lemma get_all_sources_is_union_witness :
  closed_under_dependencies example_dependencies example_graph ∧
  0 ∈ example_graph ∧ size example_graph < 4 ∧
  ∃ srcs vis,
    get_all_sources example_metadata example_dependencies 4 0 ∅ = Some (srcs, vis) ∧
    ∀ s, s ∈ srcs ↔
         ∃ x, reaches example_dependencies 0 x ∧ s ∈ sources_set (example_metadata x).
Proof.
  split; [exact example_graph_closed|]. split; [set_solver +|]. split; [vm_compute; lia|].
  apply (get_all_sources_is_union example_metadata example_dependencies example_graph 4 0);
    [exact example_graph_closed | set_solver + | vm_compute; lia].
Defined.

Lemma trusted_and_public_pass_to_dependencies_witness :
  closed_under_dependencies example_dependencies example_graph ∧
  0 ∈ example_graph ∧ size example_graph < 4 ∧ reaches example_dependencies 0 2 ∧
  (is_trusted example_metadata example_dependencies 4 0 = Some true →
   is_trusted example_metadata example_dependencies 4 2 = Some true) ∧
  (is_public example_metadata example_dependencies 4 0 = Some true →
   is_public example_metadata example_dependencies 4 2 = Some true).
Proof.
  assert (Hr : reaches example_dependencies 0 2).
  { apply rtc_once. exists [1; 2]. split; [reflexivity|set_solver +]. }
  split; [exact example_graph_closed|]. split; [set_solver +|]. split; [vm_compute; lia|].
  split; [exact Hr|].
  apply (trusted_and_public_pass_to_dependencies example_metadata example_dependencies
           example_graph 4 0 2);
    [exact example_graph_closed | set_solver + | vm_compute; lia | exact Hr].
Defined.

Lemma can_readers_read_value_subset_witness :
  closed_under_dependencies example_dependencies example_graph ∧
  2 ∈ example_graph ∧ size example_graph < 4 ∧
  ({[ "alice" ]} : gset string) ⊆ {[ "alice"; "bob" ]} ∧
  (can_readers_read_value example_metadata example_dependencies 4 {[ "alice"; "bob" ]} 2
   = Some true →
   can_readers_read_value example_metadata example_dependencies 4 {[ "alice" ]} 2
   = Some true) ∧
  can_readers_read_value example_metadata example_dependencies 4 ∅ 2 = Some true.
Proof.
  split; [exact example_graph_closed|]. split; [set_solver +|]. split; [vm_compute; lia|].
  split; [set_solver +|].
  apply (can_readers_read_value_subset example_metadata example_dependencies example_graph 4
           {[ "alice"; "bob" ]} {[ "alice" ]} 2);
    [exact example_graph_closed | set_solver + | vm_compute; lia | set_solver +].
Defined.

(** ** camel/pipeline_elements/security_policies

    The policies of the AgentDojo suites are callers of [is_trusted],
    [is_public], [get_all_readers] and [can_readers_read_value].  A policy
    returns a result, raises ([kwargs[name]] on a missing argument is a
    [KeyError]), or does not return when a traversal does not. *)

Section security_policies.

Context {V : Type} `{Countable V}.
Variable metadata : V → Capabilities.
Variable get_dependencies : V → option (list V).
(** [v.raw] of a value that holds a string (a recipient). *)
Variable raw : V → string.
(** [repr] of a reader set and of a set of recipients, for the messages. *)
Variable repr_readers : Readers → string.
Variable repr_recipients : gset string → string.

(** agentdojo_security_policies.py: [make_trusted_fields_policy(fields)] *)
Fixpoint make_trusted_fields_policy (fuel : nat) (fields : list string)
    (tool_name : string) (kwargs : gmap string V) : outcome SecurityPolicyResult :=
  match fields with
  | [] => Returns Allowed
  | arg_name :: fields' =>
      match kwargs !! arg_name with
      | None => Raises KeyError
      | Some arg =>
          match is_trusted metadata get_dependencies fuel arg with
          | None => NoReturn
          | Some false =>
              Returns (Denied (String.append arg_name " does not come directly from user"))
          | Some true => make_trusted_fields_policy fuel fields' tool_name kwargs
          end
      end
  end.

(** The block
    [x_readers, _ = get_all_readers(kwargs[name])]
    [if not can_readers_read_value(recipients_set, kwargs[name]): return Denied(...)]
    of banking.py, followed by the rest of the policy. *)
Definition readable_or_denied (fuel : nat) (recipients_set : gset string)
    (kwargs : gmap string V) (name : string) (message : Readers → string)
    (rest : outcome SecurityPolicyResult) : outcome SecurityPolicyResult :=
  match kwargs !! name with
  | None => Raises KeyError
  | Some value =>
      match get_all_readers metadata get_dependencies fuel value ∅ with
      | None => NoReturn
      | Some (value_readers, _) =>
          match can_readers_read_value metadata get_dependencies fuel recipients_set value with
          | None => NoReturn
          | Some false => Returns (Denied (message value_readers))
          | Some true => rest
          end
      end
  end.

(** banking.py: [BankingSecurityPolicyEngine.send_money_policy] *)
Definition send_money_policy (fuel : nat) (tool_name : string) (kwargs : gmap string V)
    : outcome SecurityPolicyResult :=
  match kwargs !! "recipient" with
  | None => Raises KeyError
  | Some recipient =>
      match is_trusted metadata get_dependencies fuel recipient with
      | None => NoReturn
      | Some false => Returns (Denied "The recipient does not come directly from the user.")
      | Some true =>
          let recipients_set : gset string := {[ raw recipient ]} in
          readable_or_denied fuel recipients_set kwargs "subject"
            (λ subject_readers, String.concat ""
               ["The recipients can't read the transaction subject: subject readers=";
                repr_readers subject_readers; ", recipients = ";
                repr_recipients recipients_set; "."])
            (readable_or_denied fuel recipients_set kwargs "amount"
               (λ amount_readers, String.concat ""
                  ["The recipients can't read the transaction amount: amount readers=";
                   repr_readers amount_readers; ", recipients = ";
                   repr_recipients recipients_set; "."])
               (readable_or_denied fuel recipients_set kwargs "date"
                  (λ date_readers, String.concat ""
                     ["The recipients can't read the transaction amount: date readers=";
                      repr_readers date_readers; ", recipients = ";
                      repr_recipients recipients_set; "."])
                  (Returns Allowed)))
      end
  end.

(** banking.py: [schedule_transaction_policy] and
    [update_scheduled_transaction_policy] *)
Definition schedule_transaction_policy := send_money_policy.
Definition update_scheduled_transaction_policy := send_money_policy.

(** banking.py: [update_password_policy] *)
Definition update_password_policy (fuel : nat) (tool_name : string) (kwargs : gmap string V)
    : outcome SecurityPolicyResult :=
  match kwargs !! "password" with
  | None => Raises KeyError
  | Some password =>
      match is_trusted metadata get_dependencies fuel password with
      | None => NoReturn
      | Some true => Returns Allowed
      | Some false => Returns (Denied "The password does not come from the user.")
      end
  end.

(** slack.py: [SlackSecurityPolicyEngine.send_direct_message_policy] *)
Definition send_direct_message_policy (fuel : nat) (tool_name : string)
    (kwargs : gmap string V) : outcome SecurityPolicyResult :=
  match kwargs !! "recipient" with
  | None => Raises KeyError
  | Some recipient =>
      match is_trusted metadata get_dependencies fuel recipient with
      | None => NoReturn
      | Some true => Returns Allowed
      | Some false =>
          let readers : gset string := {[ raw recipient ]} in
          match kwargs !! "body" with
          | None => Raises KeyError
          | Some body =>
              match can_readers_read_value metadata get_dependencies fuel readers body with
              | None => NoReturn
              | Some true => Returns Allowed
              | Some false =>
                  Returns (Denied "The recipient can't read the content of the message.")
              end
          end
      end
  end.

(** slack.py: [post_webpage_policy] *)
Definition post_webpage_policy (fuel : nat) (tool_name : string) (kwargs : gmap string V)
    : outcome SecurityPolicyResult :=
  match kwargs !! "url" with
  | None => Raises KeyError
  | Some url =>
      match is_public metadata get_dependencies fuel url with
      | None => NoReturn
      | Some false => Returns (Denied "The url is not public")
      | Some true =>
          match kwargs !! "content" with
          | None => Raises KeyError
          | Some content =>
              match is_public metadata get_dependencies fuel content with
              | None => NoReturn
              | Some false => Returns (Denied "The content is not public")
              | Some true => Returns Allowed
              end
          end
      end
  end.

(** slack.py: [get_webpage_policy] *)
Definition get_webpage_policy (fuel : nat) (tool_name : string) (kwargs : gmap string V)
    : outcome SecurityPolicyResult :=
  match kwargs !! "url" with
  | None => Raises KeyError
  | Some url =>
      match is_public metadata get_dependencies fuel url with
      | None => NoReturn
      | Some false => Returns (Denied "The url is not public")
      | Some true => Returns Allowed
      end
  end.

(** travel.py: [TravelSecurityPolicyEngine.create_calendar_event_policy] *)
Definition create_calendar_event_policy (fuel : nat) (tool_name : string)
    (kwargs : gmap string V) : outcome SecurityPolicyResult :=
  match kwargs !! "participants" with
  | None => Raises KeyError
  | Some participants =>
      match is_trusted metadata get_dependencies fuel participants with
      | None => NoReturn
      | Some true => Returns Allowed
      | Some false => Raises NotImplementedError
      end
  end.

(** travel.py: [cancel_calendar_event_policy] *)
Definition cancel_calendar_event_policy (fuel : nat) (tool_name : string)
    (kwargs : gmap string V) : outcome SecurityPolicyResult :=
  match kwargs !! "event_id" with
  | None => Raises KeyError
  | Some event_id =>
      match is_trusted metadata get_dependencies fuel event_id with
      | None => NoReturn
      | Some false => Returns (Denied "Event to be deleted does not come directly from user")
      | Some true => Returns Allowed
      end
  end.

Local Abbreviation closed := (closed_under_dependencies get_dependencies).
Local Abbreviation trusted := (trusted_throughout metadata get_dependencies).
Local Abbreviation public := (public_throughout metadata get_dependencies).
Local Abbreviation readable_by := (readable_by metadata get_dependencies).

(** The arguments a policy reads are values of the graph [U]. *)
Definition arguments_in (U : gset V) (kwargs : gmap string V) (names : list string) : Prop :=
  Forall (λ name, ∃ v, kwargs !! name = Some v ∧ v ∈ U) names.

Lemma readable_or_denied_spec U fuel R kwargs name message rest value :
  closed U → size U < fuel → kwargs !! name = Some value → value ∈ U →
  (readable_by R value ∧ readable_or_denied fuel R kwargs name message rest = rest) ∨
  (¬ readable_by R value ∧
   ∃ reason, readable_or_denied fuel R kwargs name message rest = Returns (Denied reason)).
Proof.
  intros HU Hsz Hk Hv. unfold readable_or_denied. rewrite Hk.
  destruct (readers_return metadata get_dependencies U fuel value HU Hv Hsz)
    as (r & vis & ->).
  destruct (can_read_semantics metadata get_dependencies U fuel R value HU Hv Hsz)
    as (b & -> & Hiff).
  destruct b.
  - left. split; [by apply Hiff|done].
  - right. split; [|eauto]. intros Hr. apply Hiff in Hr. done.
Qed.

(** banking.py.  When its four arguments are given, [send_money_policy]
    returns, and it allows the transfer exactly when the recipient is
    trusted and, besides, may read the subject, the amount and the date:
    a trusted recipient does not suffice. *)
Theorem send_money_policy_allows U fuel tool_name kwargs recipient subject amount date :
  closed U → size U < fuel →
  kwargs !! "recipient" = Some recipient → recipient ∈ U →
  kwargs !! "subject" = Some subject → subject ∈ U →
  kwargs !! "amount" = Some amount → amount ∈ U →
  kwargs !! "date" = Some date → date ∈ U →
  ∃ result,
    send_money_policy fuel tool_name kwargs = Returns result ∧
    (result = Allowed ↔
       trusted recipient ∧
       readable_by {[ raw recipient ]} subject ∧
       readable_by {[ raw recipient ]} amount ∧
       readable_by {[ raw recipient ]} date).
Proof.
  intros HU Hsz Hr HrU Hs HsU Ha HaU Hd HdU. unfold send_money_policy. rewrite Hr.
  destruct (is_trusted_semantics metadata get_dependencies U fuel recipient HU HrU Hsz)
    as (b & -> & Hiff).
  destruct b; [|eexists; split; [done|]; split; [done|];
                intros [Ht _]; apply Hiff in Ht; done].
  assert (Ht : trusted recipient) by by apply Hiff.
  set (R := {[ raw recipient ]}).
  destruct (readable_or_denied_spec U fuel R kwargs "subject"
    (λ subject_readers, String.concat ""
       ["The recipients can't read the transaction subject: subject readers=";
        repr_readers subject_readers; ", recipients = "; repr_recipients R; "."])
    (readable_or_denied fuel R kwargs "amount"
       (λ amount_readers, String.concat ""
          ["The recipients can't read the transaction amount: amount readers=";
           repr_readers amount_readers; ", recipients = "; repr_recipients R; "."])
       (readable_or_denied fuel R kwargs "date"
          (λ date_readers, String.concat ""
             ["The recipients can't read the transaction amount: date readers=";
              repr_readers date_readers; ", recipients = "; repr_recipients R; "."])
          (Returns Allowed)))
    subject HU Hsz Hs HsU) as [[H1 ->]|[H1 (reason & ->)]];
    [|eexists; split; [done|]; split; [done|]; tauto].
  destruct (readable_or_denied_spec U fuel R kwargs "amount"
    (λ amount_readers, String.concat ""
       ["The recipients can't read the transaction amount: amount readers=";
        repr_readers amount_readers; ", recipients = "; repr_recipients R; "."])
    (readable_or_denied fuel R kwargs "date"
       (λ date_readers, String.concat ""
          ["The recipients can't read the transaction amount: date readers=";
           repr_readers date_readers; ", recipients = "; repr_recipients R; "."])
       (Returns Allowed))
    amount HU Hsz Ha HaU) as [[H2 ->]|[H2 (reason & ->)]];
    [|eexists; split; [done|]; split; [done|]; tauto].
  destruct (readable_or_denied_spec U fuel R kwargs "date"
    (λ date_readers, String.concat ""
       ["The recipients can't read the transaction amount: date readers=";
        repr_readers date_readers; ", recipients = "; repr_recipients R; "."])
    (Returns Allowed)
    date HU Hsz Hd HdU) as [[H3 ->]|[H3 (reason & ->)]];
    [|eexists; split; [done|]; split; [done|]; tauto].
  eexists. split; [done|]. tauto.
Qed.

(** slack.py.  [send_direct_message_policy] allows the message exactly when
    the recipient is trusted or may read the body; for a trusted recipient
    the body is not looked at (it may even be missing). *)
Theorem send_direct_message_policy_allows U fuel tool_name kwargs recipient :
  closed U → size U < fuel →
  kwargs !! "recipient" = Some recipient → recipient ∈ U →
  (trusted recipient → send_direct_message_policy fuel tool_name kwargs = Returns Allowed) ∧
  (∀ body, kwargs !! "body" = Some body → body ∈ U →
     ∃ result,
       send_direct_message_policy fuel tool_name kwargs = Returns result ∧
       (result = Allowed ↔ trusted recipient ∨ readable_by {[ raw recipient ]} body)).
Proof.
  intros HU Hsz Hr HrU. unfold send_direct_message_policy. rewrite Hr.
  destruct (is_trusted_semantics metadata get_dependencies U fuel recipient HU HrU Hsz)
    as (b & -> & Hiff).
  split.
  - intros Ht. apply Hiff in Ht. by subst b.
  - intros body Hb HbU. destruct b.
    + eexists. split; [done|]. split; [|done]. intros _. left. by apply Hiff.
    + rewrite Hb.
      destruct (can_read_semantics metadata get_dependencies U fuel {[ raw recipient ]}
                  body HU HbU Hsz) as (c & -> & Hc).
      destruct c.
      * eexists. split; [done|]. split; [|done]. intros _. right. by apply Hc.
      * eexists. split; [done|]. split; [done|].
        intros [Ht|Hrd]; [apply Hiff in Ht|apply Hc in Hrd]; done.
Qed.

(** slack.py.  [post_webpage_policy] allows the post exactly when the url
    and the content are public, each with everything it depends on. *)
Theorem post_webpage_policy_allows U fuel tool_name kwargs url content :
  closed U → size U < fuel →
  kwargs !! "url" = Some url → url ∈ U →
  kwargs !! "content" = Some content → content ∈ U →
  ∃ result,
    post_webpage_policy fuel tool_name kwargs = Returns result ∧
    (result = Allowed ↔ public url ∧ public content).
Proof.
  intros HU Hsz Hu HuU Hc HcU. unfold post_webpage_policy. rewrite Hu.
  destruct (is_public_semantics metadata get_dependencies U fuel url HU HuU Hsz)
    as (b & -> & Hiff).
  destruct b; [|eexists; split; [done|]; split; [done|];
                intros [Hp _]; apply Hiff in Hp; done].
  rewrite Hc.
  destruct (is_public_semantics metadata get_dependencies U fuel content HU HcU Hsz)
    as (c & -> & Hiffc).
  destruct c; eexists; (split; [done|]).
  - split; [|done]. intros _. split; [by apply Hiff|by apply Hiffc].
  - split; [done|]. intros [_ Hp]. apply Hiffc in Hp. done.
Qed.

(** travel.py.  [create_calendar_event_policy] never denies: it allows the
    event when the participants are trusted and raises [NotImplementedError]
    when they are not. *)
Theorem create_calendar_event_policy_never_denies U fuel tool_name kwargs participants :
  closed U → size U < fuel →
  kwargs !! "participants" = Some participants → participants ∈ U →
  (trusted participants ∧
   create_calendar_event_policy fuel tool_name kwargs = Returns Allowed) ∨
  (¬ trusted participants ∧
   create_calendar_event_policy fuel tool_name kwargs = Raises NotImplementedError).
Proof.
  intros HU Hsz Hp HpU. unfold create_calendar_event_policy. rewrite Hp.
  destruct (is_trusted_semantics metadata get_dependencies U fuel participants HU HpU Hsz)
    as (b & -> & Hiff).
  destruct b; [left|right]; (split; [|done]).
  - by apply Hiff.
  - intros Ht. apply Hiff in Ht. done.
Qed.

(** agentdojo_security_policies.py.  The policy made by
    [make_trusted_fields_policy(fields)] allows the call exactly when every
    listed argument is trusted; when it denies, the message names the first
    listed argument that is not. *)
Theorem make_trusted_fields_policy_allows U fuel fields tool_name kwargs :
  closed U → size U < fuel → arguments_in U kwargs fields →
  ∃ result,
    make_trusted_fields_policy fuel fields tool_name kwargs = Returns result ∧
    (result = Allowed ↔
       Forall (λ name, ∃ v, kwargs !! name = Some v ∧ trusted v) fields) ∧
    (∀ reason, result = Denied reason →
       ∃ before name after v,
         fields = before ++ name :: after ∧
         Forall (λ name, ∃ v, kwargs !! name = Some v ∧ trusted v) before ∧
         kwargs !! name = Some v ∧ ¬ trusted v ∧
         reason = String.append name " does not come directly from user").
Proof.
  intros HU Hsz. induction 1 as [|name fields (v & Hv & HvU) _ IH]; simpl.
  - exists Allowed. split; [done|]. split; [done|]. intros reason Hr. discriminate Hr.
  - rewrite Hv.
    destruct (is_trusted_semantics metadata get_dependencies U fuel v HU HvU Hsz)
      as (b & -> & Hiff).
    destruct b.
    + assert (Ht : trusted v) by by apply Hiff.
      destruct IH as (result & -> & Hall & Hden). exists result. split; [done|]. split.
      * rewrite Hall. split.
        -- intros Hf. constructor; [eauto|done].
        -- by inversion 1.
      * intros reason Hr. destruct (Hden reason Hr) as (before & n & after & w & -> & Hb & Hn & Hw & ->).
        exists (name :: before), n, after, w. split; [done|].
        split; [constructor; eauto|done].
    + assert (Ht : ¬ trusted v). { intros Ht. apply Hiff in Ht. done. }
      eexists. split; [done|]. split.
      * split; [done|]. inversion 1 as [|? ? (w & Hw & Htw)]; subst.
        rewrite Hv in Hw. inversion Hw; subst. done.
      * intros reason Hr. inversion Hr; subst. exists [], name, fields, v. by repeat split.
Qed.

End security_policies.

(** ** camel/pipeline_elements/agentdojo_function.py: the labels of tool
    outputs

    The objects the AgentDojo tools return, with the fields the labelling
    functions read. *)

Module calendar_client.
Record CalendarEvent := mkCalendarEvent { participants : list string }.
End calendar_client.

Module cloud_drive_client.
Inductive SharingPermission := r | rw.
#[global] Instance SharingPermission_eq_dec : EqDecision SharingPermission.
Proof. solve_decision. Defined.
Record CloudDriveFile := mkCloudDriveFile {
  owner : string;
  shared_with : gmap string SharingPermission;
}.
End cloud_drive_client.

Module email_client.
Record Email := mkEmail {
  sender : string;
  recipients : list string;
  cc : list string;
  bcc : list string;
}.
Record EmailContact := mkEmailContact { email : string }.
End email_client.

Module banking_client.
Record Transaction := mkTransaction { sender : string; recipient : string }.
End banking_client.

Module slack.
Record Message := mkMessage { sender : string; recipient : string }.
End slack.

Definition _USER_EMAIL : string := "emma.johnson@bluesparrowtech.com".

Definition InnerSourcesSet : Type := gset (string + SourceEnum).

Definition _transform_user_email_to_user (users : list string) : InnerSourcesSet :=
  list_to_set
    (map (λ participant : string,
            if bool_decide (participant ≠ _USER_EMAIL) then inl participant else inr User)
         users).

Definition _get_calendar_event_metadata (event : calendar_client.CalendarEvent)
    (tool : string) : Capabilities :=
  mkCapabilities
    {[ Tool tool (_transform_user_email_to_user (calendar_client.participants event)) ]}
    (SharedWith (list_to_set (calendar_client.participants event))).

Definition _get_cloud_drive_file_metadata (file : cloud_drive_client.CloudDriveFile)
    (tool : string) : Capabilities :=
  let editors : gset string :=
    dom (filter (λ '(u, p), p = cloud_drive_client.rw) (cloud_drive_client.shared_with file))
    ∪ {[ cloud_drive_client.owner file ]} in
  mkCapabilities
    {[ Tool tool (_transform_user_email_to_user (elements editors)) ]}
    (SharedWith (dom (cloud_drive_client.shared_with file))).

Definition _get_email_metadata (email : email_client.Email) (tool : string) : Capabilities :=
  let email_readers : gset string :=
    {[ email_client.sender email ]} ∪ list_to_set (email_client.recipients email)
    ∪ list_to_set (email_client.cc email) ∪ list_to_set (email_client.bcc email) in
  mkCapabilities
    {[ Tool tool (_transform_user_email_to_user [email_client.sender email]) ]}
    (SharedWith email_readers).

Definition _get_email_contact_metadata (email_contact : email_client.EmailContact)
    (tool : string) : Capabilities :=
  mkCapabilities
    {[ Tool tool (_transform_user_email_to_user [email_client.email email_contact]) ]}
    Public.

Definition _get_transaction_metadata (transaction : banking_client.Transaction)
    (tool : string) : Capabilities :=
  let transaction_readers : gset string :=
    {[ banking_client.sender transaction; banking_client.recipient transaction ]} in
  let inner_source : gset (string + SourceEnum) :=
    if bool_decide (banking_client.sender transaction = "me") then {[ inr User ]}
    else {[ inl (banking_client.sender transaction) ]} in
  mkCapabilities {[ Tool tool inner_source ]} (SharedWith transaction_readers).

Definition _get_message_metadata (message : slack.Message) (tool : string) : Capabilities :=
  mkCapabilities {[ Tool tool {[ inl (slack.sender message) ]} ]}
    (SharedWith {[ slack.recipient message ]}).

(** [all(_source_is_trusted(source) for source in sources_set)]: what
    [is_trusted] computes for a value with this label and no dependency. *)
Definition label_is_trusted (c : Capabilities) : bool :=
  forallb _source_is_trusted (elements (sources_set c)).

Lemma label_is_trusted_singleton s r :
  label_is_trusted (mkCapabilities {[ s ]} r) = _source_is_trusted s.
Proof.
  unfold label_is_trusted. simpl. rewrite elements_singleton. simpl. by rewrite andb_true_r.
Qed.

Lemma elem_of_transform i users :
  i ∈ _transform_user_email_to_user users ↔
  ∃ u, u ∈ users ∧ i = if bool_decide (u ≠ _USER_EMAIL) then inl u else inr User.
Proof.
  unfold _transform_user_email_to_user. rewrite elem_of_list_to_set, list_elem_of_fmap.
  split; intros (u & H1 & H2); eauto.
Qed.

Lemma transform_trusted tool users :
  _source_is_trusted (Tool tool (_transform_user_email_to_user users)) = true ↔
  users ≠ [] ∧ ∀ u, u ∈ users → u = _USER_EMAIL.
Proof.
  rewrite _source_is_trusted_spec. split.
  - inversion 1 as [|? ? Hne Hall]; subst. split.
    + intros ->. by apply Hne.
    + intros u Hu. destruct (decide (u = _USER_EMAIL)) as [|Hneq]; [done|].
      assert (Hin : inl u ∈ _transform_user_email_to_user users).
      { apply elem_of_transform. exists u. split; [done|].
        by rewrite bool_decide_eq_true_2. }
      specialize (Hall _ Hin). inversion Hall.
  - intros [Hne Hall]. constructor.
    + destruct users as [|u users]; [done|]. intros Hempty.
      assert (Hin : (if bool_decide (u ≠ _USER_EMAIL) then inl u else inr User)
                    ∈ _transform_user_email_to_user (u :: users)).
      { apply elem_of_transform. exists u. split; [left|done]. }
      rewrite Hempty in Hin. by apply not_elem_of_empty in Hin.
    + intros i Hi. apply elem_of_transform in Hi as (u & Hu & ->).
      rewrite bool_decide_eq_false_2; [|by intros Hn; apply Hn, Hall].
      constructor. unfold trusted_constant. auto.
Qed.

(** The label of an email names as readers exactly its sender and its
    recipients (to, cc and bcc), and it is trusted exactly when the sender is
    the user. *)
Theorem email_metadata_spec (email : email_client.Email) (tool : string) :
  (label_is_trusted (_get_email_metadata email tool) = true ↔
     email_client.sender email = _USER_EMAIL) ∧
  (∀ p, may_read p (readers_set (_get_email_metadata email tool)) ↔
        p = email_client.sender email ∨ p ∈ email_client.recipients email ∨
        p ∈ email_client.cc email ∨ p ∈ email_client.bcc email).
Proof.
  split.
  - unfold _get_email_metadata. rewrite label_is_trusted_singleton, transform_trusted.
    split.
    + intros [_ Hall]. apply Hall. by left.
    + intros Hs. split; [done|]. intros u Hu. apply list_elem_of_singleton in Hu. by subst.
  - intros p. simpl. rewrite !elem_of_union, !elem_of_list_to_set, elem_of_singleton. tauto.
Qed.

(** The label of a calendar event is trusted exactly when the event has a
    participant and every participant is the user; its readers are the
    participants. *)
Theorem calendar_event_metadata_spec (event : calendar_client.CalendarEvent) (tool : string) :
  (label_is_trusted (_get_calendar_event_metadata event tool) = true ↔
     calendar_client.participants event ≠ [] ∧
     ∀ u, u ∈ calendar_client.participants event → u = _USER_EMAIL) ∧
  (∀ p, may_read p (readers_set (_get_calendar_event_metadata event tool)) ↔
        p ∈ calendar_client.participants event).
Proof.
  split.
  - unfold _get_calendar_event_metadata.
    by rewrite label_is_trusted_singleton, transform_trusted.
  - intros p. simpl. by rewrite elem_of_list_to_set.
Qed.

(** The label of a file of the cloud drive is trusted exactly when the
    owner and everyone the file is shared with for writing is the user; its
    readers are those it is shared with, the owner only if listed. *)
Theorem cloud_drive_file_metadata_spec (file : cloud_drive_client.CloudDriveFile)
    (tool : string) :
  (label_is_trusted (_get_cloud_drive_file_metadata file tool) = true ↔
     cloud_drive_client.owner file = _USER_EMAIL ∧
     ∀ u, cloud_drive_client.shared_with file !! u = Some cloud_drive_client.rw →
          u = _USER_EMAIL) ∧
  (∀ p, may_read p (readers_set (_get_cloud_drive_file_metadata file tool)) ↔
        is_Some (cloud_drive_client.shared_with file !! p)).
Proof.
  split.
  - unfold _get_cloud_drive_file_metadata.
    rewrite label_is_trusted_singleton, transform_trusted.
    set (editors := dom _ ∪ _).
    assert (Hed : ∀ u, u ∈ elements editors ↔
              cloud_drive_client.shared_with file !! u = Some cloud_drive_client.rw ∨
              u = cloud_drive_client.owner file).
    { intros u. unfold editors.
      rewrite elem_of_elements, elem_of_union, elem_of_singleton, elem_of_dom.
      unfold is_Some. setoid_rewrite map_lookup_filter_Some. split.
      - intros [(p & Hl & Hp)|Ho]; [left|by right]. simpl in Hp. by subst.
      - intros [Hl|Ho]; [left|by right]. eauto. }
    split.
    + intros [_ Hall]. split.
      * apply Hall, Hed. by right.
      * intros u Hu. apply Hall, Hed. by left.
    + intros [Ho Hall]. split.
      * intros Hnil.
        assert (Hin : cloud_drive_client.owner file ∈ elements editors) by (apply Hed; by right).
        rewrite Hnil in Hin. by apply not_elem_of_nil in Hin.
      * intros u Hu. apply Hed in Hu as [Hu| ->]; auto.
  - intros p. simpl. by rewrite elem_of_dom.
Qed.

(** The label of a bank transaction is trusted exactly when its sender is
    ["me"]; the label of a Slack message is never trusted, whoever sent it.
    The sender of a message is not among its readers unless it is also the
    recipient. *)
Theorem transaction_and_message_metadata_spec (transaction : banking_client.Transaction)
    (message : slack.Message) (tool : string) :
  (label_is_trusted (_get_transaction_metadata transaction tool) = true ↔
     banking_client.sender transaction = "me") ∧
  (∀ p, may_read p (readers_set (_get_transaction_metadata transaction tool)) ↔
        p = banking_client.sender transaction ∨ p = banking_client.recipient transaction) ∧
  label_is_trusted (_get_message_metadata message tool) = false ∧
  (∀ p, may_read p (readers_set (_get_message_metadata message tool)) ↔
        p = slack.recipient message).
Proof.
  split; [|split; [|split]].
  - unfold _get_transaction_metadata. rewrite label_is_trusted_singleton.
    rewrite _source_is_trusted_spec. case_bool_decide as Hme.
    + split; [done|]. intros _. constructor.
      * intros Hempty. assert (Hin : (inr User : string + SourceEnum) ∈ ({[ inr User ]} : gset _))
          by set_solver +.
        rewrite Hempty in Hin. by apply not_elem_of_empty in Hin.
      * intros i Hi. apply elem_of_singleton in Hi as ->. constructor.
        unfold trusted_constant. auto.
    + split; [|done]. inversion 1 as [|? ? _ Hall]; subst.
      assert (Hin : (inl (banking_client.sender transaction) : string + SourceEnum)
                    ∈ ({[ inl (banking_client.sender transaction) ]} : gset _))
        by set_solver +.
      specialize (Hall _ Hin). inversion Hall.
  - intros p. simpl. by rewrite elem_of_union, !elem_of_singleton.
  - unfold _get_message_metadata. rewrite label_is_trusted_singleton.
    apply (tool_source_not_trusted_inner tool _ (slack.sender message)). set_solver +.
  - intros p. simpl. by rewrite elem_of_singleton.
Qed.

(** ** More on camel/interpreter/namespace.py *)

Section namespace_facts.

Context {Val : Type}.

(** [Namespace.with_builtins(variables)]:
    [cls(variables=BUILT_IN_FUNCTIONS | BUILT_IN_CLASSES | (variables or {}))];
    the two dicts of [library.py] are given. *)
Definition with_builtins (BUILT_IN_FUNCTIONS BUILT_IN_CLASSES : gmap string Val)
    (σ : gmap nat (gmap string Val)) (variables_ : option nat)
    : option (gmap nat (gmap string Val) * @Namespace) :=
  match variables_ with
  | None =>
      let l := fresh (dom σ) in
      Some (<[l := BUILT_IN_CLASSES ∪ BUILT_IN_FUNCTIONS]> σ, mkNamespace l)
  | Some r =>
      match σ !! r with
      | Some d =>
          let l := fresh (dom σ) in
          Some (<[l := d ∪ (BUILT_IN_CLASSES ∪ BUILT_IN_FUNCTIONS)]> σ, mkNamespace l)
      | None => None
      end
  end.

(** [set_variable] and [get]: the binding just set is the one read back
    through every namespace that holds the same dict; the other names of
    that dict, and every other dict, are as before. *)
Theorem set_variable_get (σ : gmap nat (gmap string Val)) (n : Namespace)
    (name : string) (value : Val) (dn : gmap string Val) :
  σ !! variables n = Some dn →
  ∃ σ', set_variable σ n name value = Some σ' ∧
    (∀ n', variables n' = variables n → get σ' n' name = Some (Some value)) ∧
    (∀ k, k ≠ name → get σ' n k = get σ n k) ∧
    (∀ n' k, variables n' ≠ variables n → get σ' n' k = get σ n' k).
Proof.
  intros Hn. unfold set_variable. rewrite Hn. eexists. split; [done|]. repeat split.
  - intros n' Hn'. unfold get. rewrite Hn', lookup_insert_eq. by rewrite lookup_insert_eq.
  - intros k Hk. unfold get. rewrite lookup_insert_eq, Hn. by rewrite lookup_insert_ne.
  - intros n' k Hne. unfold get. by rewrite lookup_insert_ne.
Qed.

(** [with_builtins]: a name is looked up in the given variables first, then
    among the built-in classes, then among the built-in functions; the
    namespace holds a dict of its own, and the given dict is unchanged. *)
Theorem with_builtins_lookup (functions classes : gmap string Val)
    (σ : gmap nat (gmap string Val)) (r : nat) (d : gmap string Val) :
  σ !! r = Some d →
  ∃ σ' n,
    with_builtins functions classes σ (Some r) = Some (σ', n) ∧
    (∀ k, get σ' n k
          = Some (match d !! k with
                  | Some v => Some v
                  | None => match classes !! k with
                            | Some v => Some v
                            | None => functions !! k
                            end
                  end)) ∧
    variables n ≠ r ∧
    (∀ l, l ∈ dom σ → σ' !! l = σ !! l).
Proof.
  intros Hr. unfold with_builtins. rewrite Hr. set (l := fresh (dom σ)).
  assert (Hl : σ !! l = None) by (apply not_elem_of_dom, is_fresh).
  eexists _, _. split; [done|]. repeat split.
  - intros k. unfold get. simpl. rewrite lookup_insert_eq. f_equal.
    rewrite !lookup_union. destruct (d !! k), (classes !! k), (functions !! k); done.
  - simpl. intros ->. congruence.
  - intros l' Hl'. rewrite lookup_insert_ne; [done|]. intros <-.
    apply elem_of_dom in Hl' as [? ?]. congruence.
Qed.

End namespace_facts.

Lemma set_variable_get_witness :
  example_dicts !! variables (mkNamespace 0) = Some {[ "x" := 1%Z; "y" := 2%Z ]} ∧
  ∃ σ', set_variable example_dicts (mkNamespace 0) "y" 9%Z = Some σ' ∧
    (∀ n', variables n' = variables (mkNamespace 0) → get σ' n' "y" = Some (Some 9%Z)) ∧
    (∀ k, k ≠ "y" → get σ' (mkNamespace 0) k = get example_dicts (mkNamespace 0) k) ∧
    (∀ n' k, variables n' ≠ variables (mkNamespace 0) →
             get σ' n' k = get example_dicts n' k).
Proof.
  split; [reflexivity|].
  apply (set_variable_get example_dicts (mkNamespace 0) "y" 9%Z
           {[ "x" := 1%Z; "y" := 2%Z ]}). reflexivity.
Defined.

Lemma with_builtins_lookup_witness :
  example_dicts !! 1 = Some {[ "y" := 5%Z; "z" := 7%Z ]} ∧
  ∃ σ' n,
    with_builtins {[ "len" := 0%Z; "y" := 3%Z ]} {[ "len" := 4%Z ]} example_dicts (Some 1)
    = Some (σ', n) ∧
    (∀ k, get σ' n k
          = Some (match ({[ "y" := 5%Z; "z" := 7%Z ]} : gmap string Z) !! k with
                  | Some v => Some v
                  | None => match ({[ "len" := 4%Z ]} : gmap string Z) !! k with
                            | Some v => Some v
                            | None => ({[ "len" := 0%Z; "y" := 3%Z ]} : gmap string Z) !! k
                            end
                  end)) ∧
    variables n ≠ 1 ∧
    (∀ l, l ∈ dom example_dicts → σ' !! l = example_dicts !! l).
Proof.
  split; [reflexivity|].
  apply (with_builtins_lookup {[ "len" := 0%Z; "y" := 3%Z ]} {[ "len" := 4%Z ]}
           example_dicts 1). reflexivity.
Defined.

(** ** More on camel/interpreter/value.py *)

Section value_facts.

Context {float : Type}.
Variable rt : @PythonRuntime float.

Local Abbreviation store := (@store float).
Local Abbreviation CaMeLValue := (@CaMeLValue float).

(** Every identity a container holds is a value of the store. *)
Definition elements_allocated (st : store) (els : list nat) : Prop :=
  Forall (λ el, is_Some (values st !! el)) els.

Lemma py_index_spec (n : nat) (z : Z) (i : nat) :
  py_index n z = Some i ↔
  (0 ≤ z < Z.of_nat n ∧ i = Z.to_nat z)%Z ∨
  (- Z.of_nat n ≤ z < 0 ∧ i = Z.to_nat (Z.of_nat n + z))%Z.
Proof.
  unfold py_index.
  destruct (0 <=? z)%Z eqn:H0; destruct (z <? Z.of_nat n)%Z eqn:Hn; simpl;
    destruct (z <? 0)%Z eqn:Hneg; destruct (- Z.of_nat n <=? z)%Z eqn:Hlow; simpl;
    rewrite ?Z.leb_le, ?Z.leb_gt, ?Z.ltb_lt, ?Z.ltb_ge in *;
    (split; [intros Hi; try discriminate Hi; inversion Hi; subst; lia
            |intros [[? ->]|[? ->]]; try lia; done]).
Qed.

Lemma py_index_lt (n : nat) (z : Z) (i : nat) : py_index n z = Some i → i < n.
Proof. rewrite py_index_spec. lia. Qed.

Lemma py_index_none (n : nat) (z : Z) :
  py_index n z = None ↔ (z < - Z.of_nat n ∨ Z.of_nat n ≤ z)%Z.
Proof.
  unfold py_index.
  destruct (0 <=? z)%Z eqn:H0; destruct (z <? Z.of_nat n)%Z eqn:Hn; simpl;
    destruct (z <? 0)%Z eqn:Hneg; destruct (- Z.of_nat n <=? z)%Z eqn:Hlow; simpl;
    rewrite ?Z.leb_le, ?Z.leb_gt, ?Z.ltb_lt, ?Z.ltb_ge in *;
    (split; [intros Hi; try discriminate Hi; lia|intros ?; try lia; done]).
Qed.

(** [seq[i]] on a string, a tuple or a list of [n] elements, [i] an int:
    for [0 <= i < n] the result is a copy of element [i], for [-n <= i < 0]
    a copy of element [n + i], in both cases with the sequence and the index
    added to its dependencies and with its own label; any other [i] raises
    [IndexError].  The store is otherwise unchanged. *)
Theorem index_spec (st : store) (self index_ : nat) (p : payload) (els : list nat) (z : Z) :
  python_value_of st self = Some p →
  sequence_elements st p = Some els →
  elements_allocated st els →
  python_value_of st index_ = Some (VInt (PyInt z)) →
  (∀ i, (0 ≤ z < Z.of_nat (length els) ∧ i = Z.to_nat z)%Z ∨
        (- Z.of_nat (length els) ≤ z < 0 ∧ i = Z.to_nat (Z.of_nat (length els) + z))%Z →
     ∃ el o,
       els !! i = Some el ∧ values st !! el = Some o ∧
       index st self index_
       = Returns (new_value st
           (mkValue (_python_value o) (_metadata o) (_dependencies o ++ [self; index_])))) ∧
  ((z < - Z.of_nat (length els) ∨ Z.of_nat (length els) ≤ z)%Z →
     index st self index_ = Raises IndexError).
Proof.
  intros Hp Hels Hall Hi. unfold index. rewrite Hp, Hi.
  assert (Hseq : match p with VStr _ | VTuple _ | VList _ => True | _ => False end).
  { by destruct p. }
  split.
  - intros i Hrange. apply py_index_spec in Hrange as Hpy.
    destruct (lookup_lt_is_Some_2 els i (py_index_lt _ _ _ Hpy)) as [el Hel].
    assert (Ho : is_Some (values st !! el)).
    { unfold elements_allocated in Hall. rewrite Forall_forall in Hall. apply Hall.
      by eapply list_elem_of_lookup_2. }
    destruct Ho as [o Ho]. exists el, o. split; [done|]. split; [done|].
    destruct p; try done; rewrite Hels; simpl; rewrite Hpy, Hel;
      unfold new_with_dependencies; by rewrite Ho.
  - intros Hout. apply py_index_none in Hout.
    destruct p; try done; rewrite Hels; simpl; by rewrite Hout.
Qed.

(** [l[i] = v] then [m[i]], for every value [m] that holds the same Python
    list as [l] ([m] may be [l] itself or a copy of it): the assignment
    returns a [None] that depends on [l] and [i], and the read that follows
    returns a copy of [v] that depends on [m] and [i]; the length of the list
    is unchanged. *)
Theorem set_index_then_index (st : store) (self other index_ value : nat) (r : nat)
    (els : list nat) (z : Z) (i : nat) (o : CaMeLValue) :
  python_value_of st self = Some (VList r) →
  python_value_of st other = Some (VList r) →
  objects st !! r = Some (OList els) →
  python_value_of st index_ = Some (VInt (PyInt z)) →
  py_index (length els) z = Some i →
  values st !! value = Some o →
  ∃ st1 none,
    set_index st self index_ value = Returns (st1, none) ∧
    values st1 !! none = Some (CaMeLNone Capabilities_.camel [self; index_]) ∧
    objects st1 !! r = Some (OList (<[i := value]> els)) ∧
    index st1 other index_
    = Returns (new_value st1
        (mkValue (_python_value o) (_metadata o) (_dependencies o ++ [other; index_]))).
Proof.
  intros Hs Ho Hr Hi Hpy Hv. unfold set_index. rewrite Hs, Hi. simpl. rewrite Hr, Hpy.
  eexists _, _. split; [done|].
  assert (Hlt : r < length (objects st)) by (eapply lookup_lt_Some; eauto).
  assert (Hilt : i < length els) by (eapply py_index_lt; eauto).
  split; [|split].
  - simpl. by rewrite lookup_app_r, Nat.sub_diag.
  - simpl. by rewrite list_lookup_insert_eq.
  - unfold index, python_value_of in *. simpl.
    destruct (values st !! other) as [oo|] eqn:Hoo; [|done].
    destruct (values st !! index_) as [oi|] eqn:Hoi; [|done].
    rewrite (lookup_app_l_Some _ _ _ _ Hoo), (lookup_app_l_Some _ _ _ _ Hoi).
    inversion Ho as [Hpo]. inversion Hi as [Hpi]. rewrite Hpo, Hpi. simpl.
    rewrite list_lookup_insert_eq by done. rewrite length_insert, Hpy.
    rewrite list_lookup_insert_eq by done.
    unfold new_with_dependencies. simpl. by rewrite (lookup_app_l_Some _ _ _ _ Hv).
Qed.

(** *** [get_dependencies] on values that nest finitely *)

(** [v] is a value of the store whose containers nest at most [n] deep:
    a scalar, or a container whose members nest at most [n - 1] deep. *)
Fixpoint nested_within (st : store) (n : nat) (v : nat) {struct n} : bool :=
  match values st !! v with
  | None => false
  | Some o =>
      match _python_value o with
      | VStr _ | VTuple _ | VList _ | VSet _ =>
          match n, iterable_elements st (_python_value o) with
          | S n', Some els => forallb (nested_within st n') els
          | _, _ => false
          end
      | VDict _ =>
          match n, mapping_items st (_python_value o) with
          | S n', Some items =>
              forallb (λ '(k, x), nested_within st n' k && nested_within st n' x) items
          | _, _ => false
          end
      | _ => true
      end
  end.

Lemma foldM_is_Some {A B : Type} (f : B → A → option B) (l : list A) :
  (∀ b x, x ∈ l → is_Some (f b x)) → ∀ b, is_Some (foldM f b l).
Proof.
  induction l as [|x l IH]; intros Hf b; simpl; [eauto|].
  destruct (Hf b x) as [b' ->]; [by left|]. apply IH. intros b0 y Hy. apply Hf. by right.
Qed.

(** On a value whose containers nest finitely (no container holds itself,
    directly or through others), [get_dependencies] returns, whatever set of
    visited identities it is given. *)
Theorem get_dependencies_returns_when_nested (st : store) (n : nat) :
  ∀ v fuel vis, nested_within st n v = true → n < fuel →
    is_Some (get_dependencies fuel st v vis).
Proof.
  induction n as [|n IH]; intros v fuel vis Hn Hf;
    (destruct fuel as [|fuel]; [lia|]); simpl in Hn;
    destruct (values st !! v) as [o|] eqn:Ho; try done.
  - simpl. rewrite Ho. by destruct (_python_value o).
  - destruct (is_iterable (_python_value o)) eqn:Hit.
    + destruct (iterable_elements st (_python_value o)) as [els|] eqn:Hels;
        [|by destruct (_python_value o)].
      assert (Hall : forallb (nested_within st n) els = true)
        by (by destruct (_python_value o)).
      destruct (decide (v ∈ vis)) as [Hin|Hnin].
      * rewrite (get_dependencies_revisit fuel st v vis o els); eauto.
      * rewrite (get_dependencies_iterable fuel st v vis o els); [|done..].
        match goal with |- is_Some (match ?f with _ => _ end) =>
          assert (Hs : is_Some f); [|destruct Hs as [[ds vis'] ->]; eauto] end.
        apply foldM_is_Some. intros [ds vis'] el Hel.
        rewrite forallb_forall in Hall. specialize (Hall el).
        rewrite <- list_elem_of_In in Hall. specialize (Hall Hel).
        destruct (IH el fuel (vis' ∪ {[ v ]}) Hall) as [[nd nv] ->]; [lia|]. eauto.
    + simpl. rewrite Ho. destruct (_python_value o) eqn:Hp; try done; eauto.
      destruct (mapping_items st (VDict ref)) as [items|] eqn:Hitems; [|done].
      destruct (decide (v ∈ vis)); [eauto|].
      apply foldM_is_Some. intros [ds vis'] [k x] Hkx.
      rewrite forallb_forall in Hn. specialize (Hn (k, x)).
      rewrite <- list_elem_of_In in Hn. specialize (Hn Hkx).
      apply andb_true_iff in Hn as [Hk Hx].
      destruct (IH k fuel vis' Hk) as [[kd kv] ->]; [lia|].
      destruct (IH x fuel kv Hx) as [[xd xv] ->]; [lia|]. eauto.
Qed.

(** *** The arguments of a call, by keyword *)

Local Abbreviation assign := (λ (m : gmap string (@PyVal float)) '(k, v), <[k := v]> m).

Lemma assign_member (l : list (string * @PyVal float)) (m : gmap string PyVal) k v :
  (k, v) ∈ l → NoDup l.*1 → fold_left assign l m !! k = Some v.
Proof.
  revert m. induction l as [|[k' v'] l IH]; intros m Hin Hnd; [by apply not_elem_of_nil in Hin|].
  simpl in *. apply NoDup_cons in Hnd as [Hk' Hnd].
  apply elem_of_cons in Hin as [Heq|Hin].
  - inversion Heq; subst. clear IH Hnd.
    assert (Hgen : ∀ (l : list (string * PyVal)) (m : gmap string PyVal),
      k' ∉ l.*1 → fold_left assign l m !! k' = m !! k').
    { clear. intros l. induction l as [|[a b] l IH]; intros m Hn; [done|]. simpl in *.
      apply not_elem_of_cons in Hn as [Hne Hn]. rewrite IH by done.
      by rewrite lookup_insert_ne. }
    rewrite Hgen by done. by rewrite lookup_insert_eq.
  - by apply IH.
Qed.

Lemma assign_other (l : list (string * @PyVal float)) (m : gmap string PyVal) k :
  k ∉ l.*1 → fold_left assign l m !! k = m !! k.
Proof.
  revert m. induction l as [|[a b] l IH]; intros m Hn; [done|]. simpl in *.
  apply not_elem_of_cons in Hn as [Hne Hn]. rewrite IH by done.
  by rewrite lookup_insert_ne.
Qed.

Lemma assign_origin (l : list (string * @PyVal float)) (m : gmap string PyVal) k v :
  fold_left assign l m !! k = Some v → (k, v) ∈ l ∨ m !! k = Some v.
Proof.
  revert m. induction l as [|[a b] l IH]; intros m Hl; [by right|]. simpl in *.
  apply IH in Hl as [Hin|Hm]; [left; by right|].
  destruct (decide (a = k)) as [->|Hne].
  - rewrite lookup_insert_eq in Hm. inversion Hm; subst. left. by left.
  - rewrite lookup_insert_ne in Hm by done. by right.
Qed.

Lemma zip_member {A B : Type} (xs : list A) (ys : list B) x y :
  (x, y) ∈ zip xs ys ↔ ∃ i, xs !! i = Some x ∧ ys !! i = Some y.
Proof.
  revert ys. induction xs as [|a xs IH]; intros [|b ys]; simpl.
  - split; [by intros ?%not_elem_of_nil|by intros (i & ? & ?)].
  - split; [by intros ?%not_elem_of_nil|by intros (i & ? & ?)].
  - split; [by intros ?%not_elem_of_nil|by intros ([|i] & ? & ?)].
  - rewrite elem_of_cons, IH. split.
    + intros [Heq|(i & Hx & Hy)]; [inversion Heq; subst; by exists 0|by exists (S i)].
    + intros ([|i] & Hx & Hy); simpl in *; [left; congruence|right; eauto].
Qed.

Lemma zip_keys_NoDup {A B : Type} (xs : list A) (ys : list B) :
  NoDup xs → NoDup (zip xs ys).*1.
Proof.
  intros Hnd. revert ys. induction Hnd as [|a xs Ha Hnd IH]; intros [|b ys]; simpl;
    try constructor; [|by apply IH].
  intros Hin. apply list_elem_of_fmap in Hin as ([a' b'] & -> & Hin). simpl in *.
  apply zip_member in Hin as (i & Hx & _). apply Ha. by eapply list_elem_of_lookup_2.
Qed.

(** agentdojo_function.py, [make_args_by_keyword_preserve_values] of a
    tool: a keyword argument is passed under its name, and wins over a
    positional argument of that name; the [i]-th positional argument is
    passed under the name of the [i]-th parameter of the tool; nothing else
    is passed, so a positional argument beyond the parameters of the tool is
    dropped. *)
Theorem tool_arguments_by_keyword (tool_parameters : string → list string) (fuel : nat)
    (st : store) (name : string) (args kwargs : nat)
    (pos : list PyVal) (kw : list (string * PyVal)) :
  raw_positional rt fuel st args = Some pos →
  raw_keywords rt fuel st kwargs = Some kw →
  NoDup (tool_parameters name) → NoDup kw.*1 →
  ∃ m,
    AgentDojoFunction_make_args_by_keyword rt tool_parameters fuel st name args kwargs
    = Some m ∧
    (∀ k v, (k, v) ∈ kw → m !! k = Some v) ∧
    (∀ i p v, tool_parameters name !! i = Some p → pos !! i = Some v → p ∉ kw.*1 →
              m !! p = Some v) ∧
    (∀ k v, m !! k = Some v →
            (k, v) ∈ kw ∨ ∃ i, tool_parameters name !! i = Some k ∧ pos !! i = Some v).
Proof.
  intros Hpos Hkw Hnp Hnk. unfold AgentDojoFunction_make_args_by_keyword.
  rewrite Hpos, Hkw. eexists. split; [done|]. unfold dict_of. rewrite fold_left_app.
  split; [|split].
  - intros k v Hin. by apply assign_member.
  - intros i p v Hp Hv Hn. rewrite assign_other by done.
    apply assign_member; [|by apply zip_keys_NoDup]. apply zip_member. eauto.
  - intros k v Hm. apply assign_origin in Hm as [Hin|Hm]; [by left|].
    apply assign_origin in Hm as [Hin|Hm]; [|by rewrite lookup_empty in Hm].
    right. by apply zip_member.
Qed.

End value_facts.

(** ** [value_from_raw] *)

Section value_from_raw.

Context {float : Type}.
Variable rt : @PythonRuntime float.

Local Abbreviation store := (@store float).
Local Abbreviation PyVal := (@PyVal float).

(** The last case but one of [value_from_raw]: an instance of a class the
    namespace knows, converted attribute by attribute or wrapped;
    [UndefinedClassError] for an instance of any other class. *)
Variable instance_from_raw :
  store → string → list (string * PyVal) → Capabilities → list nat → outcome (store * nat).

(** [[f(val) for val in l]], each call in the store the call before left. *)
Definition convert_all (f : store → PyVal → outcome (store * nat))
    : store → list PyVal → outcome (store * list nat) :=
  fix go (st : store) (l : list PyVal) : outcome (store * list nat) :=
    match l with
    | [] => Returns (st, [])
    | val :: l' =>
        match f st val with
        | Returns (st1, v) =>
            match go st1 l' with
            | Returns (st2, vs) => Returns (st2, v :: vs)
            | ReturnsNotImplemented => ReturnsNotImplemented
            | Raises e => Raises e
            | NoReturn => NoReturn
            end
        | ReturnsNotImplemented => ReturnsNotImplemented
        | Raises e => Raises e
        | NoReturn => NoReturn
        end
    end.

(** [{f(k): g(v) for k, v in l}] *)
Definition convert_items (f g : store → PyVal → outcome (store * nat))
    : store → list (PyVal * PyVal) → outcome (store * list (nat * nat)) :=
  fix go (st : store) (l : list (PyVal * PyVal)) : outcome (store * list (nat * nat)) :=
    match l with
    | [] => Returns (st, [])
    | (k, v) :: l' =>
        match f st k with
        | Returns (st1, ck) =>
            match g st1 v with
            | Returns (st2, cv) =>
                match go st2 l' with
                | Returns (st3, kvs) => Returns (st3, (ck, cv) :: kvs)
                | ReturnsNotImplemented => ReturnsNotImplemented
                | Raises e => Raises e
                | NoReturn => NoReturn
                end
            | ReturnsNotImplemented => ReturnsNotImplemented
            | Raises e => Raises e
            | NoReturn => NoReturn
            end
        | ReturnsNotImplemented => ReturnsNotImplemented
        | Raises e => Raises e
        | NoReturn => NoReturn
        end
    end.

(** A container value around a new Python object. *)
Definition new_container (st : store) (o : PyObj) (p : nat → payload)
    (metadata : Capabilities) (dependencies : list nat) : store * nat :=
  let '(st1, r) := new_object st o in
  new_value st1 (mkValue (p r) metadata dependencies).

(** [value_from_raw(raw_value, metadata, namespace, dependencies)], by the
    class of [raw_value].  The members of a container are converted first,
    labelled [camel()] and without dependencies (the values of a dict are
    labelled [metadata]).  The decorator [conditional_lru_cache] does not
    change what the function computes. *)
Fixpoint value_from_raw (st : store) (raw_value : PyVal) (metadata : Capabilities)
    (dependencies : list nat) {struct raw_value} : outcome (store * nat) :=
  match raw_value with
  | PyBool b => Returns (new_value st (CaMeLBool b metadata dependencies))
  | PyInt z => Returns (new_value st (CaMeLInt (PyInt z) metadata dependencies))
  | PyStr s => Returns (from_raw st s metadata dependencies)
  | PyFloat f => Returns (new_value st (CaMeLFloat (PyFloat f) metadata dependencies))
  | PyNone => Returns (new_value st (CaMeLNone metadata dependencies))
  | PyList l =>
      match convert_all (λ st val, value_from_raw st val Capabilities_.camel []) st l with
      | Returns (st1, els) =>
          Returns (new_container st1 (OList els) VList metadata dependencies)
      | ReturnsNotImplemented => ReturnsNotImplemented
      | Raises e => Raises e
      | NoReturn => NoReturn
      end
  | PyDict l =>
      match convert_items (λ st k, value_from_raw st k Capabilities_.camel [])
                          (λ st v, value_from_raw st v metadata []) st l with
      | Returns (st1, items) =>
          Returns (new_container st1 (ODict items) VDict metadata dependencies)
      | ReturnsNotImplemented => ReturnsNotImplemented
      | Raises e => Raises e
      | NoReturn => NoReturn
      end
  | PySet l =>
      match convert_all (λ st val, value_from_raw st val Capabilities_.camel []) st l with
      | Returns (st1, els) =>
          Returns (new_container st1 (OSet els) VSet metadata dependencies)
      | ReturnsNotImplemented => ReturnsNotImplemented
      | Raises e => Raises e
      | NoReturn => NoReturn
      end
  | PyTuple l =>
      match convert_all (λ st val, value_from_raw st val Capabilities_.camel []) st l with
      | Returns (st1, els) =>
          Returns (new_value st1 (mkValue (VTuple els) metadata dependencies))
      | ReturnsNotImplemented => ReturnsNotImplemented
      | Raises e => Raises e
      | NoReturn => NoReturn
      end
  | PyFunction name =>
      Returns (new_value st (mkValue (VFunction name false) metadata dependencies))
  | PyObject class_name fields =>
      instance_from_raw st class_name fields metadata dependencies
  end.

(** *** What [value_from_raw] builds reads back as the raw value *)

(** Raw data that holds no set and no class instance, and whose dicts have
    pairwise different keys (as every Python dict has). *)
Fixpoint plain_raw (x : PyVal) : Prop :=
  match x with
  | PyTuple l | PyList l =>
      (fix all (l : list PyVal) : Prop :=
         match l with [] => True | y :: l' => plain_raw y ∧ all l' end) l
  | PyDict l =>
      (fix all (l : list (PyVal * PyVal)) : Prop :=
         match l with [] => True | (k, v) :: l' => plain_raw k ∧ plain_raw v ∧ all l' end) l
      ∧ fold_left (λ d '(k, v), py_dict_set rt d k v) l [] = l
  | PySet _ | PyObject _ _ => False
  | _ => True
  end.

Lemma plain_raw_all (l : list PyVal) :
  (fix all (l : list PyVal) : Prop :=
     match l with [] => True | y :: l' => plain_raw y ∧ all l' end) l ↔ Forall plain_raw l.
Proof.
  induction l as [|y l IH]; [by split|]. rewrite Forall_cons, <- IH. done.
Qed.

Lemma plain_raw_items (l : list (PyVal * PyVal)) :
  (fix all (l : list (PyVal * PyVal)) : Prop :=
     match l with [] => True | (k, v) :: l' => plain_raw k ∧ plain_raw v ∧ all l' end) l
  ↔ Forall (λ kv, plain_raw kv.1 ∧ plain_raw kv.2) l.
Proof.
  induction l as [|[k v] l IH]; [by split|]. rewrite Forall_cons, <- IH. simpl. tauto.
Qed.

Lemma PyVal_nested_ind (P : PyVal → Prop) :
  P PyNone → (∀ b, P (PyBool b)) → (∀ z, P (PyInt z)) → (∀ f, P (PyFloat f)) →
  (∀ s, P (PyStr s)) →
  (∀ l, Forall P l → P (PyTuple l)) →
  (∀ l, Forall P l → P (PyList l)) →
  (∀ l, P (PySet l)) →
  (∀ l, Forall (λ kv, P kv.1 ∧ P kv.2) l → P (PyDict l)) →
  (∀ name, P (PyFunction name)) →
  (∀ c fields, P (PyObject c fields)) →
  ∀ x, P x.
Proof.
  intros HN HB HI HF HS HT HL HSet HD HFn HO. fix IH 1.
  intros [|b|z|f|s|l|l|l|l|name|c fields];
    [exact HN|exact (HB b)|exact (HI z)|exact (HF f)|exact (HS s)| | |exact (HSet l)|
     |exact (HFn name)|exact (HO c fields)].
  - apply HT. induction l as [|y l IHl]; constructor; [apply IH|exact IHl].
  - apply HL. induction l as [|y l IHl]; constructor; [apply IH|exact IHl].
  - apply HD. induction l as [|[k v] l IHl]; constructor; [split; apply IH|exact IHl].
Qed.

(** [st'] is [st] with more values and more Python objects, the old ones
    unchanged. *)
Definition extends (st st' : store) : Prop :=
  values st `prefix_of` values st' ∧ objects st `prefix_of` objects st'.

Lemma extends_refl st : extends st st.
Proof. by split. Qed.

Lemma extends_trans st1 st2 st3 : extends st1 st2 → extends st2 st3 → extends st1 st3.
Proof. intros [? ?] [? ?]. split; by etrans. Qed.

Lemma extends_new_value st o : extends st (new_value st o).1.
Proof. split; simpl; [by apply prefix_app_r|done]. Qed.

Lemma extends_new_object st o : extends st (new_object st o).1.
Proof. split; simpl; [done|by apply prefix_app_r]. Qed.

Lemma extends_value st st' v o :
  extends st st' → values st !! v = Some o → values st' !! v = Some o.
Proof. intros [Hv _] Ho. by eapply prefix_lookup_Some. Qed.

Lemma extends_object st st' r o :
  extends st st' → objects st !! r = Some o → objects st' !! r = Some o.
Proof. intros [_ Hv] Ho. by eapply prefix_lookup_Some. Qed.

Lemma extends_python_value st st' v p :
  extends st st' → python_value_of st v = Some p → python_value_of st' v = Some p.
Proof.
  intros He. unfold python_value_of. destruct (values st !! v) as [o|] eqn:Ho; [|done].
  by rewrite (extends_value _ _ _ _ He Ho).
Qed.

Lemma extends_iterable_elements st st' p els :
  extends st st' → iterable_elements st p = Some els → iterable_elements st' p = Some els.
Proof.
  intros He. destruct p; simpl; try done;
    (destruct (objects st !! ref) as [o|] eqn:Ho; [|done]);
    rewrite (extends_object _ _ _ _ He Ho); done.
Qed.

Lemma extends_mapping_items st st' p items :
  extends st st' → mapping_items st p = Some items → mapping_items st' p = Some items.
Proof.
  intros He. destruct p; simpl; try done.
  destruct (objects st !! ref) as [o|] eqn:Ho; [|done].
  by rewrite (extends_object _ _ _ _ He Ho).
Qed.

Lemma mapM_opt_impl {A B : Type} (f g : A → option B) (l : list A) (ys : list B) :
  (∀ x y, x ∈ l → f x = Some y → g x = Some y) →
  mapM_opt f l = Some ys → mapM_opt g l = Some ys.
Proof.
  revert ys. induction l as [|x l IH]; intros ys Hfg Hf; simpl in *; [done|].
  destruct (f x) as [y|] eqn:Hx; [|done]. rewrite (Hfg x y); [|by left|done].
  destruct (mapM_opt f l) as [ys'|] eqn:Hl; [|done].
  rewrite (IH ys'); [done| |done]. intros x' y' Hin. apply Hfg. by right.
Qed.

(** [raw] reads the same in a store that extends the one it was read in,
    and with a larger recursion budget. *)
Lemma raw_mono fuel :
  ∀ fuel' st st' v x, raw rt fuel st v = Some x → fuel ≤ fuel' → extends st st' →
    raw rt fuel' st' v = Some x.
Proof.
  induction fuel as [|fuel IH]; intros fuel' st st' v x Hr Hf He; [done|].
  destruct fuel' as [|fuel']; [lia|]. simpl in *.
  destruct (python_value_of st v) as [p|] eqn:Hp; [|done].
  rewrite (extends_python_value _ _ _ _ He Hp).
  assert (Hrec : ∀ els l, mapM_opt (raw rt fuel st) els = Some l →
                          mapM_opt (raw rt fuel' st') els = Some l).
  { intros els l. apply mapM_opt_impl. intros y ry _ Hy. eapply IH; eauto. lia. }
  destruct p; try done.
  - (* VStr *)
    destruct (mapM_opt _ chars) as [l|] eqn:Hl; [|done].
    erewrite mapM_opt_impl; [exact Hr| |exact Hl].
    intros c s _ Hc. simpl in Hc.
    destruct (python_value_of st c) as [q|] eqn:Hq; [|done].
    by rewrite (extends_python_value _ _ _ _ He Hq).
  - (* VTuple *)
    destruct (mapM_opt (raw rt fuel st) els) as [l|] eqn:Hl; [|done].
    by rewrite (Hrec _ _ Hl).
  - (* VList *)
    destruct (iterable_elements st (VList ref)) as [els|] eqn:Hels; [|done].
    rewrite (extends_iterable_elements _ _ _ _ He Hels).
    destruct (mapM_opt (raw rt fuel st) els) as [l|] eqn:Hl; [|done].
    by rewrite (Hrec _ _ Hl).
  - (* VSet *)
    destruct (iterable_elements st (VSet ref)) as [els|] eqn:Hels; [|done].
    rewrite (extends_iterable_elements _ _ _ _ He Hels).
    destruct (mapM_opt (raw rt fuel st) els) as [l|] eqn:Hl; [|done].
    by rewrite (Hrec _ _ Hl).
  - (* VDict *)
    destruct (mapping_items st (VDict ref)) as [items|] eqn:Hitems; [|done].
    rewrite (extends_mapping_items _ _ _ _ He Hitems).
    destruct (mapM_opt _ items) as [l|] eqn:Hl; [|done].
    erewrite mapM_opt_impl; [exact Hr| |exact Hl].
    intros [k w] [rk rw] _ Hkw. simpl in *.
    destruct (raw rt fuel st k) as [rk'|] eqn:Hk; [|done].
    destruct (raw rt fuel st w) as [rw'|] eqn:Hw; [|done].
    rewrite (IH fuel' st st' k rk'), (IH fuel' st st' w rw'); auto; lia.
  - (* VWrapper *)
    destruct (objects st !! ref) as [o|] eqn:Ho; [|done].
    by rewrite (extends_object _ _ _ _ He Ho).
Qed.

Fixpoint chars_of (s : string) : list string :=
  match s with
  | EmptyString => []
  | String c s' => String c EmptyString :: chars_of s'
  end.

Lemma concat_chars_of (s : string) : String.concat "" (chars_of s) = s.
Proof.
  induction s as [|c s IH]; [done|]. simpl. destruct s as [|c' s]; [done|].
  simpl in *. by rewrite IH.
Qed.

Definition char_of (st : store) (c : nat) : option string :=
  match python_value_of st c with
  | Some (VChar s) => Some s
  | _ => None
  end.

Lemma from_raw_chars_spec (s : string) :
  ∀ st metadata dependencies st1 chars,
    from_raw_chars st s metadata dependencies = (st1, chars) →
    extends st st1 ∧ mapM_opt (char_of st1) chars = Some (chars_of s).
Proof.
  induction s as [|c s IH]; intros st md deps st1 chars Hf; simpl in Hf.
  - inversion Hf; subst. split; [apply extends_refl|done].
  - destruct (from_raw_chars (mkStore (values st ++ [mkValue (VChar (String c EmptyString)) md deps])
                                      (objects st)) s md deps) as [st2 vs] eqn:Hrec.
    inversion Hf; subst. apply IH in Hrec as [He Hm].
    assert (He0 : extends st (mkStore (values st ++ [mkValue (VChar (String c EmptyString)) md deps])
                                      (objects st))).
    { apply (extends_new_value st (mkValue (VChar (String c EmptyString)) md deps)). }
    split; [by eapply extends_trans|]. simpl. rewrite Hm.
    assert (Hpv : python_value_of st1 (length (values st)) = Some (VChar (String c EmptyString))).
    { eapply extends_python_value; [exact He|].
      unfold python_value_of. simpl. by rewrite lookup_app_r, Nat.sub_diag. }
    unfold char_of at 1. by rewrite Hpv.
Qed.

(** [raw] returns [x] on [v], with any recursion budget from some point on. *)
Definition reads_back (st : store) (v : nat) (x : PyVal) : Prop :=
  ∃ n, ∀ fuel, n ≤ fuel → raw rt fuel st v = Some x.

(** [f] turns [x] into a value that reads back as [x], in any store. *)
Definition converts (f : store → PyVal → outcome (store * nat)) (x : PyVal) : Prop :=
  ∀ st, ∃ st' v, f st x = Returns (st', v) ∧ extends st st' ∧ reads_back st' v x.

Lemma convert_all_spec (f : store → PyVal → outcome (store * nat)) (l : list PyVal) :
  Forall (converts f) l →
  ∀ st, ∃ st1 els,
    convert_all f st l = Returns (st1, els) ∧ extends st st1 ∧
    ∃ n, ∀ fuel, n ≤ fuel → mapM_opt (raw rt fuel st1) els = Some l.
Proof.
  induction 1 as [|x l Hx _ IH]; intros st; simpl.
  - exists st, []. split; [done|]. split; [apply extends_refl|]. by exists 0.
  - destruct (Hx st) as (st1 & v & -> & He1 & n1 & Hr1).
    destruct (IH st1) as (st2 & vs & -> & He2 & n2 & Hr2).
    exists st2, (v :: vs). split; [done|]. split; [by eapply extends_trans|].
    exists (Nat.max n1 n2). intros fuel Hf. simpl.
    rewrite (raw_mono fuel fuel st1 st2 v x); [|apply Hr1; lia|lia|done].
    rewrite Hr2 by lia. done.
Qed.

Lemma convert_items_spec (f g : store → PyVal → outcome (store * nat))
    (l : list (PyVal * PyVal)) :
  Forall (λ kv, converts f kv.1 ∧ converts g kv.2) l →
  ∀ st, ∃ st1 items,
    convert_items f g st l = Returns (st1, items) ∧ extends st st1 ∧
    ∃ n, ∀ fuel, n ≤ fuel →
      mapM_opt (λ '(k, v), match raw rt fuel st1 k, raw rt fuel st1 v with
                           | Some rk, Some rv => Some (rk, rv)
                           | _, _ => None
                           end) items = Some l.
Proof.
  induction 1 as [|[k w] l [Hk Hw] _ IH]; intros st; simpl in *.
  - exists st, []. split; [done|]. split; [apply extends_refl|]. by exists 0.
  - destruct (Hk st) as (st1 & ck & -> & He1 & n1 & Hr1).
    destruct (Hw st1) as (st2 & cw & -> & He2 & n2 & Hr2).
    destruct (IH st2) as (st3 & kvs & -> & He3 & n3 & Hr3).
    exists st3, ((ck, cw) :: kvs). split; [done|].
    split; [eapply extends_trans; [|exact He3]; by eapply extends_trans|].
    exists (Nat.max (Nat.max n1 n2) n3). intros fuel Hf. simpl.
    rewrite (raw_mono fuel fuel st1 st3 ck k);
      [|apply Hr1; lia|lia|by eapply extends_trans].
    rewrite (raw_mono fuel fuel st2 st3 cw w); [|apply Hr2; lia|lia|done].
    rewrite Hr3 by lia. done.
Qed.

(** What one conversion has done. *)
Definition converted (st : store) (x : PyVal) (metadata : Capabilities)
    (dependencies : list nat) (st' : store) (v : nat) : Prop :=
  extends st st' ∧
  (∃ p, values st' !! v = Some (mkValue p metadata dependencies)) ∧
  reads_back st' v x.

Lemma new_value_converted (st : store) (p : payload) (x : PyVal)
    (metadata : Capabilities) (dependencies : list nat) :
  scalar_raw p = Some x ∨ (∃ name, p = VFunction name false ∧ x = PyFunction name) →
  converted st x metadata dependencies
    (new_value st (mkValue p metadata dependencies)).1
    (new_value st (mkValue p metadata dependencies)).2.
Proof.
  intros Hp. split; [apply extends_new_value|]. simpl. split.
  - exists p. by rewrite lookup_app_r, Nat.sub_diag.
  - exists 1. intros [|fuel] Hf; [lia|]. simpl. unfold python_value_of. simpl.
    rewrite lookup_app_r, Nat.sub_diag by done. simpl.
    destruct Hp as [Hs|(name & -> & ->)]; [|done]. by destruct p.
Qed.

Lemma value_from_raw_converts (x : PyVal) :
  plain_raw x →
  ∀ st metadata dependencies, ∃ st' v,
    value_from_raw st x metadata dependencies = Returns (st', v) ∧
    converted st x metadata dependencies st' v.
Proof.
  induction x as [|b|z|f|s|l IH|l IH|l|l IH|name|c fields] using PyVal_nested_ind;
    intros Hplain st md deps.
  - eexists _, _. split; [done|]. apply new_value_converted. by left.
  - eexists _, _. split; [done|]. apply new_value_converted. by left.
  - eexists _, _. split; [done|]. apply new_value_converted. by left.
  - eexists _, _. split; [done|]. apply new_value_converted. by left.
  - (* str *)
    simpl. unfold from_raw.
    destruct (from_raw_chars st s md deps) as [st1 chars] eqn:Hc.
    apply from_raw_chars_spec in Hc as [He Hm].
    eexists _, _. split; [done|]. split; [|split].
    + eapply extends_trans; [exact He|]. apply extends_new_value.
    + exists (VStr chars). simpl. by rewrite lookup_app_r, Nat.sub_diag.
    + exists 1. intros [|fuel] Hf; [lia|]. simpl. unfold python_value_of at 1. simpl.
      rewrite lookup_app_r, Nat.sub_diag by done. simpl.
      erewrite (mapM_opt_impl (char_of st1)); [by rewrite concat_chars_of| |exact Hm].
      intros ch t _ Ht. unfold char_of in Ht.
      destruct (python_value_of st1 ch) as [q|] eqn:Hq; [|done].
      assert (Hq' : python_value_of (new_value st1 (mkValue (VStr chars) md deps)).1 ch = Some q).
      { eapply extends_python_value; [|exact Hq]. apply extends_new_value. }
      simpl in Hq'. rewrite Hq'. exact Ht.
  - (* tuple *)
    simpl in Hplain. apply plain_raw_all in Hplain.
    assert (Hall : Forall (converts (λ st val,
              value_from_raw st val Capabilities_.camel [])) l).
    { apply Forall_forall. intros y Hy st0.
      rewrite Forall_forall in IH, Hplain.
      destruct (IH y Hy (Hplain y Hy) st0 Capabilities_.camel [])
        as (st' & v & Hv & He & _ & Hr).
      eauto. }
    destruct (convert_all_spec _ l Hall st) as (st1 & els & Hc & He & n & Hr).
    simpl. rewrite Hc. eexists _, _. split; [done|]. split; [|split].
    + eapply extends_trans; [exact He|]. apply extends_new_value.
    + exists (VTuple els). simpl. by rewrite lookup_app_r, Nat.sub_diag.
    + exists (S n). intros [|fuel] Hf; [lia|]. simpl. unfold python_value_of at 1. simpl.
      rewrite lookup_app_r, Nat.sub_diag by done. simpl.
      erewrite mapM_opt_impl; [done| |apply (Hr fuel); lia].
      intros y ry _ Hy. eapply raw_mono; [exact Hy|done|].
      apply (extends_new_value st1 (mkValue (VTuple els) md deps)).
  - (* list *)
    simpl in Hplain. apply plain_raw_all in Hplain.
    assert (Hall : Forall (converts (λ st val,
              value_from_raw st val Capabilities_.camel [])) l).
    { apply Forall_forall. intros y Hy st0.
      rewrite Forall_forall in IH, Hplain.
      destruct (IH y Hy (Hplain y Hy) st0 Capabilities_.camel [])
        as (st' & v & Hv & He & _ & Hr).
      eauto. }
    destruct (convert_all_spec _ l Hall st) as (st1 & els & Hc & He & n & Hr).
    simpl. rewrite Hc. unfold new_container. simpl.
    set (st2 := mkStore (values st1) (objects st1 ++ [OList els])).
    assert (He2 : extends st1 st2) by apply (extends_new_object st1 (OList els)).
    set (o := mkValue (VList (length (objects st1))) md deps).
    assert (He3 : extends st2 (new_value st2 o).1) by apply extends_new_value.
    eexists _, _. split; [done|]. split; [|split].
    + eapply extends_trans; [exact He|]. by eapply extends_trans.
    + exists (VList (length (objects st1))). simpl. by rewrite lookup_app_r, Nat.sub_diag.
    + exists (S n). intros [|fuel] Hf; [lia|]. simpl. unfold python_value_of at 1. simpl.
      rewrite lookup_app_r, Nat.sub_diag by done. simpl.
      rewrite lookup_app_r, Nat.sub_diag by done. simpl.
      erewrite mapM_opt_impl; [done| |apply (Hr fuel); lia].
      intros y ry _ Hy. eapply raw_mono; [exact Hy|done|]. by eapply extends_trans.
  - (* set *) done.
  - (* dict *)
    simpl in Hplain. destruct Hplain as [Hplain Hkeys]. apply plain_raw_items in Hplain.
    assert (Hall : Forall (λ kv,
              converts (λ st k, value_from_raw st k Capabilities_.camel [])
                       kv.1 ∧
              converts (λ st v, value_from_raw st v md []) kv.2) l).
    { apply Forall_forall. intros [k w] Hkw.
      rewrite Forall_forall in IH, Hplain.
      destruct (IH _ Hkw) as [IHk IHw]. destruct (Hplain _ Hkw) as [Hpk Hpw]. simpl in *.
      split; intros st0.
      - destruct (IHk Hpk st0 Capabilities_.camel []) as (st' & v & Hv & He & _ & Hr). eauto.
      - destruct (IHw Hpw st0 md []) as (st' & v & Hv & He & _ & Hr). eauto. }
    destruct (convert_items_spec _ _ l Hall st) as (st1 & items & Hc & He & n & Hr).
    simpl. rewrite Hc. unfold new_container. simpl.
    set (st2 := mkStore (values st1) (objects st1 ++ [ODict items])).
    assert (He2 : extends st1 st2) by apply (extends_new_object st1 (ODict items)).
    set (o := mkValue (VDict (length (objects st1))) md deps).
    assert (He3 : extends st2 (new_value st2 o).1) by apply extends_new_value.
    eexists _, _. split; [done|]. split; [|split].
    + eapply extends_trans; [exact He|]. by eapply extends_trans.
    + exists (VDict (length (objects st1))). simpl. by rewrite lookup_app_r, Nat.sub_diag.
    + exists (S n). intros [|fuel] Hf; [lia|]. simpl. unfold python_value_of at 1. simpl.
      rewrite lookup_app_r, Nat.sub_diag by done. simpl.
      rewrite lookup_app_r, Nat.sub_diag by done. simpl.
      erewrite mapM_opt_impl; [by rewrite Hkeys| |apply (Hr fuel); lia].
      intros [k w] [rk rw] _ Hkw. simpl in *.
      destruct (raw rt fuel st1 k) as [rk'|] eqn:Hk; [|done].
      destruct (raw rt fuel st1 w) as [rw'|] eqn:Hw; [|done].
      assert (He13 : extends st1 (new_value st2 o).1) by by eapply extends_trans.
      assert (Hk' := raw_mono fuel fuel st1 _ k rk' Hk (le_n _) He13).
      assert (Hw' := raw_mono fuel fuel st1 _ w rw' Hw (le_n _) He13).
      subst st2 o. simpl in Hk', Hw'. by rewrite Hk', Hw'.
  - (* function *)
    eexists _, _. split; [done|]. apply new_value_converted. right. eauto.
  - done.
Qed.

(** [value_from_raw] on raw data (no set, no class instance) returns a value
    that carries the given label and dependencies and whose [raw] is the data
    it was made from; every value and Python object that existed before is
    unchanged. *)
Theorem value_from_raw_round_trip (st : store) (x : PyVal) (metadata : Capabilities)
    (dependencies : list nat) :
  plain_raw x →
  ∃ st' v,
    value_from_raw st x metadata dependencies = Returns (st', v) ∧
    extends st st' ∧
    metadata_of st' v = metadata ∧
    (∃ o, values st' !! v = Some o ∧ _dependencies o = dependencies) ∧
    ∃ n, ∀ fuel, n ≤ fuel → raw rt fuel st' v = Some x.
Proof.
  intros Hplain.
  destruct (value_from_raw_converts x Hplain st metadata dependencies)
    as (st' & v & Hv & He & (p & Hp) & Hr).
  exists st', v. split; [done|]. split; [done|]. split; [|split; [|done]].
  - unfold metadata_of. by rewrite Hp.
  - eauto.
Qed.

End value_from_raw.

(** ** camel/conditional_cache.py *)

Section conditional_cache.

Context {K R : Type} `{Countable K}.
(** [hash(arg)] does not raise [TypeError] on any argument. *)
Variable all_args_hashable : K → bool.

(** A function wrapped by [functools.lru_cache], with its cache: one call
    returns the result, the cache after it, and how often the wrapped
    function ran (not at all on a hit). *)
Definition lru_cache (func : K → R) (cache : gmap K R) (args : K) : R * gmap K R * nat :=
  match cache !! args with
  | Some result => (result, cache, 0)
  | None => let result := func args in (result, <[args := result]> cache, 1)
  end.

(** The [wrapper] that [conditional_lru_cache] returns: [cached_func],
    and with it a new cache, is made inside the call. *)
Definition conditional_lru_cache (func : K → R) (args : K) : R * nat :=
  if all_args_hashable args then
    let '(result, _, runs) := lru_cache func ∅ args in (result, runs)
  else (func args, 1).

(** A sequence of calls of the decorated function: the results, and how
    often the function ran. *)
Fixpoint calls (func : K → R) (l : list K) : list R * nat :=
  match l with
  | [] => ([], 0)
  | args :: l' =>
      let '(result, runs) := conditional_lru_cache func args in
      let '(results, runs') := calls func l' in
      (result :: results, runs + runs')
  end.

(** The decorator caches nothing: over any sequence of calls, with
    arguments repeated or not, the function runs once per call, and every
    call returns what the function returns. *)
Theorem conditional_lru_cache_never_hits (func : K → R) (l : list K) :
  calls func l = (map func l, length l).
Proof.
  induction l as [|args l IH]; [done|]. simpl. rewrite IH.
  unfold conditional_lru_cache, lru_cache. rewrite lookup_empty.
  by destruct (all_args_hashable args).
Qed.

End conditional_cache.

(** ** Closed instances of the theorems above *)

Definition example_kwargs : gmap string nat :=
  {[ "recipient" := 1; "subject" := 2; "amount" := 0; "date" := 0;
     "url" := 0; "content" := 2; "body" := 2; "participants" := 2 ]}.

Definition example_raw (v : nat) : string := "alice".
Definition example_repr_readers (r : Readers) : string := "readers".
Definition example_repr_recipients (s : gset string) : string := "recipients".

Lemma send_money_policy_allows_witness :
  closed_under_dependencies example_dependencies example_graph ∧
  size example_graph < 4 ∧
  example_kwargs !! "recipient" = Some 1 ∧ 1 ∈ example_graph ∧
  example_kwargs !! "subject" = Some 2 ∧ 2 ∈ example_graph ∧
  example_kwargs !! "amount" = Some 0 ∧ 0 ∈ example_graph ∧
  example_kwargs !! "date" = Some 0 ∧
  ∃ result,
    send_money_policy example_metadata example_dependencies example_raw
      example_repr_readers example_repr_recipients 4 "send_money" example_kwargs
    = Returns result ∧
    (result = Allowed ↔
       trusted_throughout example_metadata example_dependencies 1 ∧
       readable_by example_metadata example_dependencies {[ example_raw 1 ]} 2 ∧
       readable_by example_metadata example_dependencies {[ example_raw 1 ]} 0 ∧
       readable_by example_metadata example_dependencies {[ example_raw 1 ]} 0).
Proof.
  split; [exact example_graph_closed|]. split; [vm_compute; lia|].
  split; [reflexivity|]. split; [set_solver +|].
  split; [reflexivity|]. split; [set_solver +|].
  split; [reflexivity|]. split; [set_solver +|].
  split; [reflexivity|].
  apply (send_money_policy_allows example_metadata example_dependencies example_raw
           example_repr_readers example_repr_recipients example_graph 4 "send_money"
           example_kwargs 1 2 0 0);
    first [exact example_graph_closed | reflexivity | set_solver + | (vm_compute; lia)].
Defined.

Lemma send_direct_message_policy_allows_witness :
  closed_under_dependencies example_dependencies example_graph ∧
  size example_graph < 4 ∧
  example_kwargs !! "recipient" = Some 1 ∧ 1 ∈ example_graph ∧
  (trusted_throughout example_metadata example_dependencies 1 →
   send_direct_message_policy example_metadata example_dependencies example_raw 4
     "send_direct_message" example_kwargs = Returns Allowed) ∧
  (∀ body, example_kwargs !! "body" = Some body → body ∈ example_graph →
     ∃ result,
       send_direct_message_policy example_metadata example_dependencies example_raw 4
         "send_direct_message" example_kwargs = Returns result ∧
       (result = Allowed ↔
          trusted_throughout example_metadata example_dependencies 1 ∨
          readable_by example_metadata example_dependencies {[ example_raw 1 ]} body)).
Proof.
  split; [exact example_graph_closed|]. split; [vm_compute; lia|].
  split; [reflexivity|]. split; [set_solver +|].
  apply (send_direct_message_policy_allows example_metadata example_dependencies example_raw
           example_graph 4 "send_direct_message" example_kwargs 1);
    first [exact example_graph_closed | reflexivity | set_solver + | (vm_compute; lia)].
Defined.

Lemma post_webpage_policy_allows_witness :
  closed_under_dependencies example_dependencies example_graph ∧
  size example_graph < 4 ∧
  example_kwargs !! "url" = Some 0 ∧ 0 ∈ example_graph ∧
  example_kwargs !! "content" = Some 2 ∧ 2 ∈ example_graph ∧
  ∃ result,
    post_webpage_policy example_metadata example_dependencies 4 "post_webpage" example_kwargs
    = Returns result ∧
    (result = Allowed ↔
       public_throughout example_metadata example_dependencies 0 ∧
       public_throughout example_metadata example_dependencies 2).
Proof.
  split; [exact example_graph_closed|]. split; [vm_compute; lia|].
  split; [reflexivity|]. split; [set_solver +|].
  split; [reflexivity|]. split; [set_solver +|].
  apply (post_webpage_policy_allows example_metadata example_dependencies example_graph 4
           "post_webpage" example_kwargs 0 2);
    first [exact example_graph_closed | reflexivity | set_solver + | (vm_compute; lia)].
Defined.

Lemma create_calendar_event_policy_never_denies_witness :
  closed_under_dependencies example_dependencies example_graph ∧
  size example_graph < 4 ∧
  example_kwargs !! "participants" = Some 2 ∧ 2 ∈ example_graph ∧
  ((trusted_throughout example_metadata example_dependencies 2 ∧
    create_calendar_event_policy example_metadata example_dependencies 4
      "create_calendar_event" example_kwargs = Returns Allowed) ∨
   (¬ trusted_throughout example_metadata example_dependencies 2 ∧
    create_calendar_event_policy example_metadata example_dependencies 4
      "create_calendar_event" example_kwargs = Raises NotImplementedError)).
Proof.
  split; [exact example_graph_closed|]. split; [vm_compute; lia|].
  split; [reflexivity|]. split; [set_solver +|].
  apply (create_calendar_event_policy_never_denies example_metadata example_dependencies
           example_graph 4 "create_calendar_event" example_kwargs 2);
    first [exact example_graph_closed | reflexivity | set_solver + | (vm_compute; lia)].
Defined.

Lemma example_arguments_in :
  arguments_in example_graph example_kwargs ["recipient"; "subject"].
Proof.
  repeat constructor; eexists; (split; [reflexivity|set_solver +]).
Qed.

Lemma make_trusted_fields_policy_allows_witness :
  closed_under_dependencies example_dependencies example_graph ∧
  size example_graph < 4 ∧
  arguments_in example_graph example_kwargs ["recipient"; "subject"] ∧
  ∃ result,
    make_trusted_fields_policy example_metadata example_dependencies 4
      ["recipient"; "subject"] "reserve_hotel" example_kwargs = Returns result ∧
    (result = Allowed ↔
       Forall (λ name, ∃ v, example_kwargs !! name = Some v ∧
                            trusted_throughout example_metadata example_dependencies v)
              ["recipient"; "subject"]) ∧
    (∀ reason, result = Denied reason →
       ∃ before name after v,
         ["recipient"; "subject"] = before ++ name :: after ∧
         Forall (λ name, ∃ v, example_kwargs !! name = Some v ∧
                              trusted_throughout example_metadata example_dependencies v)
                before ∧
         example_kwargs !! name = Some v ∧
         ¬ trusted_throughout example_metadata example_dependencies v ∧
         reason = String.append name " does not come directly from user").
Proof.
  split; [exact example_graph_closed|]. split; [vm_compute; lia|].
  split; [exact example_arguments_in|].
  apply (make_trusted_fields_policy_allows example_metadata example_dependencies
           example_graph 4 ["recipient"; "subject"] "reserve_hotel" example_kwargs);
    first [exact example_graph_closed | exact example_arguments_in | (vm_compute; lia)].
Defined.

(** *** Values *)

(** The list [[10, 20]], held by two values, the indices [-1] and [0], and
    the integer [7]. *)
Definition shared_list : @store Empty_set :=
  mkStore [int_value 10; int_value 20; list_value 0; int_value (-1); list_value 0;
           int_value 0; int_value 7]
          [OList [0; 1]].

Lemma index_spec_witness :
  python_value_of shared_list 2 = Some (VList 0) ∧
  sequence_elements shared_list (VList 0) = Some [0; 1] ∧
  elements_allocated shared_list [0; 1] ∧
  python_value_of shared_list 3 = Some (VInt (PyInt (-1))) ∧
  (∀ i, (0 ≤ -1 < Z.of_nat (length [0; 1]) ∧ i = Z.to_nat (-1))%Z ∨
        (- Z.of_nat (length [0; 1]) ≤ -1 < 0 ∧
         i = Z.to_nat (Z.of_nat (length [0; 1]) + -1))%Z →
     ∃ el o,
       [0; 1] !! i = Some el ∧ values shared_list !! el = Some o ∧
       index shared_list 2 3
       = Returns (new_value shared_list
           (mkValue (_python_value o) (_metadata o) (_dependencies o ++ [2; 3])))) ∧
  ((-1 < - Z.of_nat (length [0; 1]) ∨ Z.of_nat (length [0; 1]) ≤ -1)%Z →
     index shared_list 2 3 = Raises IndexError).
Proof.
  assert (Hall : elements_allocated shared_list [0; 1]).
  { repeat constructor; eexists; reflexivity. }
  split; [reflexivity|]. split; [reflexivity|]. split; [exact Hall|]. split; [reflexivity|].
  apply (index_spec shared_list 2 3 (VList 0) [0; 1] (-1));
    first [reflexivity | exact Hall].
Defined.

Lemma set_index_then_index_witness :
  python_value_of shared_list 2 = Some (VList 0) ∧
  python_value_of shared_list 4 = Some (VList 0) ∧
  objects shared_list !! 0 = Some (OList [0; 1]) ∧
  python_value_of shared_list 5 = Some (VInt (PyInt 0)) ∧
  py_index (length [0; 1]) 0 = Some 0 ∧
  values shared_list !! 6 = Some (int_value 7) ∧
  ∃ st1 none,
    set_index shared_list 2 5 6 = Returns (st1, none) ∧
    values st1 !! none = Some (CaMeLNone Capabilities_.camel [2; 5]) ∧
    objects st1 !! 0 = Some (OList (<[0 := 6]> [0; 1])) ∧
    index st1 4 5
    = Returns (new_value st1
        (mkValue (_python_value (int_value 7)) (_metadata (int_value 7))
                 (_dependencies (int_value 7) ++ [4; 5]))).
Proof.
  split; [reflexivity|]. split; [reflexivity|]. split; [reflexivity|].
  split; [reflexivity|]. split; [reflexivity|]. split; [reflexivity|].
  apply (set_index_then_index shared_list 2 4 5 6 0 [0; 1] 0 0 (int_value 7)); reflexivity.
Defined.

Lemma get_dependencies_returns_when_nested_witness :
  nested_within prefix_lists 1 4 = true ∧ 1 < 2 ∧
  is_Some (get_dependencies 2 prefix_lists 4 ∅).
Proof.
  split; [reflexivity|]. split; [lia|].
  apply (get_dependencies_returns_when_nested prefix_lists 1 4 2 ∅); [reflexivity|lia].
Defined.

Lemma tool_arguments_by_keyword_witness :
  raw_positional integer_runtime 3 (call_store "append_item" true) 3
  = Some [PyList [PyInt 1]] ∧
  raw_keywords integer_runtime 3 (call_store "append_item" true) 4 = Some [] ∧
  NoDup (example_tool_parameters "append_item") ∧
  NoDup ([] : list (string * @PyVal Empty_set)).*1 ∧
  ∃ m,
    AgentDojoFunction_make_args_by_keyword integer_runtime example_tool_parameters 3
      (call_store "append_item" true) "append_item" 3 4 = Some m ∧
    (∀ k v, (k, v) ∈ ([] : list (string * @PyVal Empty_set)) → m !! k = Some v) ∧
    (∀ i p v, example_tool_parameters "append_item" !! i = Some p →
              [PyList [PyInt 1]] !! i = Some v →
              p ∉ ([] : list (string * @PyVal Empty_set)).*1 → m !! p = Some v) ∧
    (∀ k v, m !! k = Some v →
            (k, v) ∈ ([] : list (string * @PyVal Empty_set)) ∨
            ∃ i, example_tool_parameters "append_item" !! i = Some k ∧
                 [PyList [PyInt 1]] !! i = Some v).
Proof.
  split; [reflexivity|]. split; [reflexivity|].
  split; [apply NoDup_singleton|]. split; [apply NoDup_nil_2|].
  apply (tool_arguments_by_keyword integer_runtime example_tool_parameters 3
           (call_store "append_item" true) "append_item" 3 4 [PyList [PyInt 1]] []);
    first [reflexivity | apply NoDup_singleton | apply NoDup_nil_2].
Defined.

(** No class is known: an instance of any class is refused. *)
Definition no_instance_from_raw (st : @store Empty_set) (class_name : string)
    (fields : list (string * @PyVal Empty_set)) (metadata : Capabilities)
    (dependencies : list nat) : outcome (@store Empty_set * nat) :=
  Raises UndefinedClassError.

Definition example_raw_value : @PyVal Empty_set :=
  PyDict [(PyStr "to", PyList [PyStr "bob"; PyInt 2]); (PyInt 1, PyTuple [PyNone; PyBool true])].

Lemma example_raw_value_plain : plain_raw integer_runtime example_raw_value.
Proof. simpl. split; [tauto|reflexivity]. Qed.

Lemma value_from_raw_round_trip_witness :
  plain_raw integer_runtime example_raw_value ∧
  ∃ st' v,
    value_from_raw no_instance_from_raw (mkStore [] []) example_raw_value
      Capabilities_.default [] = Returns (st', v) ∧
    extends (mkStore [] []) st' ∧
    metadata_of st' v = Capabilities_.default ∧
    (∃ o, values st' !! v = Some o ∧ _dependencies o = []) ∧
    ∃ n, ∀ fuel, n ≤ fuel → raw integer_runtime fuel st' v = Some example_raw_value.
Proof.
  split; [exact example_raw_value_plain|].
  apply (value_from_raw_round_trip integer_runtime no_instance_from_raw (mkStore [] [])
           example_raw_value Capabilities_.default []).
  exact example_raw_value_plain.
Defined.

(** ** More on containers *)

Section container_facts.

Context {float : Type}.
Variable rt : @PythonRuntime float.

Local Abbreviation store := (@store float).
Local Abbreviation CaMeLValue := (@CaMeLValue float).
Local Abbreviation PyVal := (@PyVal float).

(** [self._python_value[dict_key]] for a key object of the dict *)
Fixpoint item_of (items : list (nat * nat)) (dict_key : nat) : option nat :=
  match items with
  | [] => None
  | (k, v) :: items' => if decide (k = dict_key) then Some v else item_of items' dict_key
  end.

(** [CaMeLMapping.get] *)
Definition mapping_get (fuel : nat) (st : store) (self key : nat) : outcome (store * nat) :=
  match python_value_of st self with
  | Some p =>
      match p with
      | VDict _ =>
          match mapping_items st p with
          | Some items =>
              match first_equal rt fuel st (map fst items) key with
              | Some (Some dict_key) =>
                  match item_of items dict_key with
                  | Some v => new_with_dependencies st v [self; key]
                  | None => Raises KeyError
                  end
              | Some None => Raises KeyError
              | None => NoReturn
              end
          | None => NoReturn
          end
      | _ => Raises AttributeError
      end
  | None => NoReturn
  end.

(** [d[key]] on a dict: the result is a copy of the value stored under the
    first key of [d] that equals [key], with the dict and [key] added to its
    dependencies; [KeyError] when no key of [d] equals [key]. *)
Theorem mapping_get_spec (fuel : nat) (st : store) (self key : nat) (r : nat)
    (items : list (nat * nat)) :
  python_value_of st self = Some (VDict r) →
  mapping_items st (VDict r) = Some items →
  (∀ pre k v post o,
     items = pre ++ (k, v) :: post →
     Forall (λ x, eq_raw rt fuel st x key = Some false) (map fst pre) →
     eq_raw rt fuel st k key = Some true →
     values st !! v = Some o →
     mapping_get fuel st self key
     = Returns (new_value st
         (mkValue (_python_value o) (_metadata o) (_dependencies o ++ [self; key])))) ∧
  (Forall (λ x, eq_raw rt fuel st x key = Some false) (map fst items) →
   mapping_get fuel st self key = Raises KeyError).
Proof.
  intros Hs Hitems. unfold mapping_get. rewrite Hs, Hitems. split.
  - intros pre k v post o -> Hpre Hk Ho.
    assert (Hf : first_equal rt fuel st (map fst (pre ++ (k, v) :: post)) key = Some (Some k)).
    { apply first_equal_found. exists (map fst pre), (map fst post).
      split; [by rewrite map_app|done]. }
    rewrite Hf.
    assert (Hi : item_of (pre ++ (k, v) :: post) k = Some v).
    { clear Hf Hitems. induction pre as [|[k' v'] pre IH]; simpl in *.
      - by rewrite decide_True.
      - inversion Hpre as [|? ? Hk' Hrest]; subst.
        rewrite decide_False; [by apply IH|]. intros ->. congruence. }
    rewrite Hi. unfold new_with_dependencies. by rewrite Ho.
  - intros Hall. apply first_equal_none in Hall. by rewrite Hall.
Qed.

(** *** [get_dependencies] on a container of scalars *)

(** [oe] is the value object of [el], a value whose class inherits
    [CaMeLValue.get_dependencies]. *)
Definition scalar_object (st : store) (el : nat) (oe : CaMeLValue) : Prop :=
  values st !! el = Some oe ∧ has_default_get_dependencies (_python_value oe) = true.

(** [get_dependencies()[0]] of a string, tuple, list or set whose members
    are scalars: the container's own dependencies, followed by those of its
    members in order.  The members themselves are not part of it. *)
Theorem get_dependencies_of_scalars (fuel : nat) (st : store) (self : nat) (o : CaMeLValue)
    (els : list nat) (os : list CaMeLValue) :
  values st !! self = Some o →
  is_iterable (_python_value o) = true →
  iterable_elements st (_python_value o) = Some els →
  Forall2 (scalar_object st) els os →
  dependencies_of (S (S fuel)) st self
  = Some (_dependencies o ++ concat (map _dependencies os)).
Proof.
  intros Ho Hit Hels Hall. unfold dependencies_of.
  rewrite (get_dependencies_iterable (S fuel) st self ∅ o els); [|done..|set_solver +].
  assert (Hfold : ∀ acc vis, ∃ vis',
    foldM (λ '(dependencies, visited_objects) el,
             match get_dependencies (S fuel) st el (visited_objects ∪ {[ self ]}) with
             | Some (new_dependencies, visited_objects) =>
                 Some (dependencies ++ new_dependencies, visited_objects)
             | None => None
             end) (acc, vis) els
    = Some (acc ++ concat (map _dependencies os), vis')).
  { clear Hels. induction Hall as [|el oe els os [Hoe Hsc] _ IH]; intros acc vis;
      cbn [foldM map concat].
    - exists vis. by rewrite app_nil_r.
    - rewrite (get_dependencies_default fuel st el (vis ∪ {[ self ]}) oe Hoe Hsc).
      destruct (IH (acc ++ _dependencies oe) {[ el ]}) as [vis' ->].
      exists vis'. by rewrite <- app_assoc. }
  destruct (Hfold (_dependencies o) ∅) as [vis' ->]. done.
Qed.

(** *** Equality of two lists of the same length *)

(** The payload of a [CaMeLNone], a Bool, a [CaMeLInt] holding an int, a
    [CaMeLFloat] holding a float, or a character. *)
Definition plain_scalar (p : @payload float) : bool :=
  match p with
  | VNone | VBool _ | VInt (PyInt _) | VFloat (PyFloat _) | VChar _ => true
  | _ => false
  end.

Definition plain_scalar_object (st : store) (el : nat) (oe : CaMeLValue) : Prop :=
  values st !! el = Some oe ∧ plain_scalar (_python_value oe) = true.

Lemma scalar_eq_raw (fuel : nat) (st : store) (x y : nat) (ox oy : CaMeLValue) :
  plain_scalar_object st x ox → plain_scalar_object st y oy →
  ∃ rx ry,
    raw rt (S fuel) st x = Some rx ∧ raw rt (S fuel) st y = Some ry ∧
    eq_raw rt (S fuel) st x y = Some (py_eqb rt rx ry).
Proof.
  intros [Hx Hsx] [Hy Hsy]. simpl. unfold python_value_of. rewrite Hx, Hy.
  destruct (_python_value ox) as [|bx|nx|nx|cx| | | | | |fx tx|] eqn:Hpx; try done;
    try (destruct nx; try done);
    (destruct (_python_value oy) as [|by_|ny|ny|cy| | | | | |fy ty|] eqn:Hpy; try done;
     try (destruct ny; try done));
    simpl; eexists _, _; (split; [done|]); (split; [done|]); done.
Qed.

(** [l == m] on two lists of scalars of the same length returns the Bool
    that Python's [==] gives on their raw payloads, with dependencies
    [(l, m)]. *)
Theorem eq_lists_of_same_length (fuel : nat) (st : store) (self value : nat) (r1 r2 : nat)
    (xs ys : list nat) (oxs oys : list CaMeLValue) :
  python_value_of st self = Some (VList r1) →
  python_value_of st value = Some (VList r2) →
  objects st !! r1 = Some (OList xs) →
  objects st !! r2 = Some (OList ys) →
  Forall2 (plain_scalar_object st) xs oxs →
  Forall2 (plain_scalar_object st) ys oys →
  length xs = length ys →
  ∃ lx ly,
    raw rt (S (S fuel)) st self = Some (PyList lx) ∧
    raw rt (S (S fuel)) st value = Some (PyList ly) ∧
    eq rt (S (S fuel)) st self value
    = Returns (new_value st
        (CaMeLBool (py_eqb rt (PyList lx) (PyList ly)) Capabilities_.camel [self; value])).
Proof.
  intros Hs Hv Hr1 Hr2 Hxs Hys Hlen.
  assert (Hzip : ∃ lx ly,
    mapM_opt (raw rt (S fuel) st) xs = Some lx ∧
    mapM_opt (raw rt (S fuel) st) ys = Some ly ∧
    zip_eq (eq_raw rt (S fuel) st) xs ys = Some (py_eqb rt (PyList lx) (PyList ly))).
  { clear Hs Hv Hr1 Hr2. revert ys oys Hys Hlen.
    induction Hxs as [|x ox xs oxs Hx _ IH]; intros ys oys Hys Hlen.
    - destruct ys; [|done]. exists [], []. by repeat split.
    - destruct ys as [|y ys]; [done|]. inversion Hys as [|? oy ? oys' Hy Hys']; subst.
      destruct (scalar_eq_raw fuel st x y ox oy Hx Hy) as (rx & ry & Hrx & Hry & He).
      destruct (IH ys oys' Hys') as (lx & ly & Hlx & Hly & Hz); [by inversion Hlen|].
      exists (rx :: lx), (ry :: ly).
      cbn [mapM_opt zip_eq]. rewrite Hrx, Hry, Hlx, Hly, He, Hz.
      split; [done|]. split; [done|]. simpl. by destruct (py_eqb rt rx ry). }
  destruct Hzip as (lx & ly & Hlx & Hly & Hz). exists lx, ly.
  remember (S fuel) as n eqn:Hn. clear Hn. split; [|split].
  - simpl. rewrite Hs. simpl. rewrite Hr1. by rewrite Hlx.
  - simpl. rewrite Hv. simpl. rewrite Hr2. by rewrite Hly.
  - unfold eq. simpl. rewrite Hs, Hv. simpl. rewrite Hr1, Hr2. by rewrite Hz.
Qed.

End container_facts.

(** The dict [{1: 5}] and a second [1]. *)
Definition small_dict : @store Empty_set :=
  mkStore [int_value 1; int_value 5; mkValue (VDict 0) Capabilities_.default []; int_value 1]
          [ODict [(0, 1)]].

Lemma mapping_get_spec_witness :
  python_value_of small_dict 2 = Some (VDict 0) ∧
  mapping_items small_dict (VDict 0) = Some [(0, 1)] ∧
  (∀ pre k v post o,
     [(0, 1)] = pre ++ (k, v) :: post →
     Forall (λ x, eq_raw integer_runtime 2 small_dict x 3 = Some false) (map fst pre) →
     eq_raw integer_runtime 2 small_dict k 3 = Some true →
     values small_dict !! v = Some o →
     mapping_get integer_runtime 2 small_dict 2 3
     = Returns (new_value small_dict
         (mkValue (_python_value o) (_metadata o) (_dependencies o ++ [2; 3])))) ∧
  (Forall (λ x, eq_raw integer_runtime 2 small_dict x 3 = Some false) (map fst [(0, 1)]) →
   mapping_get integer_runtime 2 small_dict 2 3 = Raises KeyError).
Proof.
  split; [reflexivity|]. split; [reflexivity|].
  apply (mapping_get_spec integer_runtime 2 small_dict 2 3 0 [(0, 1)]); reflexivity.
Defined.

Lemma prefix_lists_scalars :
  Forall2 (scalar_object prefix_lists) [0; 1] [int_value 1; int_value 2].
Proof. repeat constructor. Qed.

Lemma get_dependencies_of_scalars_witness :
  values prefix_lists !! 3 = Some (list_value 0) ∧
  is_iterable (_python_value (list_value 0 : @CaMeLValue Empty_set)) = true ∧
  iterable_elements prefix_lists (_python_value (list_value 0)) = Some [0; 1] ∧
  Forall2 (scalar_object prefix_lists) [0; 1] [int_value 1; int_value 2] ∧
  dependencies_of 2 prefix_lists 3
  = Some (_dependencies (list_value 0 : @CaMeLValue Empty_set)
          ++ concat (map _dependencies [int_value 1; int_value 2])).
Proof.
  split; [reflexivity|]. split; [reflexivity|]. split; [reflexivity|].
  split; [exact prefix_lists_scalars|].
  apply (get_dependencies_of_scalars 0 prefix_lists 3 (list_value 0) [0; 1]
           [int_value 1; int_value 2]);
    first [reflexivity | exact prefix_lists_scalars].
Defined.

Lemma shared_list_scalars :
  Forall2 (plain_scalar_object shared_list) [0; 1] [int_value 10; int_value 20].
Proof. repeat constructor. Qed.

Lemma eq_lists_of_same_length_witness :
  python_value_of shared_list 2 = Some (VList 0) ∧
  python_value_of shared_list 4 = Some (VList 0) ∧
  objects shared_list !! 0 = Some (OList [0; 1]) ∧
  Forall2 (plain_scalar_object shared_list) [0; 1] [int_value 10; int_value 20] ∧
  length [0; 1] = length [0; 1] ∧
  ∃ lx ly,
    raw integer_runtime 2 shared_list 2 = Some (PyList lx) ∧
    raw integer_runtime 2 shared_list 4 = Some (PyList ly) ∧
    eq integer_runtime 2 shared_list 2 4
    = Returns (new_value shared_list
        (CaMeLBool (py_eqb integer_runtime (PyList lx) (PyList ly)) Capabilities_.camel
           [2; 4])).
Proof.
  split; [reflexivity|]. split; [reflexivity|]. split; [reflexivity|].
  split; [exact shared_list_scalars|]. split; [reflexivity|].
  apply (eq_lists_of_same_length integer_runtime 0 shared_list 2 4 0 0 [0; 1] [0; 1]
           [int_value 10; int_value 20] [int_value 10; int_value 20]);
    first [reflexivity | exact shared_list_scalars].
Defined.
